(** * SmartQRCode native decoder: a shallow embedding of
      [app/src/main/cpp/native_decoder.cpp] and the properties of its
      pre-processing and retry pipeline.

    Conventions of the embedding.
    - C++ [int] / [jint] values are [Z], and no wrap-around is written out:
      the model describes the source where its [int] arithmetic stays in
      the 32-bit range.  The [int] sum of the white-band tests, for one,
      does so up to 8,421,504 samples of a row or column.  [size_t]
      products are exact.
    - [uint8_t] samples are [byte]; a buffer ([const uint8_t*] or
      [std::vector<uint8_t>]) is a [list byte] used through index loads and
      stores.
    - [std::string] is [string].
    - The ZXing decode primitive and the few floating-point computations
      (bilinear resampling, the standard-deviation test of the white bands,
      scaling of sides and coordinates) are parameters of the model, gathered
      in [External]; exact-arithmetic instances are given for evaluation.
    - The messages written to the Android log are not part of the model, and
      the build is the one without [ZXING_EXPERIMENTAL_API]. *)

From Stdlib Require Import ZArith Lia Bool String Ascii DecimalString.
From Stdlib Require DecimalZ DecimalPos.
From Stdlib.Strings Require Import Byte.
From stdpp Require Import base list list_numbers.

Local Open Scope Z_scope.

(** ** Integers and loops *)

(** [std::clamp(v, lo, hi)] as the usual library implementation computes it. *)
Definition clamp (v lo hi : Z) : Z :=
  if v <? lo then lo else if hi <? v then hi else v.

(** [for (int i = 0; i < n; i++) body], threading the mutated state. *)
Definition forZ {S : Type} (n : Z) (body : Z -> S -> S) (s : S) : S :=
  fold_left (fun acc i => body i acc) (seqZ 0 n) s.

(** ** Buffers *)

Abbreviation Gray := (list byte).

#[global] Instance byte_inhabited : Inhabited byte := populate x00.

Definition white : byte := xff.

(** [buf[i]]; the source never reads out of range on a well-sized buffer. *)
Definition load (buf : Gray) (i : Z) : byte :=
  if 0 <=? i then buf !!! Z.to_nat i else x00.

(** [buf[i] = v]. *)
Definition store (buf : Gray) (i : Z) (v : byte) : Gray :=
  if 0 <=? i then <[Z.to_nat i := v]> buf else buf.

(** [std::vector<uint8_t>(n)], zero-initialised, and [std::vector<uint8_t>(n, v)]. *)
Definition zeros (n : Z) : Gray := replicate (Z.to_nat n) x00.
Definition filled (n : Z) (v : byte) : Gray := replicate (Z.to_nat n) v.

(** [src + off], the buffer seen from an offset. *)
Definition offset (src : Gray) (off : Z) : Gray := drop (Z.to_nat off) src.

(** [std::copy(from, from + n, dst + at)]. *)
Definition copyInto (dst : Gray) (at_ : Z) (from : Gray) (n : Z) : Gray :=
  list_inserts (Z.to_nat at_) (take (Z.to_nat n) from) dst.

(** [std::vector<uint8_t>(src, src + n)]. *)
Definition copyOf (src : Gray) (n : Z) : Gray := take (Z.to_nat n) src.

(** A buffer together with the dimensions the source returns through
    [outW] and [outH]. *)
Record Image := mkImage { pixels : Gray; imgW : Z; imgH : Z }.

(** ** Geometry *)

Record RectI := mkRect { left : Z; top : Z; right : Z; bottom : Z }.

Definition clampRect (r : RectI) (width height : Z) : RectI :=
  let l := clamp (left r) 0 width in
  let rr := clamp (right r) 0 width in
  let t := clamp (top r) 0 height in
  let b := clamp (bottom r) 0 height in
  let '(l, rr) := if rr <? l then (rr, l) else (l, rr) in
  let '(t, b) := if b <? t then (b, t) else (t, b) in
  mkRect l t rr b.

Definition cropGray (src : Gray) (width height : Z) (roi : RectI) : Image :=
  let roi := clampRect roi width height in
  let outW := Z.max 0 (right roi - left roi) in
  let outH := Z.max 0 (bottom roi - top roi) in
  let dst := zeros (outW * outH) in
  let dst := forZ outH (fun y dst =>
               let row := offset src ((top roi + y) * width + left roi) in
               copyInto dst (y * outW) row outW) dst in
  mkImage dst outW outH.

(** [((rotationDeg % 360) + 360) % 360] with C++ truncating remainder. *)
Definition normRot (rotationDeg : Z) : Z :=
  Z.rem (Z.rem rotationDeg 360 + 360) 360.

Definition rotateGray (src : Gray) (width height rotationDeg : Z) : Image :=
  let rot := normRot rotationDeg in
  if rot =? 0 then mkImage (copyOf src (width * height)) width height
  else if rot =? 180 then
    let dst := zeros (width * height) in
    let dst := forZ height (fun y dst =>
                 forZ width (fun x dst =>
                   store dst ((height - 1 - y) * width + (width - 1 - x))
                         (load src (y * width + x))) dst) dst in
    mkImage dst width height
  else if (rot =? 90) || (rot =? 270) then
    let outW := height in
    let outH := width in
    let dst := zeros (outW * outH) in
    let dst :=
      if rot =? 90 then
        forZ height (fun y dst =>
          forZ width (fun x dst =>
            let nx := height - 1 - y in
            let ny := x in
            store dst (ny * outW + nx) (load src (y * width + x))) dst) dst
      else
        forZ height (fun y dst =>
          forZ width (fun x dst =>
            let nx := y in
            let ny := width - 1 - x in
            store dst (ny * outW + nx) (load src (y * width + x))) dst) dst in
    mkImage dst outW outH
  else mkImage (copyOf src (width * height)) width height.

Definition addWhiteBorder (src : Gray) (width height pad : Z) : Image :=
  if pad <=? 0 then mkImage (copyOf src (width * height)) width height
  else
    let outW := width + pad * 2 in
    let outH := height + pad * 2 in
    let dst := filled (outW * outH) white in
    let dst := forZ height (fun y dst =>
                 copyInto dst ((y + pad) * outW + pad) (offset src (y * width)) width) dst in
    mkImage dst outW outH.

Definition addWhiteBorderPerSide (src : Gray) (width height : Z)
    (padLeft padTop padRight padBottom : Z) : Image :=
  let padLeft := Z.max 0 padLeft in
  let padTop := Z.max 0 padTop in
  let padRight := Z.max 0 padRight in
  let padBottom := Z.max 0 padBottom in
  let outW := width + padLeft + padRight in
  let outH := height + padTop + padBottom in
  let dst := filled (outW * outH) white in
  let dst := forZ height (fun y dst =>
               copyInto dst ((y + padTop) * outW + padLeft) (offset src (y * width)) width) dst in
  mkImage dst outW outH.

Definition mapUnknownValue (src : Gray) (width height : Z) (unknownValue mappedTo : byte) : Gray :=
  let out := zeros (width * height) in
  forZ (Z.of_nat (length out)) (fun i out =>
    let v := load src i in
    store out i (if Byte.eqb v unknownValue then mappedTo else v)) out.

Definition mapPointFromRotToCrop (rot cropW cropH xRot yRot : Z) : Z * Z :=
  if rot =? 90 then (yRot, cropH - 1 - xRot)
  else if rot =? 270 then (cropW - 1 - yRot, xRot)
  else if rot =? 180 then (cropW - 1 - xRot, cropH - 1 - yRot)
  else (xRot, yRot).

(** [std::numeric_limits<int>::max()] and [min()]. *)
Definition INT_MAX : Z := 2147483647.
Definition INT_MIN : Z := -2147483648.

Definition mapRectFromRotToCrop (rot cropW cropH : Z) (rInRot : RectI) : RectI :=
  let xs := [left rInRot; right rInRot; right rInRot; left rInRot] in
  let ys := [top rInRot; top rInRot; bottom rInRot; bottom rInRot] in
  let '(minX, minY, maxX, maxY) :=
    fold_left (fun '(minX, minY, maxX, maxY) '(x, y) =>
                 let '(xC, yC) := mapPointFromRotToCrop rot cropW cropH x y in
                 (Z.min minX xC, Z.min minY yC, Z.max maxX xC, Z.max maxY yC))
              (zip xs ys) (INT_MAX, INT_MAX, INT_MIN, INT_MIN) in
  clampRect (mkRect minX minY maxX maxY) cropW cropH.

(** ** Strings *)

Infix "+s+" := String.append (at level 60, right associativity).

(** [std::to_string(int)]. *)
Definition to_string (z : Z) : string := NilZero.string_of_int (Z.to_int z).

Definition pipe : ascii := "|"%char.
Definition slash : ascii := "/"%char.

Fixpoint trimPipes (s : string) : string :=
  match s with
  | EmptyString => EmptyString
  | String c rest => String (if Ascii.eqb c pipe then slash else c) (trimPipes rest)
  end.

Fixpoint hasPipe (s : string) : bool :=
  match s with
  | EmptyString => false
  | String c rest => Ascii.eqb c pipe || hasPipe rest
  end.


Definition isEmpty (s : string) : bool :=
  match s with EmptyString => true | _ => false end.

Definition comma : string := ",".

Definition formatRect (r : RectI) : string :=
  to_string (left r) +s+ comma +s+ to_string (top r) +s+ comma +s+
  to_string (right r) +s+ comma +s+ to_string (bottom r).

Definition formatQuad (x0 y0 x1 y1 x2 y2 x3 y3 : Z) : string :=
  to_string x0 +s+ comma +s+ to_string y0 +s+ comma +s+ to_string x1 +s+ comma +s+ to_string y1 +s+ comma +s+
  to_string x2 +s+ comma +s+ to_string y2 +s+ comma +s+ to_string x3 +s+ comma +s+ to_string y3.

(** ** The interface of the ZXing library

    The headers [BarcodeFormat.h], [ReaderOptions.h], [Error.h] and
    [ReadBarcode.h] are external to the repository; the types below carry the
    members the source uses. *)

Inductive BarcodeFormat := FormatNone | QRCode | MicroQRCode | OtherSymbology.

Definition BarcodeFormat_eqb (a b : BarcodeFormat) : bool :=
  match a, b with
  | FormatNone, FormatNone | QRCode, QRCode | MicroQRCode, MicroQRCode
  | OtherSymbology, OtherSymbology => true
  | _, _ => false
  end.

Inductive ErrorType := ErrNone | ErrFormat | ErrChecksum | ErrUnsupported.

Definition ErrorType_eqb (a b : ErrorType) : bool :=
  match a, b with
  | ErrNone, ErrNone | ErrFormat, ErrFormat | ErrChecksum, ErrChecksum
  | ErrUnsupported, ErrUnsupported => true
  | _, _ => false
  end.

Record Error := mkError { errType : ErrorType; errMsg : string }.

Inductive Binarizer := LocalAverage | GlobalHistogram | FixedThreshold | BoolCast.

Record ReaderOptions := mkOptions {
  formats : list BarcodeFormat;
  isPure : bool;
  optTryHarder : bool;
  tryRotate : bool;
  tryDownscale : bool;
  tryInvert : bool;
  returnErrors : bool;
  binarizer : Binarizer }.

(** Modelled from the spec: the default-constructed [ZXing::ReaderOptions]
    (declared in the external [ReaderOptions.h]); the source relies on the
    default binarizer being the local-average one and on [isPure] being off. *)
Definition defaultOptions : ReaderOptions :=
  mkOptions [] false true true true true false LocalAverage.

Definition setFormats (f : list BarcodeFormat) (o : ReaderOptions) : ReaderOptions :=
  mkOptions f (isPure o) (optTryHarder o) (tryRotate o) (tryDownscale o) (tryInvert o) (returnErrors o) (binarizer o).
Definition setIsPure (v : bool) (o : ReaderOptions) : ReaderOptions :=
  mkOptions (formats o) v (optTryHarder o) (tryRotate o) (tryDownscale o) (tryInvert o) (returnErrors o) (binarizer o).
Definition setTryHarder (v : bool) (o : ReaderOptions) : ReaderOptions :=
  mkOptions (formats o) (isPure o) v (tryRotate o) (tryDownscale o) (tryInvert o) (returnErrors o) (binarizer o).
Definition setTryRotate (v : bool) (o : ReaderOptions) : ReaderOptions :=
  mkOptions (formats o) (isPure o) (optTryHarder o) v (tryDownscale o) (tryInvert o) (returnErrors o) (binarizer o).
Definition setTryDownscale (v : bool) (o : ReaderOptions) : ReaderOptions :=
  mkOptions (formats o) (isPure o) (optTryHarder o) (tryRotate o) v (tryInvert o) (returnErrors o) (binarizer o).
Definition setTryInvert (v : bool) (o : ReaderOptions) : ReaderOptions :=
  mkOptions (formats o) (isPure o) (optTryHarder o) (tryRotate o) (tryDownscale o) v (returnErrors o) (binarizer o).
Definition setReturnErrors (v : bool) (o : ReaderOptions) : ReaderOptions :=
  mkOptions (formats o) (isPure o) (optTryHarder o) (tryRotate o) (tryDownscale o) (tryInvert o) v (binarizer o).
Definition setBinarizer (v : Binarizer) (o : ReaderOptions) : ReaderOptions :=
  mkOptions (formats o) (isPure o) (optTryHarder o) (tryRotate o) (tryDownscale o) (tryInvert o) (returnErrors o) v.

Record PointI := mkPoint { px : Z; py : Z }.

Record Position := mkPosition {
  topLeft : PointI; topRight : PointI; bottomRight : PointI; bottomLeft : PointI }.

Record Barcode := mkBarcode {
  format : BarcodeFormat;
  isValid : bool;
  error : Error;
  text : string;
  bytes : list byte;
  hasECI : bool;
  bytesECI : list byte;
  position : Position;
  isMirrored : bool;
  isInverted : bool;
  orientation : Z;
  version : string;
  ecLevel : string;
  symbologyIdentifier : string }.

(** [ZXing::Barcode()], the empty result. *)
Definition emptyBarcode : Barcode :=
  mkBarcode FormatNone false (mkError ErrNone EmptyString) EmptyString [] false []
    (mkPosition (mkPoint 0 0) (mkPoint 0 0) (mkPoint 0 0) (mkPoint 0 0))
    false false 0 EmptyString EmptyString EmptyString.

Definition detected (b : Barcode) : bool := negb (BarcodeFormat_eqb (format b) FormatNone).

(** [barcode.error() == ZXing::Error::Format]. *)
Definition hasFormatError (b : Barcode) : bool := ErrorType_eqb (errType (error b)) ErrFormat.

(** ** External collaborators and floating-point computations *)

(** The percentage of a scale factor: the source's [double] scales
    0.5, 0.66, 0.75, 1.0, 1.25, 1.5, 2.0, 2.5 are the integers
    50, 66, 75, 100, 125, 150, 200, 250, ordered alike. *)
Definition Scale := Z.

Record External := mkExternal {
  (** [ZXing::ReadBarcode(image, opts)]. *)
  ReadBarcode : Image -> ReaderOptions -> Barcode;
  (** [ZXing::ToString(BarcodeFormat)] and [ZXing::ToString(Error)]. *)
  FormatToString : BarcodeFormat -> string;
  ErrorToString : Error -> string;
  (** [std <= limit] for the standard deviation the source computes in
      [double] from [n], [sum] and [sumSq]. *)
  stdDevAtMost : Z -> Z -> Z -> Z -> bool;
  (** [resizeGrayBilinear(src, srcW, srcH, dstW, dstH)], interpolating in
      [double]. *)
  resizeGrayBilinear : Gray -> Z -> Z -> Z -> Z -> Gray;
  (** [std::lround(side * scale)]. *)
  scaleSide : Z -> Scale -> Z;
  (** [std::lround(x * invScale)] with [invScale = 1.0 / scale]. *)
  unscale : Z -> Scale -> Z }.

(** ** Call traces

    The entry points are written in a writer monad whose output lists, in
    order, the pipeline stages entered, the calls made to the decode
    primitive, and the outcome of every decode attempt: of the fast path
    ([EvFastAttempt]) and of the general path ([EvAttempt], with the result
    and what is kept of it as the current result). *)

Inductive Event :=
  | EvCrop
  | EvRotate
  | EvMeasureMargins
  | EvBuildPlan
  | EvRead (image : Image) (opts : ReaderOptions)
  | EvFastAttempt (result : Barcode)
  | EvAttempt (result kept : Barcode).

Definition Traced (A : Type) : Type := (A * list Event)%type.

Definition ret {A} (a : A) : Traced A := (a, []).

Definition bind {A B} (m : Traced A) (k : A -> Traced B) : Traced B :=
  let (b, t2) := k (fst m) in (b, snd m ++ t2).

Definition emit (e : Event) : Traced unit := (tt, [e]).

Notation "x <- m ;; k" := (bind m (fun x => k))
  (at level 100, m at next level, right associativity).
Notation "m ;;; k" := (bind m (fun _ => k))
  (at level 100, right associativity).

Definition result {A} (m : Traced A) : A := fst m.
Definition trace {A} (m : Traced A) : list Event := snd m.

Definition isRead (e : Event) : bool :=
  match e with EvRead _ _ => true | _ => false end.
Definition isAttempt (e : Event) : bool :=
  match e with EvAttempt _ _ => true | _ => false end.
Definition isGeneralStage (e : Event) : bool :=
  match e with
  | EvMeasureMargins | EvBuildPlan | EvAttempt _ _ => true
  | EvRead _ opts => negb (isPure opts)
  | _ => false
  end.

(** ** Diagnostics *)

Definition hexChars : string := "0123456789ABCDEF".

Definition hexAt (n : N) : ascii :=
  match String.get (N.to_nat n) hexChars with Some c => c | None => "0"%char end.

Fixpoint hexOf (bs : list byte) : string :=
  match bs with
  | [] => EmptyString
  | b :: rest =>
      let v := Byte.to_N b in
      String (hexAt (N.land (N.shiftr v 4) 15)) (String (hexAt (N.land v 15)) (hexOf rest))
  end.

Definition hexPrefix (bs : list byte) (maxBytes : nat) : string :=
  hexOf (take (Nat.min maxBytes (length bs)) bs).

Definition errorTypeToStr (t : ErrorType) : string :=
  match t with
  | ErrFormat => "Format"
  | ErrChecksum => "Checksum"
  | ErrUnsupported => "Unsupported"
  | ErrNone => "None"
  end.

Definition optField (label value : string) : string :=
  if isEmpty value then EmptyString else label +s+ value.

Definition flag (b : bool) : string := to_string (if b then 1 else 0).

Definition buildInvalidDiagnosticText (E : External) (barcode : Barcode) (includeText : bool) : string :=
  let text0 := if includeText then trimPipes (text barcode) else EmptyString in
  let text0 := if (96 <? String.length text0)%nat then substring 0 96 text0 else text0 in
  let fmt := trimPipes (FormatToString E (format barcode)) in
  let ver := trimPipes (version barcode) in
  let ecl := trimPipes (ecLevel barcode) in
  let si := trimPipes (symbologyIdentifier barcode) in
  let err := error barcode in
  let errTy := errorTypeToStr (errType err) in
  let msg := trimPipes (substring 0 (Nat.min 64 (String.length (errMsg err))) (errMsg err)) in
  let hex0 := hexPrefix (bytes barcode) 28 in
  let hexEci0 := if hasECI barcode then hexPrefix (bytesECI barcode) 28 else EmptyString in
  "INVALID(" +s+ errTy +s+ (if isValid barcode then ",V" else ",I") +s+ ")" +s+
  " fmt=" +s+ fmt +s+
  optField " ver=" ver +s+
  optField " ecl=" ecl +s+
  optField " si=" si +s+
  " mir=" +s+ flag (isMirrored barcode) +s+
  " inv=" +s+ flag (isInverted barcode) +s+
  " ori=" +s+ to_string (orientation barcode) +s+
  " len=" +s+ to_string (Z.of_nat (length (bytes barcode))) +s+
  optField " hex=" hex0 +s+
  optField " eciHex=" hexEci0 +s+
  optField " msg=" msg +s+
  optField " txt=" text0.

(** ** Micro QR fallback *)

Definition readBarcode (E : External) (image : Image) (opts : ReaderOptions) : Traced Barcode :=
  emit (EvRead image opts) ;;; ret (ReadBarcode E image opts).

Definition retryAsQRCodeIfMicroInvalid (E : External) (image : Image) (opts : ReaderOptions)
    (current : Barcode) : Traced Barcode :=
  if negb (BarcodeFormat_eqb (format current) MicroQRCode) then ret current
  else if isValid current then ret current
  else if negb (ErrorType_eqb (errType (error current)) ErrFormat) then ret current
  else
    let opts2 := setFormats [QRCode] opts in
    retry <- readBarcode E image opts2 ;;
    if detected retry && (isValid retry || negb (isEmpty (text retry))) then ret retry
    else ret current.

(** [ReadBarcode] followed by the fallback, as every decode attempt of the
    source does. *)
Definition decodeOnce (E : External) (image : Image) (opts : ReaderOptions) : Traced Barcode :=
  b <- readBarcode E image opts ;;
  retryAsQRCodeIfMicroInvalid E image opts b.

(** ** Quiet-zone estimator *)

(** The indices visited by [for (i = 0; i < n; i += step)] and by
    [for (i = start; i >= 0; i -= step)]. *)
Definition stepsUp (n step : Z) : list Z :=
  (fun k => k * step) <$> seqZ 0 ((n + step - 1) `div` step).
Definition stepsDown (start step : Z) : list Z :=
  (fun k => start - k * step) <$> seqZ 0 (start `div` step + 1).

(** A loop over [idxs] whose body may [break]. *)
Fixpoint forBreak {S : Type} (idxs : list Z) (body : Z -> S -> S * bool) (s : S) : S :=
  match idxs with
  | [] => s
  | i :: rest => let (s', brk) := body i s in if brk then s' else forBreak rest body s'
  end.

Definition sample (buf : Gray) (i : Z) : Z := Z.of_N (Byte.to_N (load buf i)).

Record Stats := mkStats { dark : Z; sum : Z; sumSq : Z }.

Definition addSample (v : Z) (s : Stats) : Stats :=
  mkStats (if v <? 180 then dark s + 1 else dark s) (sum s + v) (sumSq s + v * v).

(** The three bands on mean, standard deviation and dark ratio.  The mean and
    ratio comparisons of the source, made in [double] against 205.0, 0.10
    and the like, agree with the integer cross-multiplications below. *)
Definition whiteBands (E : External) (n : Z) (s : Stats) : bool :=
  let n := Z.max 1 n in
  let band (meanMin stdMax ratioPct : Z) :=
    (meanMin * n <=? sum s) && stdDevAtMost E n (sum s) (sumSq s) stdMax
    && (dark s * 100 <=? ratioPct * n) in
  band 205 22 10 || band 195 32 12 || band 185 42 8.

Definition isMostlyWhiteRow (E : External) (row : Gray) (width : Z) : bool :=
  let s := fold_left (fun s x => addSample (sample row x) s) (stepsUp width 2) (mkStats 0 0 0) in
  whiteBands E ((width + 1) ÷ 2) s.

Definition isMostlyWhiteCol (E : External) (src : Gray) (width height x : Z) : bool :=
  let s := fold_left (fun s y => addSample (sample src (y * width + x)) s) (stepsUp height 2) (mkStats 0 0 0) in
  whiteBands E ((height + 1) ÷ 2) s.

Record Margins := mkMargins { m_top : Z; m_bottom : Z; m_left : Z; m_right : Z }.

(** [if (white(i)) m += step; else break;] *)
Definition countWhite (step : Z) (isWhite : Z -> bool) (i : Z) (m : Z) : Z * bool :=
  if isWhite i then (m + step, false) else (m, true).

Definition measureWhiteMargins (E : External) (src : Gray) (width height : Z) : Margins :=
  let whiteRow y := isMostlyWhiteRow E (offset src (y * width)) width in
  let whiteCol x := isMostlyWhiteCol E src width height x in
  let t := forBreak (stepsUp height 1) (countWhite 1 whiteRow) 0 in
  let b := forBreak (stepsDown (height - 1) 1) (countWhite 1 whiteRow) 0 in
  let l := forBreak (stepsUp width 2) (countWhite 2 whiteCol) 0 in
  let l := Z.min l width in
  let r := forBreak (stepsDown (width - 1) 2) (countWhite 2 whiteCol) 0 in
  let r := Z.min r width in
  mkMargins t b l r.

(** ** Synthetic-image classifier *)

Definition isCanonical (v : Z) : bool := (v =? 0) || (v =? 255) || (v =? 127).

(** The final test [hits / n >= 0.985] of the source, made in [double], is the
    integer comparison [985 * n <= 1000 * hits]. *)
Definition looksSyntheticQR (src : Gray) (width height : Z) : bool :=
  if (width <=? 0) || (height <=? 0) then false
  else
    let stepX := Z.max 1 (width ÷ 64) in
    let stepY := Z.max 1 (height ÷ 64) in
    let '(n, hits) :=
      fold_left (fun acc y =>
        let row := offset src (y * width) in
        fold_left (fun '(n, hits) x =>
          (n + 1, if isCanonical (sample row x) then hits + 1 else hits))
          (stepsUp width stepX) acc)
        (stepsUp height stepY) (0, 0) in
    (0 <? n) && (985 * n <=? 1000 * hits).

(** ** Sorting and deduplication of candidate lists *)

Fixpoint insertSorted (before : Z -> Z -> bool) (x : Z) (l : list Z) : list Z :=
  match l with
  | [] => [x]
  | y :: rest => if before y x then y :: insertSorted before x rest else x :: l
  end.

(** [std::sort(first, last, comp)] on integers. *)
Definition sortBy (before : Z -> Z -> bool) (l : list Z) : list Z :=
  fold_right (insertSorted before) [] l.

Definition less : Z -> Z -> bool := Z.ltb.
Definition greater : Z -> Z -> bool := Z.gtb.

(** [v.erase(std::unique(v.begin(), v.end()), v.end())]. *)
Fixpoint unique (l : list Z) : list Z :=
  match l with
  | [] => []
  | x :: rest =>
      match rest with
      | y :: _ => if x =? y then unique rest else x :: unique rest
      | [] => [x]
      end
  end.

(** ** Adaptive plan builder *)

Definition isSuspect (m : Margins) : bool :=
  (m_left m <=? 2) || (m_right m <=? 2) || (m_top m <=? 2) || (m_bottom m <=? 2).

Definition isZero (m : Margins) : bool :=
  (m_left m =? 0) && (m_right m =? 0) && (m_top m =? 0) && (m_bottom m =? 0).

Record Plan := mkPlan {
  qzSuspect : bool;
  qzZero : bool;
  targetQz : Z;
  padL : Z; padR : Z; padT : Z; padB : Z;
  base : Image;
  basePad : Z;
  pads : list Z }.

Definition targetQuietZone (th : bool) (zeroDivisor : Z) (minDim : Z) (suspect zero : bool) : Z :=
  let targetQzBase := minDim ÷ 10 in
  let targetQzBase :=
    if th then
      let t := Z.max targetQzBase (minDim ÷ 7) in
      if suspect then Z.max t (minDim ÷ 6) else t
    else
      if suspect then Z.max targetQzBase (minDim ÷ 8) else targetQzBase in
  let targetQzBase := if zero then Z.max targetQzBase (minDim ÷ zeroDivisor) else targetQzBase in
  let targetQzMax :=
    if th then (if zero then 220 else if suspect then 140 else 96)
    else (if zero then 160 else if suspect then 96 else 64) in
  clamp targetQzBase (if th then 20 else 14) targetQzMax.

(** The pad candidates of the primary entry point, before sorting. *)
Definition padCandidates (th suspect zero : bool) (basePad padCap : Z) : list Z :=
  let pads := [0; clamp (basePad ÷ 2) 0 96; basePad] in
  if th then
    if zero then
      pads ++ [clamp (basePad * 2) (basePad + 1) padCap;
               clamp (basePad * 3) (basePad * 2 + 1) padCap;
               clamp (basePad * 4) (basePad * 3 + 1) padCap;
               clamp (basePad * 6) (basePad * 4 + 1) padCap]
    else
      let pads := pads ++ [clamp (basePad * 2) (basePad + 1) 192;
                           clamp (basePad * 3) (basePad * 2 + 1) 256;
                           clamp (basePad ÷ 3) 0 64] in
      if suspect then
        pads ++ [clamp (basePad * 4) (basePad * 3 + 1) padCap;
                 clamp (basePad * 6) (basePad * 4 + 1) padCap]
      else pads
  else pads.

(** The pad candidates of the diagnostic entry point, before sorting. *)
Definition padCandidatesDebug (th suspect zero : bool) (basePad padCap : Z) : list Z :=
  let pads := [0; clamp (basePad ÷ 2) 0 96; basePad] in
  if th then
    if zero then
      pads ++ [clamp (basePad * 2) (basePad + 1) padCap;
               clamp (basePad * 3) (basePad * 2 + 1) padCap;
               clamp (basePad * 4) (basePad * 3 + 1) padCap]
    else
      let pads := pads ++ [clamp (basePad * 2) (basePad + 1) 192;
                           clamp (basePad * 3) (basePad * 2 + 1) 256;
                           clamp (basePad ÷ 3) 0 64] in
      if suspect then
        pads ++ [clamp (basePad * 4) (basePad * 3 + 1) 384;
                 clamp (basePad * 6) (basePad * 4 + 1) 512]
      else pads
  else pads.

(** Lines 592-647 of the primary entry point ([debug = false]) and lines
    945-995 of the diagnostic one ([debug = true]); the two differ in the
    divisor used for a zero quiet zone, in the lower bound of the base pad, in
    the candidate list and in the sort order. *)
Definition buildPlanFor (debug th : bool) (rotated : Gray) (rotW rotH : Z) (margins : Margins) : Plan :=
  let minDim := Z.max 1 (Z.min rotW rotH) in
  let suspect := isSuspect margins in
  let zero := isZero margins in
  let targetQz := targetQuietZone th (if debug then 5 else if th then 4 else 5) minDim suspect zero in
  let padL := Z.max 0 (targetQz - m_left margins) in
  let padR := Z.max 0 (targetQz - m_right margins) in
  let padT := Z.max 0 (targetQz - m_top margins) in
  let padB := Z.max 0 (targetQz - m_bottom margins) in
  let base := addWhiteBorderPerSide rotated rotW rotH padL padT padR padB in
  let padCap := if zero then 512 else if Z.max (imgW base) (imgH base) <=? 900 then 192 else 512 in
  let basePadMax :=
    if th then (if zero then padCap else if suspect then 320 else 192)
    else (if zero then 256 else if suspect then 192 else 128) in
  let basePadMin :=
    if zero then (if debug then 96 else if th then 128 else 96)
    else if suspect then 32 else 16 in
  let basePadBasis := if zero then Z.max targetQz (minDim ÷ 6) else Z.max targetQz (minDim ÷ 8) in
  let basePad := clamp basePadBasis basePadMin basePadMax in
  let pads :=
    if debug then unique (sortBy less (padCandidatesDebug th suspect zero basePad padCap))
    else unique (sortBy (if zero then greater else less) (padCandidates th suspect zero basePad padCap)) in
  mkPlan suspect zero targetQz padL padR padT padB base basePad pads.

Definition buildPlan := buildPlanFor false.
Definition buildPlanDebug := buildPlanFor true.

(** The scale candidates tried for one padded buffer. *)
Definition buildScales (th suspect zero : bool) (paddedW paddedH : Z) : list Scale :=
  let maxSide := Z.max paddedW paddedH in
  let scales := [100] in
  let scales := if th && (1100 <=? Z.max paddedW paddedH) then scales ++ [75] else scales in
  let scales :=
    if th then
      let scales := if zero then scales ++ [50; 66; 75; 125] else scales in
      if zero && (900 <=? maxSide) then scales ++ [150; 200; 250]
      else if suspect && (900 <=? maxSide) then scales ++ [66; 150]
      else scales
    else scales in
  unique (sortBy (if zero then greater else less) scales).

(** ** Multi-pass decode orchestrator *)

(** The locals of the entry points that the loops mutate. *)
Record Orch := mkOrch {
  barcode : Barcode;
  bestInvalid : Barcode;
  haveInvalid : bool;
  padUsed : Z;
  bestInvalidPad : Z;
  scaleUsed : Scale;
  bestInvalidScale : Scale }.

Definition initialOrch : Orch := mkOrch emptyBarcode emptyBarcode false 0 0 100 100.

Definition setBarcode (b : Barcode) (s : Orch) : Orch :=
  mkOrch b (bestInvalid s) (haveInvalid s) (padUsed s) (bestInvalidPad s) (scaleUsed s) (bestInvalidScale s).

Definition setUsed (pad : Z) (scale : Scale) (s : Orch) : Orch :=
  mkOrch (barcode s) (bestInvalid s) (haveInvalid s) pad (bestInvalidPad s) scale (bestInvalidScale s).

(** [if (format != None && !isValid && !haveInvalid) { bestInvalid = barcode; ... }] *)
Definition recordInvalid (pad : Z) (scale : Scale) (s : Orch) : Orch :=
  let b := barcode s in
  if detected b && negb (isValid b) && negb (haveInvalid s)
  then mkOrch b b true (padUsed s) pad (scaleUsed s) scale
  else s.

(** One decode attempt: the primitive, the Micro QR fallback, the
    best-invalid bookkeeping and the reset of a format error.
    [resetGuard] is the extra condition of the reset: [tryHarder != JNI_TRUE]
    for the first attempt of the primary entry point, none elsewhere. *)
Definition settle (b : Barcode) (pad : Z) (scale : Scale) (resetGuard : bool) (s : Orch) : Orch :=
  let s := recordInvalid pad scale (setBarcode b s) in
  if hasFormatError (barcode s) && resetGuard then setBarcode emptyBarcode s else s.

Definition attempt (E : External) (image : Image) (opts : ReaderOptions)
    (pad : Z) (scale : Scale) (resetGuard : bool) (s : Orch) : Traced Orch :=
  b <- decodeOnce E image opts ;;
  let s := settle b pad scale resetGuard s in
  emit (EvAttempt b (barcode s)) ;;;
  ret s.

(** [if (barcode.format() == None && tryHarder == JNI_TRUE) { opts.set...; attempt }] *)
Definition escalate (E : External) (image : Image) (th : bool)
    (configure : ReaderOptions -> ReaderOptions) (pad : Z) (scale : Scale)
    (st : ReaderOptions * Orch) : Traced (ReaderOptions * Orch) :=
  let (opts, s) := st in
  if negb (detected (barcode s)) && th then
    let opts := configure opts in
    s <- attempt E image opts pad scale true s ;;
    ret (opts, s)
  else ret (opts, s).

Definition generalOptions (th : bool) : ReaderOptions :=
  setReturnErrors th (setTryDownscale th (setTryRotate false (setTryInvert th
    (setTryHarder th (setFormats [QRCode; MicroQRCode] defaultOptions))))).

(** The five attempts made on one scaled buffer (lines 703-780). *)
Definition ladder (E : External) (image : Image) (th : bool) (pad : Z) (scale : Scale)
    (s : Orch) : Traced Orch :=
  let opts := generalOptions th in
  s <- attempt E image opts pad scale (negb th) s ;;
  st <- escalate E image th (setBinarizer GlobalHistogram) pad scale (opts, s) ;;
  st <- escalate E image th (setBinarizer FixedThreshold) pad scale st ;;
  st <- escalate E image th (fun o => setBinarizer LocalAverage (setTryRotate true o)) pad scale st ;;
  st <- escalate E image th (fun o => setBinarizer FixedThreshold (setTryRotate true o)) pad scale st ;;
  ret (snd st).

Definition scaledImage (E : External) (padded : Image) (scale : Scale) : Image :=
  if negb (scale =? 100) then
    let dstW := clamp (scaleSide E (imgW padded) scale) 32 2200 in
    let dstH := clamp (scaleSide E (imgH padded) scale) 32 2200 in
    mkImage (resizeGrayBilinear E (pixels padded) (imgW padded) (imgH padded) dstW dstH) dstW dstH
  else padded.

(** The scale loop; the boolean is [decoded]. *)
Fixpoint scaleLoop (E : External) (th : bool) (padded : Image) (pad : Z)
    (scales : list Scale) (s : Orch) : Traced (bool * Orch) :=
  match scales with
  | [] => ret (false, s)
  | scale :: rest =>
      s <- ladder E (scaledImage E padded scale) th pad scale s ;;
      if detected (barcode s) then ret (true, setUsed pad scale s)
      else scaleLoop E th padded pad rest s
  end.

Fixpoint padLoop (E : External) (th : bool) (plan : Plan) (padList : list Z) (s : Orch) : Traced Orch :=
  match padList with
  | [] => ret s
  | pad :: rest =>
      let padded := addWhiteBorder (pixels (base plan)) (imgW (base plan)) (imgH (base plan)) pad in
      let scales := buildScales th (qzSuspect plan) (qzZero plan) (imgW padded) (imgH padded) in
      r <- scaleLoop E th padded pad scales s ;;
      if fst r then ret (snd r) else padLoop E th plan rest (snd r)
  end.

(** Lines 791-795: the best invalid result becomes the final one. *)
Definition promote (s : Orch) : Orch :=
  if negb (detected (barcode s)) && haveInvalid s
  then mkOrch (bestInvalid s) (bestInvalid s) (haveInvalid s) (bestInvalidPad s) (bestInvalidPad s)
              (bestInvalidScale s) (bestInvalidScale s)
  else s.

Definition orchestrate (E : External) (th : bool) (plan : Plan) : Traced Orch :=
  s <- padLoop E th plan (pads plan) initialOrch ;;
  ret (promote s).

(** ** Coordinate remapping and output *)

Definition min4 (a b c d : Z) : Z := Z.min (Z.min (Z.min a b) c) d.
Definition max4 (a b c d : Z) : Z := Z.max (Z.max (Z.max a b) c) d.

Definition bar : string := "|".

(** Lines 833-895 of the primary entry point. *)
Definition formatOutput (E : External) (th : bool) (roi : RectI) (rot cropW cropH rotW rotH : Z)
    (plan : Plan) (s : Orch) : string :=
  let b := barcode s in
  let txt := text b in
  let txt := if th && (negb (isValid b) || isEmpty txt) then buildInvalidDiagnosticText E b true else txt in
  let pos := position b in
  let offX := padUsed s + padL plan in
  let offY := padUsed s + padT plan in
  let un v := unscale E v (scaleUsed s) in
  let cx v := clamp (un v - offX) 0 (Z.max 0 (rotW - 1)) in
  let cy v := clamp (un v - offY) 0 (Z.max 0 (rotH - 1)) in
  let tlxR := cx (px (topLeft pos)) in let tlyR := cy (py (topLeft pos)) in
  let trxR := cx (px (topRight pos)) in let tryR := cy (py (topRight pos)) in
  let brxR := cx (px (bottomRight pos)) in let bryR := cy (py (bottomRight pos)) in
  let blxR := cx (px (bottomLeft pos)) in let blyR := cy (py (bottomLeft pos)) in
  let boxInRot := mkRect (min4 tlxR trxR brxR blxR) (min4 tlyR tryR bryR blyR)
                         (max4 tlxR trxR brxR blxR) (max4 tlyR tryR bryR blyR) in
  let boxInCrop := mapRectFromRotToCrop rot cropW cropH boxInRot in
  let boxInFull := mkRect (left roi + left boxInCrop) (top roi + top boxInCrop)
                          (left roi + right boxInCrop) (top roi + bottom boxInCrop) in
  let tl := mapPointFromRotToCrop rot cropW cropH tlxR tlyR in
  let tr := mapPointFromRotToCrop rot cropW cropH trxR tryR in
  let br := mapPointFromRotToCrop rot cropW cropH brxR bryR in
  let bl := mapPointFromRotToCrop rot cropW cropH blxR blyR in
  let quadInFull := formatQuad (left roi + fst tl) (top roi + snd tl) (left roi + fst tr) (top roi + snd tr)
                               (left roi + fst br) (top roi + snd br) (left roi + fst bl) (top roi + snd bl) in
  txt +s+ bar +s+ formatRect boxInFull +s+ bar +s+ quadInFull.

(** ** Synthetic-image fast path *)

(** A loop whose body may [return] a value from the enclosing function. *)
Fixpoint forUntil {A R : Type} (xs : list A) (body : A -> Traced (option R)) : Traced (option R) :=
  match xs with
  | [] => ret None
  | x :: rest =>
      r <- body x ;;
      match r with
      | Some v => ret (Some v)
      | None => forUntil rest body
      end
  end.

(** The [tryPure] lambda of the primary entry point. *)
Definition pureOptions (th : bool) (bin : Binarizer) : ReaderOptions :=
  setBinarizer bin (setReturnErrors true (setTryInvert th (setTryDownscale false
    (setTryRotate false (setTryHarder th (setIsPure true
      (setFormats [QRCode; MicroQRCode] defaultOptions))))))).

Definition tryPure (E : External) (buf : Gray) (bufW bufH : Z) (th : bool) (bin : Binarizer) : Traced Barcode :=
  b <- decodeOnce E (mkImage buf bufW bufH) (pureOptions th bin) ;;
  emit (EvFastAttempt b) ;;;
  ret b.

(** Lines 564-584: the string returned by a fast-path hit. *)
Definition syntheticOutput (E : External) (b : Barcode) (pad rotW rotH : Z) : string :=
  let txt := text b in
  let txt := if negb (isValid b) || isEmpty txt then buildInvalidDiagnosticText E b true else txt in
  let pos := position b in
  let cx v := clamp (v - pad) 0 (Z.max 0 (rotW - 1)) in
  let cy v := clamp (v - pad) 0 (Z.max 0 (rotH - 1)) in
  let tlx := cx (px (topLeft pos)) in let tly := cy (py (topLeft pos)) in
  let trx := cx (px (topRight pos)) in let tryy := cy (py (topRight pos)) in
  let brx := cx (px (bottomRight pos)) in let bry := cy (py (bottomRight pos)) in
  let blx := cx (px (bottomLeft pos)) in let bly := cy (py (bottomLeft pos)) in
  txt +s+ bar +s+
  formatRect (mkRect (min4 tlx trx brx blx) (min4 tly tryy bry bly)
                     (max4 tlx trx brx blx) (max4 tly tryy bry bly)) +s+ bar +s+
  formatQuad tlx tly trx tryy brx bry blx bly.

Definition syntheticPath (E : External) (th : bool) (rotated : Gray) (rotW rotH : Z) : Traced (option string) :=
  let unknownToWhite := mapUnknownValue rotated rotW rotH x7f xff in
  let unknownToBlack := mapUnknownValue rotated rotW rotH x7f x00 in
  forUntil [0; 16; 32] (fun pad =>
    let padded := addWhiteBorder rotated rotW rotH pad in
    let paddedW := addWhiteBorder unknownToWhite rotW rotH pad in
    let paddedB := addWhiteBorder unknownToBlack rotW rotH pad in
    let pw := imgW paddedB in
    let ph := imgH paddedB in
    forUntil [pixels padded; pixels paddedW; pixels paddedB] (fun buf =>
      b <- tryPure E buf pw ph th FixedThreshold ;;
      b <- (if negb (detected b) then tryPure E buf pw ph th LocalAverage else ret b) ;;
      if detected b then ret (Some (syntheticOutput E b pad rotW rotH)) else ret None)).

(** ** The primary entry point *)

(** The arguments of the JNI entry points.  [gray = None] is a null array
    reference; [elementsAvailable] tells whether [GetByteArrayElements]
    hands out the samples. *)
Record JniInput := mkInput {
  gray : option Gray;
  elementsAvailable : bool;
  width : Z;
  height : Z;
  rotationDegrees : Z;
  roiLeft : Z;
  roiTop : Z;
  roiRight : Z;
  roiBottom : Z;
  tryHarder : bool }.

(** Lines 592-895: margins, plan, orchestration, output. *)
Definition generalPipeline (E : External) (th : bool) (roi : RectI) (rot cropW cropH : Z)
    (rotated : Image) : Traced (option string) :=
  emit EvMeasureMargins ;;;
  let margins := measureWhiteMargins E (pixels rotated) (imgW rotated) (imgH rotated) in
  emit EvBuildPlan ;;;
  let plan := buildPlan th (pixels rotated) (imgW rotated) (imgH rotated) margins in
  s <- orchestrate E th plan ;;
  if negb (detected (barcode s)) then ret None
  else ret (Some (formatOutput E th roi rot cropW cropH (imgW rotated) (imgH rotated) plan s)).

Definition takesFastPath (roi : RectI) (w h rot : Z) (rotated : Image) : bool :=
  let fullRoi := (left roi =? 0) && (top roi =? 0) && (right roi =? w) && (bottom roi =? h) in
  fullRoi && (rot =? 0) && (imgW rotated =? imgH rotated) && (imgW rotated <=? 900)
  && looksSyntheticQR (pixels rotated) (imgW rotated) (imgH rotated).

(** The buffer checks shared by both entry points, in source order; the
    result names the first check that fails. *)
Inductive InputError := NullGray | BadSize | BadLen | NoBytes | EmptyRoi.

Definition requestedRoi (inp : JniInput) : RectI :=
  clampRect (mkRect (roiLeft inp) (roiTop inp) (roiRight inp) (roiBottom inp)) (width inp) (height inp).

Definition checkInput (inp : JniInput) : InputError + Gray :=
  match gray inp with
  | None => inl NullGray
  | Some data =>
      let w := width inp in
      let h := height inp in
      if (w <=? 0) || (h <=? 0) then inl BadSize
      else
        let len := Z.of_nat (length data) in
        let expected := w * h in
        if (len <? 0) || (len <? expected) then inl BadLen
        else if negb (elementsAvailable inp) then inl NoBytes
        else
          let roi := requestedRoi inp in
          if (right roi =? left roi) || (bottom roi =? top roi) then inl EmptyRoi
          else inr data
  end.

(** Lines 525-895: the fast path when it applies, then the general pipeline. *)
Definition decodeRotated (E : External) (th : bool) (roi : RectI) (w h rot : Z)
    (cropped rotated : Image) : Traced (option string) :=
  if takesFastPath roi w h rot rotated then
    r <- syntheticPath E th (pixels rotated) (imgW rotated) (imgH rotated) ;;
    match r with
    | Some out => ret (Some out)
    | None =>
        if th then ret None
        else generalPipeline E th roi rot (imgW cropped) (imgH cropped) rotated
    end
  else generalPipeline E th roi rot (imgW cropped) (imgH cropped) rotated.

Definition decodeGray (E : External) (inp : JniInput) : Traced (option string) :=
  match checkInput inp with
  | inl _ => ret None
  | inr data =>
      let roi := requestedRoi inp in
      emit EvCrop ;;;
      let cropped := cropGray data (width inp) (height inp) roi in
      emit EvRotate ;;;
      let rotated := rotateGray (pixels cropped) (imgW cropped) (imgH cropped) (rotationDegrees inp) in
      decodeRotated E (tryHarder inp) roi (width inp) (height inp) (normRot (rotationDegrees inp))
                    cropped rotated
  end.

(** ** The diagnostic entry point *)

Record DebugState := mkDebug {
  orch : Orch;
  binUsed : string;
  lastPadTried : Z;
  binMask : Z }.

Definition debugOptions (th : bool) : ReaderOptions :=
  setReturnErrors true (setTryDownscale th (setTryRotate false (setTryInvert true
    (setTryHarder th (setFormats [QRCode; MicroQRCode] defaultOptions))))).

(** One attempt of the diagnostic loop.  The tracker of this entry point
    keeps no pad and no scale; those fields of [Orch] are not read here. *)
Definition debugAttempt (E : External) (image : Image) (opts : ReaderOptions) (pad : Z)
    (name : string) (bit : Z) (d : DebugState) : Traced DebugState :=
  s <- attempt E image opts pad 100 true (orch d) ;;
  ret (mkDebug s name (lastPadTried d) (Z.lor (binMask d) bit)).

Definition debugEscalate (E : External) (image : Image) (th : bool) (bin : Binarizer) (pad : Z)
    (name : string) (bit : Z) (st : ReaderOptions * DebugState) : Traced (ReaderOptions * DebugState) :=
  let (opts, d) := st in
  if negb (detected (barcode (orch d))) && th then
    let opts := setBinarizer bin opts in
    d <- debugAttempt E image opts pad name bit d ;;
    ret (opts, d)
  else ret (opts, d).

Fixpoint debugPadLoop (E : External) (th : bool) (plan : Plan) (padList : list Z)
    (d : DebugState) : Traced DebugState :=
  match padList with
  | [] => ret d
  | pad :: rest =>
      let d := mkDebug (orch d) (binUsed d) pad (binMask d) in
      let image := addWhiteBorder (pixels (base plan)) (imgW (base plan)) (imgH (base plan)) pad in
      let opts := debugOptions th in
      d <- debugAttempt E image opts pad "local" 1 d ;;
      st <- debugEscalate E image th GlobalHistogram pad "global" 2 (opts, d) ;;
      st <- debugEscalate E image th FixedThreshold pad "fixed" 4 st ;;
      let d := snd st in
      if detected (barcode (orch d))
      then ret (mkDebug (setUsed pad (scaleUsed (orch d)) (orch d)) (binUsed d) (lastPadTried d) (binMask d))
      else debugPadLoop E th plan rest d
  end.

Fixpoint joinInts (l : list Z) : string :=
  match l with
  | [] => EmptyString
  | [x] => to_string x
  | x :: rest => to_string x +s+ comma +s+ joinInts rest
  end.

Definition dims (w h : Z) : string := to_string w +s+ "x" +s+ to_string h.

(** Lines 1064-1092: the diagnostic line. *)
Definition debugLine (E : External) (th : bool) (roi : RectI) (cropped rotated : Image)
    (margins : Margins) (plan : Plan) (d : DebugState) : string :=
  let s := orch d in
  let b := if negb (detected (barcode s)) && haveInvalid s then bestInvalid s else barcode s in
  "f=" +s+ FormatToString E (format b) +s+
  " v=" +s+ flag (isValid b) +s+
  " e=" +s+ (if negb (ErrorType_eqb (errType (error b)) ErrNone) then ErrorToString E (error b) else "None") +s+
  " inv=" +s+ flag (isInverted b) +s+
  " mir=" +s+ flag (isMirrored b) +s+
  " o=" +s+ to_string (orientation b) +s+
  " bin=" +s+ binUsed d +s+
  " bmask=" +s+ to_string (binMask d) +s+
  " pad=" +s+ to_string (padUsed s) +s+
  " lastpad=" +s+ to_string (lastPadTried d) +s+
  " qz=" +s+ to_string (m_left margins) +s+ comma +s+ to_string (m_top margins) +s+ comma +s+
             to_string (m_right margins) +s+ comma +s+ to_string (m_bottom margins) +s+
  " pside=" +s+ to_string (padL plan) +s+ comma +s+ to_string (padT plan) +s+ comma +s+
                to_string (padR plan) +s+ comma +s+ to_string (padB plan) +s+
  " tqz=" +s+ to_string (targetQz plan) +s+
  " bpad=" +s+ to_string (basePad plan) +s+
  " pads=" +s+ joinInts (pads plan) +s+
  " roi=" +s+ formatRect roi +s+
  " crop=" +s+ dims (imgW cropped) (imgH cropped) +s+
  " rot=" +s+ dims (imgW rotated) (imgH rotated) +s+
  " base=" +s+ dims (imgW (base plan)) (imgH (base plan)) +s+
  " th=" +s+ flag th.

Definition inputErrorMarker (e : InputError) : string :=
  match e with
  | NullGray => "null-gray"
  | BadSize => "bad-size"
  | BadLen => "bad-len"
  | NoBytes => "no-bytes"
  | EmptyRoi => "empty-roi"
  end.

Definition decodeGrayDebug (E : External) (inp : JniInput) : Traced (option string) :=
  match checkInput inp with
  | inl e => ret (Some (inputErrorMarker e))
  | inr data =>
      let w := width inp in
      let h := height inp in
      let roi := requestedRoi inp in
      emit EvCrop ;;;
      let cropped := cropGray data w h roi in
      emit EvRotate ;;;
      let rotated := rotateGray (pixels cropped) (imgW cropped) (imgH cropped) (rotationDegrees inp) in
      let th := tryHarder inp in
      emit EvMeasureMargins ;;;
      let margins := measureWhiteMargins E (pixels rotated) (imgW rotated) (imgH rotated) in
      emit EvBuildPlan ;;;
      let plan := buildPlanDebug th (pixels rotated) (imgW rotated) (imgH rotated) margins in
      d <- debugPadLoop E th plan (pads plan) (mkDebug initialOrch "local" (-1) 0) ;;
      ret (Some (debugLine E th roi cropped rotated margins plan d))
  end.

(** ** Exact-arithmetic instances of the floating-point parameters *)

(** [std <= limit] over the rationals: [n * sumSq - sum^2 <= limit^2 * n^2]. *)
Definition stdDevAtMostExact (n sum sumSq limit : Z) : bool :=
  n * sumSq - sum * sum <=? limit * limit * n * n.

(** Rounding half away from zero of [num / den], for [den > 0]. *)
Definition roundDiv (num den : Z) : Z :=
  if 0 <=? num then (2 * num + den) `div` (2 * den) else - ((2 * (- num) + den) `div` (2 * den)).

Definition scaleSideExact (side : Z) (scale : Scale) : Z := roundDiv (side * scale) 100.
Definition unscaleExact (x : Z) (scale : Scale) : Z := roundDiv (x * 100) scale.

(** Bilinear resampling over the rationals (lines 237-278). *)
Definition resizeExact (src : Gray) (srcW srcH dstW dstH : Z) : Gray :=
  let dstW := Z.max 1 dstW in
  let dstH := Z.max 1 dstH in
  let dst := zeros (dstW * dstH) in
  if (srcW <=? 1) || (srcH <=? 1) || (dstW =? 1) || (dstH =? 1) then
    forZ dstH (fun y dst =>
      let sy := if srcH <=? 1 then 0 else (y * (srcH - 1)) ÷ Z.max 1 (dstH - 1) in
      forZ dstW (fun x dst =>
        let sx := if srcW <=? 1 then 0 else (x * (srcW - 1)) ÷ Z.max 1 (dstW - 1) in
        store dst (y * dstW + x) (load src (sy * srcW + sx))) dst) dst
  else
    let dx := Z.max 1 (dstW - 1) in
    let dy := Z.max 1 (dstH - 1) in
    forZ dstH (fun y dst =>
      let ny := y * (srcH - 1) in
      let y0 := clamp (ny `div` dy) 0 (srcH - 1) in
      let y1 := Z.min (srcH - 1) (y0 + 1) in
      let wy := ny - y0 * dy in
      forZ dstW (fun x dst =>
        let nx := x * (srcW - 1) in
        let x0 := clamp (nx `div` dx) 0 (srcW - 1) in
        let x1 := Z.min (srcW - 1) (x0 + 1) in
        let wx := nx - x0 * dx in
        let p00 := sample src (y0 * srcW + x0) in
        let p10 := sample src (y0 * srcW + x1) in
        let p01 := sample src (y1 * srcW + x0) in
        let p11 := sample src (y1 * srcW + x1) in
        let a := p00 * dx + (p10 - p00) * wx in
        let b := p01 * dx + (p11 - p01) * wx in
        let v := roundDiv (a * dy + (b - a) * wy) (dx * dy) in
        store dst (y * dstW + x) (default x00 (Byte.of_N (Z.to_N (clamp v 0 255))))) dst) dst.

Definition formatName (f : BarcodeFormat) : string :=
  match f with
  | FormatNone => "None"
  | QRCode => "QRCode"
  | MicroQRCode => "MicroQRCode"
  | OtherSymbology => "Other"
  end.

(** The environment around a given decode primitive. *)
Definition withPrimitive (read : Image -> ReaderOptions -> Barcode) : External :=
  mkExternal read formatName (fun e => errorTypeToStr (errType e) +s+ " error")
             stdDevAtMostExact resizeExact scaleSideExact unscaleExact.

(** ** Vocabulary of the properties *)

(** The two nested loops of a rotation: the source sample [(x, y)] is stored
    at the destination index [target x y]. *)
Definition scatter (src : Gray) (width height : Z) (target : Z -> Z -> Z) (dst : Gray) : Gray :=
  forZ height (fun y dst =>
    forZ width (fun x dst => store dst (target x y) (load src (y * width + x))) dst) dst.

(** Rows below [y] are written, and row [y] up to column [x]. *)
Definition written (src : Gray) (width height : Z) (target : Z -> Z -> Z) (size : Z)
    (y x : Z) (dst : Gray) : Prop :=
  Z.of_nat (length dst) = size /\
  forall x' y', 0 <= x' < width -> 0 <= y' < height ->
    y' < y \/ (y' = y /\ x' < x) ->
    load dst (target x' y') = load src (y' * width + x').

(** The test the fallback makes on the result of its retry. *)
Definition acceptable (retry : Barcode) : bool :=
  detected retry && (isValid retry || negb (isEmpty (text retry))).

(** A Micro QR code read with a format error, and a valid QR code. *)
Definition microFormatError : Barcode :=
  mkBarcode MicroQRCode false (mkError ErrFormat "format") EmptyString [] false []
    (mkPosition (mkPoint 0 0) (mkPoint 0 0) (mkPoint 0 0) (mkPoint 0 0))
    false false 0 EmptyString EmptyString EmptyString.

Definition validQR (payload : string) : Barcode :=
  mkBarcode QRCode true (mkError ErrNone EmptyString) payload [x61] false []
    (mkPosition (mkPoint 0 0) (mkPoint 1 0) (mkPoint 1 1) (mkPoint 0 1))
    false false 0 "1" "L" "]Q1".

(** A primitive that reads a Micro QR code with a format error unless it is
    asked for full-size QR codes only. *)
Definition confusedPrimitive (image : Image) (opts : ReaderOptions) : Barcode :=
  match formats opts with
  | [QRCode] => validQR "hello"
  | _ => microFormatError
  end.

(** The area of the region of interest once clamped. *)
Definition clampedArea (inp : JniInput) : Z :=
  let roi := requestedRoi inp in (right roi - left roi) * (bottom roi - top roi).

(** The inputs the entry points refuse: a null buffer, a non-positive size, a
    buffer shorter than [width * height], a region of interest that is empty
    once clamped. *)
Definition invalidInput (inp : JniInput) : Prop :=
  gray inp = None
  \/ width inp <= 0 \/ height inp <= 0
  \/ (exists data, gray inp = Some data /\ Z.of_nat (length data) < width inp * height inp)
  \/ clampedArea inp = 0.

(** A 2x2 frame with a region of interest that lies right of the frame. *)
Definition emptyRoiInput : JniInput :=
  mkInput (Some [x00; xff; xff; x00]) true 2 2 0 5 0 9 2 true.

(** Every element comes strictly before its successor. *)
Fixpoint strictlyOrdered (before : Z -> Z -> bool) (l : list Z) : bool :=
  match l with
  | [] => true
  | x :: rest =>
      match rest with
      | y :: _ => before x y && strictlyOrdered before rest
      | [] => true
      end
  end.

(** No element comes strictly after its successor. *)
Fixpoint weaklyOrdered (before : Z -> Z -> bool) (l : list Z) : bool :=
  match l with
  | [] => true
  | x :: rest =>
      match rest with
      | y :: _ => negb (before y x) && weaklyOrdered before rest
      | [] => true
      end
  end.

(** The candidates a plan is built from, before sorting. *)
Definition planCandidates (debug th : bool) (p : Plan) (padCap : Z) : list Z :=
  if debug then padCandidatesDebug th (qzSuspect p) (qzZero p) (basePad p) padCap
  else padCandidates th (qzSuspect p) (qzZero p) (basePad p) padCap.

(** The results of the general-path attempts of a trace, in order, and what
    each attempt kept as the current result. *)
Fixpoint attemptResults (t : list Event) : list Barcode :=
  match t with
  | [] => []
  | EvAttempt b _ :: rest => b :: attemptResults rest
  | _ :: rest => attemptResults rest
  end.

Fixpoint keptResults (t : list Event) : list Barcode :=
  match t with
  | [] => []
  | EvAttempt _ kept :: rest => kept :: keptResults rest
  | _ :: rest => keptResults rest
  end.

(** The number of calls of the primitive in a trace. *)
Definition readCount (t : list Event) : nat := length (filter (fun e => isRead e = true) t).

(** The calls of one attempt are reads of the attempt's image that keep the
    [isPure] option. *)
Definition readsOf (image : Image) (pure : bool) (t : list Event) : Prop :=
  Forall (fun e => exists o, e = EvRead image o /\ isPure o = pure) t.

(** A format was detected and the result is not valid. *)
Definition detectedInvalid (b : Barcode) : bool := detected b && negb (isValid b).

(** The content of the tracker: at most one result. *)
Definition tracker (s : Orch) : option Barcode :=
  if haveInvalid s then Some (bestInvalid s) else None.

(** The tracker after a sequence of attempt results: a result already held
    stays, otherwise the first detected invalid result of the sequence is taken. *)
Definition trackerAfter (held : option Barcode) (results : list Barcode) : option Barcode :=
  match held with
  | Some b => Some b
  | None => List.find detectedInvalid results
  end.

(** A computation started in [s0] leaves the tracker as its attempts dictate. *)
Definition Tracks {A : Type} (get : A -> Orch) (s0 : Orch) (m : Traced A) : Prop :=
  tracker (get (result m)) = trackerAfter (tracker s0) (attemptResults (trace m)).

Definition undetected (b : Barcode) : Prop := detected b = false.

(** No attempt is made and the current result is left as it was. *)
Definition Quiet {A : Type} (get : A -> Orch) (s0 : Orch) (m : Traced A) : Prop :=
  keptResults (trace m) = [] /\ barcode (get (result m)) = barcode s0.

(** Attempts are made; all but the last keep no detected result, and the
    last leaves its kept result as the current one. *)
Definition Chain {A : Type} (get : A -> Orch) (m : Traced A) : Prop :=
  exists init, keptResults (trace m) = init ++ [barcode (get (result m))] /\ Forall undetected init.

(** A step that does nothing on a detected current result. *)
Definition Guarded {A : Type} (get : A -> Orch) (s0 : Orch) (m : Traced A) : Prop :=
  if detected (barcode s0) then Quiet get s0 m else Quiet get s0 m \/ Chain get m.

(** The condition of lines 791-795. *)
Definition promoted (s : Orch) : bool := negb (detected (barcode s)) && haveInvalid s.

(** A full-size QR code found with a format error. *)
Definition formatErrorQR : Barcode :=
  mkBarcode QRCode false (mkError ErrFormat "Invalid format") EmptyString [] false []
    (mkPosition (mkPoint 18 18) (mkPoint 19 18) (mkPoint 19 19) (mkPoint 18 19))
    false false 0 "1" "L" "]Q1".

(** A primitive that finds such a symbol in every image, and reports it when
    asked to return errors. *)
Definition formatErrorPrimitive (image : Image) (opts : ReaderOptions) : Barcode :=
  if returnErrors opts then formatErrorQR else emptyBarcode.

(** A light 2x2 frame that is not classified as synthetic. *)
Definition lightFrame : Gray := [xf0; xfe; xfd; xfc].

Definition lightInput (th : bool) : JniInput := mkInput (Some lightFrame) true 2 2 0 0 0 2 2 th.

(** The results of the fast-path attempts of a trace, in order. *)
Fixpoint fastResults (t : list Event) : list Barcode :=
  match t with
  | [] => []
  | EvFastAttempt b :: rest => b :: fastResults rest
  | _ :: rest => fastResults rest
  end.

(** An event that is no stage of the general pipeline. *)
Definition fastOnly (e : Event) : Prop := isGeneralStage e = false.

(** A white 2x2 frame, classified as synthetic, and a primitive that finds
    nothing. *)
Definition whiteFrame : Gray := [xff; xff; xff; xff].

Definition whiteInput (th : bool) : JniInput := mkInput (Some whiteFrame) true 2 2 0 0 0 2 2 th.

Definition blindPrimitive (image : Image) (opts : ReaderOptions) : Barcode := emptyBarcode.




(** A primitive that reads a valid QR code whose payload holds a pipe. *)
Definition pipePrimitive (image : Image) (opts : ReaderOptions) : Barcode := validQR "a|b".

(** ** Bounding box of a position

    [rectFromPosition(pos, roiOffset)], lines 291-298; the entry points do
    not call it. *)

Definition rectFromPosition (pos : Position) (roiOffset : RectI) : RectI :=
  let minX := min4 (px (topLeft pos)) (px (topRight pos)) (px (bottomLeft pos)) (px (bottomRight pos)) in
  let maxX := max4 (px (topLeft pos)) (px (topRight pos)) (px (bottomLeft pos)) (px (bottomRight pos)) in
  let minY := min4 (py (topLeft pos)) (py (topRight pos)) (py (bottomLeft pos)) (py (bottomRight pos)) in
  let maxY := max4 (py (topLeft pos)) (py (topRight pos)) (py (bottomLeft pos)) (py (bottomRight pos)) in
  mkRect (left roiOffset + minX) (top roiOffset + minY) (left roiOffset + maxX) (top roiOffset + maxY).

(** ** Vocabulary of the further properties *)

(** A rectangle with ordered edges that lies inside a [width] x [height] frame. *)
Definition insideFrame (r : RectI) (width height : Z) : Prop :=
  0 <= left r <= right r /\ right r <= width /\ 0 <= top r <= bottom r /\ bottom r <= height.

(** The corners of a position. *)
Definition corners (pos : Position) : list PointI :=
  [topLeft pos; topRight pos; bottomRight pos; bottomLeft pos].

(** The row-by-row copy that [cropGray] and the border functions make:
    [rows] rows of [n] samples are read from [(srcX, srcY)] in a buffer of
    stride [srcStride] and written at [(dstX, dstY)] in a buffer of stride
    [dstStride]. *)
Definition copyRect (src : Gray) (srcStride srcX srcY n rows dstStride dstX dstY : Z)
    (dst : Gray) : Gray :=
  forZ rows (fun y dst =>
    copyInto dst ((y + dstY) * dstStride + dstX)
             (offset src ((y + srcY) * srcStride + srcX)) n) dst.

(** The state of the copy after the rows below [y]. *)
Definition copied (src : Gray) (srcStride srcX srcY n dstStride dstRows dstX dstY : Z)
    (dst0 : Gray) (y : Z) (dst : Gray) : Prop :=
  length dst = length dst0 /\
  forall X Y, 0 <= X < dstStride -> 0 <= Y < dstRows ->
    load dst (Y * dstStride + X) =
    if (dstX <=? X) && (X <? dstX + n) && (dstY <=? Y) && (Y <? dstY + y)
    then load src ((Y - dstY + srcY) * srcStride + srcX + (X - dstX))
    else load dst0 (Y * dstStride + X).

(** The value of a hexadecimal digit, to read back what [hexPrefix] wrote. *)
Definition unhexAt (c : ascii) : N :=
  match index 0 (String c EmptyString) hexChars with
  | Some i => N.of_nat i
  | None => 16
  end.

Fixpoint unhex (s : string) : option (list byte) :=
  match s with
  | EmptyString => Some []
  | String hi (String lo rest) =>
      match Byte.of_N (16 * unhexAt hi + unhexAt lo), unhex rest with
      | Some b, Some bs => Some (b :: bs)
      | _, _ => None
      end
  | String _ EmptyString => None
  end.

(** The options of the calls of the primitive in a trace, in order. *)
Fixpoint readOptions (t : list Event) : list ReaderOptions :=
  match t with
  | [] => []
  | EvRead _ o :: rest => o :: readOptions rest
  | _ :: rest => readOptions rest
  end.

(** Only QR codes are asked for: both variants, or the full-size one alone. *)
Definition qrOnly (o : ReaderOptions) : Prop :=
  formats o = [QRCode; MicroQRCode] \/ formats o = [QRCode].

(** The options of a call of the primary entry point follow the effort flag. *)
Definition effortOptions (th : bool) (o : ReaderOptions) : Prop :=
  qrOnly o /\ optTryHarder o = th /\ tryInvert o = th
  /\ (tryRotate o = true -> th = true) /\ (tryDownscale o = true -> th = true).

(** The options of a call of the diagnostic entry point. *)
Definition diagnosticOptions (th : bool) (o : ReaderOptions) : Prop :=
  qrOnly o /\ optTryHarder o = th /\ tryDownscale o = th
  /\ tryInvert o = true /\ tryRotate o = false /\ returnErrors o = true.

(** A trace with at most [n] calls of the primitive, all with options in [P]. *)
Definition Calls (P : ReaderOptions -> Prop) (n : nat) (t : list Event) : Prop :=
  (readCount t <= n)%nat /\ Forall P (readOptions t).

(** A set of options the Micro QR fallback stays in. *)
Definition Stable (P : ReaderOptions -> Prop) : Prop :=
  forall o, P o -> P (setFormats [QRCode] o).

(** What the JNI entry points hand to the decoding stages on an accepted
    input: the clamped region, its crop and the rotated crop. *)
Definition croppedFrame (inp : JniInput) (data : Gray) : Image :=
  cropGray data (width inp) (height inp) (requestedRoi inp).

Definition rotatedFrame (inp : JniInput) (data : Gray) : Image :=
  let cropped := croppedFrame inp data in
  rotateGray (pixels cropped) (imgW cropped) (imgH cropped) (rotationDegrees inp).

(** A buffer that holds exactly the samples of its dimensions, none of them
    zero. *)
Definition wellSized (img : Image) : Prop :=
  0 < imgW img /\ 0 < imgH img /\ Z.of_nat (length (pixels img)) = imgW img * imgH img.

(** The parts of the string [formatOutput] builds: the text field, a corner
    of the symbol in the rotated frame and in the full frame, and the box in
    the rotated frame and in the full frame. *)
Definition outputText (E : External) (th : bool) (b : Barcode) : string :=
  if th && (negb (isValid b) || isEmpty (text b)) then buildInvalidDiagnosticText E b true else text b.

Definition cornerInRot (E : External) (rotW rotH : Z) (plan : Plan) (s : Orch) (p : PointI) : Z * Z :=
  (clamp (unscale E (px p) (scaleUsed s) - (padUsed s + padL plan)) 0 (Z.max 0 (rotW - 1)),
   clamp (unscale E (py p) (scaleUsed s) - (padUsed s + padT plan)) 0 (Z.max 0 (rotH - 1))).

Definition cornerInFull (E : External) (roi : RectI) (rot cropW cropH rotW rotH : Z)
    (plan : Plan) (s : Orch) (p : PointI) : Z * Z :=
  let r := cornerInRot E rotW rotH plan s p in
  let c := mapPointFromRotToCrop rot cropW cropH (fst r) (snd r) in
  (left roi + fst c, top roi + snd c).

Definition boxInRot (E : External) (rotW rotH : Z) (plan : Plan) (s : Orch) : RectI :=
  let pos := position (barcode s) in
  let tl := cornerInRot E rotW rotH plan s (topLeft pos) in
  let tr := cornerInRot E rotW rotH plan s (topRight pos) in
  let br := cornerInRot E rotW rotH plan s (bottomRight pos) in
  let bl := cornerInRot E rotW rotH plan s (bottomLeft pos) in
  mkRect (min4 (fst tl) (fst tr) (fst br) (fst bl)) (min4 (snd tl) (snd tr) (snd br) (snd bl))
         (max4 (fst tl) (fst tr) (fst br) (fst bl)) (max4 (snd tl) (snd tr) (snd br) (snd bl)).

Definition boxInFull (E : External) (roi : RectI) (rot cropW cropH rotW rotH : Z)
    (plan : Plan) (s : Orch) : RectI :=
  let c := mapRectFromRotToCrop rot cropW cropH (boxInRot E rotW rotH plan s) in
  mkRect (left roi + left c) (top roi + top c) (left roi + right c) (top roi + bottom c).

(** The dimensions of the rotated frame for a normalised angle. *)
Definition rotatedW (rot cropW cropH : Z) : Z := if (rot =? 90) || (rot =? 270) then cropH else cropW.
Definition rotatedH (rot cropW cropH : Z) : Z := if (rot =? 90) || (rot =? 270) then cropW else cropH.

(** The pads and scales the orchestrator records, as used and as those of
    the best invalid result, satisfy [padOk] and [scaleOk]. *)
Definition recordsFrom (padOk scaleOk : Z -> Prop) (s : Orch) : Prop :=
  padOk (padUsed s) /\ padOk (bestInvalidPad s)
  /\ scaleOk (scaleUsed s) /\ scaleOk (bestInvalidScale s).

Definition knownScale (z : Z) : Prop := In z [50; 66; 75; 100; 125; 150; 200; 250].

(** Whether a string holds a comma, the separator of [formatRect] and
    [formatQuad]. *)
Fixpoint hasComma (s : string) : bool :=
  match s with
  | EmptyString => false
  | String c rest => Ascii.eqb c ","%char || hasComma rest
  end.

(** A point that is a sample position of the region of interest. *)
Definition insideRoi (roi : RectI) (p : Z * Z) : Prop :=
  left roi <= fst p < right roi /\ top roi <= snd p < bottom roi.

(** A returned string [txt|box|quad] whose box has ordered edges between the
    edges of the region and whose four corners are sample positions of it. *)
Definition locates (roi : RectI) (out : string) : Prop :=
  exists txt box x0 y0 x1 y1 x2 y2 x3 y3,
    out = txt +s+ bar +s+ formatRect box +s+ bar +s+ formatQuad x0 y0 x1 y1 x2 y2 x3 y3
    /\ left roi <= left box <= right box /\ right box <= right roi
    /\ top roi <= top box <= bottom box /\ bottom box <= bottom roi
    /\ Forall (insideRoi roi) [(x0, y0); (x1, y1); (x2, y2); (x3, y3)].








(** * Properties *)

(** ** Sample evaluations *)

Example rotate_2x3_90 :
  rotateGray [x01; x02; x03; x04; x05; x06] 2 3 90 = mkImage [x05; x03; x01; x06; x04; x02] 3 2.
Proof. reflexivity. Qed.

Example rotate_2x3_270 :
  rotateGray [x05; x03; x01; x06; x04; x02] 3 2 (-90) = mkImage [x01; x02; x03; x04; x05; x06] 2 3.
Proof. reflexivity. Qed.

Example border_1x1 :
  addWhiteBorder [x07] 1 1 1 = mkImage [xff; xff; xff; xff; x07; xff; xff; xff; xff] 3 3.
Proof. reflexivity. Qed.

Example crop_3x2 :
  cropGray [x01; x02; x03; x04; x05; x06] 3 2 (mkRect 1 0 9 2) = mkImage [x02; x03; x05; x06] 2 2.
Proof. reflexivity. Qed.

Example to_string_samples :
  to_string 0 = "0"%string /\ to_string (-17) = "-17"%string /\ to_string 2024 = "2024"%string.
Proof. repeat split; reflexivity. Qed.

Example trimPipes_sample : trimPipes "a|b||c" = "a/b//c"%string.
Proof. reflexivity. Qed.

Example hexPrefix_sample : hexPrefix [x0a; xff; x30] 2 = "0AFF"%string.
Proof. reflexivity. Qed.

Example sort_unique_sample :
  unique (sortBy less [0; 16; 32; 64; 96; 10; 16]) = [0; 10; 16; 32; 64; 96]
  /\ unique (sortBy greater [0; 48; 96; 192; 48]) = [192; 96; 48; 0].
Proof. split; reflexivity. Qed.

Example resize_samples :
  resizeExact [x00; xff; x00; xff] 2 2 3 3 = [x00; x80; xff; x00; x80; xff; x00; x80; xff]
  /\ resizeExact [x07] 1 1 2 2 = [x07; x07; x07; x07]
  /\ scaleSideExact 25 66 = 17 /\ unscaleExact (-3) 200 = -2.
Proof. repeat split; reflexivity. Qed.

Example steps_sample :
  stepsUp 5 2 = [0; 2; 4] /\ stepsDown 4 2 = [4; 2; 0] /\ stepsDown 3 2 = [3; 1]
  /\ stepsUp 0 2 = [] /\ stepsDown (-1) 2 = [].
Proof. repeat split; reflexivity. Qed.

Example plan_pads_white_1x1 :
  pads (buildPlan true [xff] 1 1 (mkMargins 1 1 1 1)) = [0; 10; 16; 32; 64; 96; 128; 192].
Proof. reflexivity. Qed.

Example plan_pads_zero_margin :
  pads (buildPlan true [x00] 1 1 (mkMargins 0 0 0 0)) = [512; 384; 256; 128; 64; 0]
  /\ pads (buildPlanDebug true [x00] 1 1 (mkMargins 0 0 0 0)) = [0; 48; 96; 192; 288; 384].
Proof. split; reflexivity. Qed.

(** ** Loops, loads and stores *)

Lemma forZ_invariant {St : Type} (Inv : Z -> St -> Prop) (n : Z) (body : Z -> St -> St) (s : St) :
  0 <= n ->
  Inv 0 s ->
  (forall i t, 0 <= i < n -> Inv i t -> Inv (i + 1) (body i t)) ->
  Inv n (forZ n body s).
Proof.
  intros Hn H0 Hstep.
  assert (Hk : forall k : nat, Z.of_nat k <= n -> Inv (Z.of_nat k) (forZ (Z.of_nat k) body s)).
  { induction k as [|k IH]; intros Hle.
    - exact H0.
    - unfold forZ in *. rewrite seqZ_S, fold_left_app. simpl.
      replace (Z.of_nat (S k)) with (Z.of_nat k + 1) by lia.
      apply Hstep; [lia | apply IH; lia]. }
  specialize (Hk (Z.to_nat n)). rewrite Z2Nat.id in Hk by lia. apply Hk. lia.
Qed.

Lemma length_store (buf : Gray) (i : Z) (v : byte) : length (store buf i v) = length buf.
Proof. unfold store. destruct (0 <=? i); [apply length_insert | reflexivity]. Qed.

Lemma load_store_eq (buf : Gray) (i : Z) (v : byte) :
  0 <= i < Z.of_nat (length buf) -> load (store buf i v) i = v.
Proof.
  intros Hi. unfold load, store.
  destruct (Z.leb_spec 0 i); [|lia].
  apply list_lookup_total_insert_eq. lia.
Qed.

Lemma load_store_ne (buf : Gray) (i j : Z) (v : byte) :
  i <> j -> load (store buf i v) j = load buf j.
Proof.
  intros Hne. unfold load, store.
  destruct (Z.leb_spec 0 j); [|reflexivity].
  destruct (Z.leb_spec 0 i); [|reflexivity].
  apply list_lookup_total_insert_ne. lia.
Qed.

Lemma gray_ext (a b : Gray) :
  length a = length b ->
  (forall i, 0 <= i < Z.of_nat (length a) -> load a i = load b i) ->
  a = b.
Proof.
  intros Hlen Hload.
  apply (list_eq_same_length a b (length a)); [congruence | reflexivity |].
  intros i x y Hi Ha Hb.
  specialize (Hload (Z.of_nat i) ltac:(lia)).
  unfold load in Hload. destruct (Z.leb_spec 0 (Z.of_nat i)); [|lia].
  rewrite Nat2Z.id in Hload.
  rewrite (list_lookup_total_correct a i x Ha) in Hload.
  rewrite (list_lookup_total_correct b i y Hb) in Hload.
  exact Hload.
Qed.

Lemma length_zeros (n : Z) : Z.of_nat (length (zeros n)) = Z.max 0 n.
Proof. unfold zeros. rewrite length_replicate. lia. Qed.

(** ** Rotation writes every destination sample exactly once *)

Section Scatter.
Variable src : Gray.
Variables width height : Z.
(** [target x y] is the destination index of the source sample [(x, y)]. *)
Variable target : Z -> Z -> Z.
Variable size : Z.

Hypothesis Hwidth : 0 <= width.
Hypothesis Hheight : 0 <= height.
Hypothesis target_range :
  forall x y, 0 <= x < width -> 0 <= y < height -> 0 <= target x y < size.
Hypothesis target_inj :
  forall x y x' y', 0 <= x < width -> 0 <= y < height ->
    0 <= x' < width -> 0 <= y' < height ->
    target x y = target x' y' -> x = x' /\ y = y'.

Lemma scatter_row (y : Z) (dst : Gray) :
  0 <= y < height -> written src width height target size y 0 dst ->
  written src width height target size (y + 1) 0
    (forZ width (fun x dst => store dst (target x y) (load src (y * width + x))) dst).
Proof.
  intros Hy Hdst.
  assert (Hrow : written src width height target size y width
    (forZ width (fun x dst => store dst (target x y) (load src (y * width + x))) dst)).
  { apply (forZ_invariant (written src width height target size y)); [assumption | assumption |].
    intros x t Hx [Hlen Hw]. split.
    - rewrite length_store. exact Hlen.
    - intros x' y' Hx' Hy' Hcase.
      destruct (Z.eq_dec (target x y) (target x' y')) as [Heq | Hne].
      + destruct (target_inj x y x' y' Hx Hy Hx' Hy' Heq) as [-> ->].
        apply load_store_eq. rewrite Hlen. apply target_range; assumption.
      + rewrite load_store_ne by assumption.
        apply Hw; try assumption.
        destruct Hcase as [Hlt | [-> Hlt]]; [left; assumption |].
        right. split; [reflexivity |].
        assert (x' <> x) by (intros ->; apply Hne; reflexivity). lia. }
  destruct Hrow as [Hlen Hw]. split; [assumption |].
  intros x' y' Hx' Hy' Hcase. apply Hw; try assumption.
  destruct Hcase as [Hlt | [_ Hlt]]; [|lia].
  destruct (Z.eq_dec y' y) as [-> | Hne]; [right; split; [reflexivity | lia] | left; lia].
Qed.

Lemma scatter_spec (dst : Gray) :
  Z.of_nat (length dst) = size ->
  Z.of_nat (length (scatter src width height target dst)) = size /\
  forall x y, 0 <= x < width -> 0 <= y < height ->
    load (scatter src width height target dst) (target x y) = load src (y * width + x).
Proof.
  intros Hlen.
  assert (Hall : written src width height target size height 0 (scatter src width height target dst)).
  { unfold scatter.
    apply (forZ_invariant (fun y => written src width height target size y 0)); [assumption | |].
    - split; [assumption |]. intros x' y' Hx' Hy' [Hlt | [_ Hlt]]; lia.
    - intros y t Hy Ht. apply scatter_row; assumption. }
  destruct Hall as [Hlen' Hw]. split; [assumption |].
  intros x y Hx Hy. apply Hw; try assumption. left. lia.
Qed.
End Scatter.

Lemma rotateGray_90 (src : Gray) (w h : Z) :
  rotateGray src w h 90 =
  mkImage (scatter src w h (fun x y => x * h + (h - 1 - y)) (zeros (h * w))) h w.
Proof. reflexivity. Qed.

Lemma rotateGray_270 (src : Gray) (w h : Z) :
  rotateGray src w h 270 =
  mkImage (scatter src w h (fun x y => (w - 1 - x) * h + y) (zeros (h * w))) h w.
Proof. reflexivity. Qed.

Lemma rotateGray_180 (src : Gray) (w h : Z) :
  rotateGray src w h 180 =
  mkImage (scatter src w h (fun x y => (h - 1 - y) * w + (w - 1 - x)) (zeros (w * h))) w h.
Proof. reflexivity. Qed.

Lemma grid_split (w h i : Z) :
  0 <= i < w * h -> 0 <= h ->
  i = (i `div` w) * w + i `mod` w /\ 0 <= i `mod` w < w /\ 0 <= i `div` w < h.
Proof.
  intros Hi Hh.
  assert (Hw : 0 < w) by nia.
  pose proof (Z.div_mod i w ltac:(lia)) as Hdm.
  pose proof (Z.mod_pos_bound i w Hw) as Hm.
  assert (0 <= i `div` w) by (apply Z.div_pos; lia).
  assert (i `div` w < h) by (apply Z.div_lt_upper_bound; lia).
  lia.
Qed.

Lemma rot90_spec (X : Gray) (w h : Z) :
  0 <= w -> 0 <= h ->
  let A := scatter X w h (fun x y => x * h + (h - 1 - y)) (zeros (h * w)) in
  Z.of_nat (length A) = w * h /\
  forall x y, 0 <= x < w -> 0 <= y < h -> load A (x * h + (h - 1 - y)) = load X (y * w + x).
Proof.
  intros Hw Hh A.
  apply (scatter_spec X w h (fun x y => x * h + (h - 1 - y)) (w * h)); try assumption.
  - intros x y Hx Hy. nia.
  - intros x y x' y' Hx Hy Hx' Hy' Heq.
    assert (x = x') by nia. subst x'. split; [reflexivity | lia].
  - rewrite length_zeros. nia.
Qed.

Lemma rot270_spec (X : Gray) (w h : Z) :
  0 <= w -> 0 <= h ->
  let A := scatter X w h (fun x y => (w - 1 - x) * h + y) (zeros (h * w)) in
  Z.of_nat (length A) = w * h /\
  forall x y, 0 <= x < w -> 0 <= y < h -> load A ((w - 1 - x) * h + y) = load X (y * w + x).
Proof.
  intros Hw Hh A.
  apply (scatter_spec X w h (fun x y => (w - 1 - x) * h + y) (w * h)); try assumption.
  - intros x y Hx Hy. nia.
  - intros x y x' y' Hx Hy Hx' Hy' Heq.
    assert (x = x') by nia. subst x'. split; [reflexivity | lia].
  - rewrite length_zeros. nia.
Qed.

Lemma rot180_spec (X : Gray) (w h : Z) :
  0 <= w -> 0 <= h ->
  let A := scatter X w h (fun x y => (h - 1 - y) * w + (w - 1 - x)) (zeros (w * h)) in
  Z.of_nat (length A) = w * h /\
  forall x y, 0 <= x < w -> 0 <= y < h ->
    load A ((h - 1 - y) * w + (w - 1 - x)) = load X (y * w + x).
Proof.
  intros Hw Hh A.
  apply (scatter_spec X w h (fun x y => (h - 1 - y) * w + (w - 1 - x)) (w * h)); try assumption.
  - intros x y Hx Hy. nia.
  - intros x y x' y' Hx Hy Hx' Hy' Heq.
    assert (y = y') by nia. subst y'. split; [lia | reflexivity].
  - rewrite length_zeros. nia.
Qed.

(** C7. Rotating a buffer by 90 degrees and the result by 270 degrees gives
    back the buffer, with its dimensions and every sample; so does rotating
    it twice by 180 degrees. *)
Theorem rotate_round_trip (X : Gray) (w h : Z) :
  0 <= w -> 0 <= h -> Z.of_nat (length X) = w * h ->
  (let r := rotateGray X w h 90 in
   rotateGray (pixels r) (imgW r) (imgH r) 270 = mkImage X w h) /\
  (let r := rotateGray X w h 180 in
   rotateGray (pixels r) (imgW r) (imgH r) 180 = mkImage X w h).
Proof.
  intros Hw Hh Hlen. split.
  - rewrite rotateGray_90. cbn [pixels imgW imgH]. rewrite rotateGray_270.
    destruct (rot90_spec X w h Hw Hh) as [HlenA HA].
    set (A := scatter X w h _ _) in *.
    destruct (rot270_spec A h w Hh Hw) as [HlenB HB].
    set (B := scatter A h w _ _) in *.
    f_equal. apply gray_ext; [lia |].
    intros i Hi.
    destruct (grid_split w h i ltac:(lia) Hh) as (Hsplit & Hx & Hy).
    set (x := i `mod` w) in *. set (y := i `div` w) in *.
    specialize (HB (h - 1 - y) x ltac:(lia) ltac:(lia)).
    replace ((h - 1 - (h - 1 - y)) * w + x) with i in HB by lia.
    rewrite HB. rewrite HA by lia. f_equal. lia.
  - rewrite rotateGray_180. cbn [pixels imgW imgH]. rewrite rotateGray_180.
    destruct (rot180_spec X w h Hw Hh) as [HlenA HA].
    set (A := scatter X w h _ _) in *.
    destruct (rot180_spec A w h Hw Hh) as [HlenB HB].
    set (B := scatter A w h _ _) in *.
    f_equal. apply gray_ext; [lia |].
    intros i Hi.
    destruct (grid_split w h i ltac:(lia) Hh) as (Hsplit & Hx & Hy).
    set (x := i `mod` w) in *. set (y := i `div` w) in *.
    specialize (HB (w - 1 - x) (h - 1 - y) ltac:(lia) ltac:(lia)).
    replace ((h - 1 - (h - 1 - y)) * w + (w - 1 - (w - 1 - x))) with i in HB by lia.
    rewrite HB.
    rewrite HA by lia. f_equal. lia.
Qed.

Lemma rotate_round_trip_witness :
  (let r := rotateGray [x01; x02; x03; x04; x05; x06] 2 3 90 in
   rotateGray (pixels r) (imgW r) (imgH r) 270 = mkImage [x01; x02; x03; x04; x05; x06] 2 3) /\
  (let r := rotateGray [x01; x02; x03; x04; x05; x06] 2 3 180 in
   rotateGray (pixels r) (imgW r) (imgH r) 180 = mkImage [x01; x02; x03; x04; x05; x06] 2 3).
Proof. apply (rotate_round_trip [x01; x02; x03; x04; x05; x06] 2 3); [lia | lia | reflexivity]. Defined.

(** ** The trace monad *)

Lemma result_bind {A B : Type} (m : Traced A) (k : A -> Traced B) :
  result (bind m k) = result (k (result m)).
Proof. unfold bind, result. destruct (k (fst m)). reflexivity. Qed.

Lemma trace_bind {A B : Type} (m : Traced A) (k : A -> Traced B) :
  trace (bind m k) = trace m ++ trace (k (result m)).
Proof. unfold bind, trace, result. destruct (k (fst m)). reflexivity. Qed.

Lemma result_pair {A : Type} (a : A) (t : list Event) : result (a, t) = a.
Proof. reflexivity. Qed.

Lemma trace_pair {A : Type} (a : A) (t : list Event) : trace (a, t) = t.
Proof. reflexivity. Qed.

Lemma result_ret {A : Type} (a : A) : result (ret a) = a.
Proof. reflexivity. Qed.

Lemma traced_eta {A : Type} (m : Traced A) : m = (result m, trace m).
Proof. destruct m. reflexivity. Qed.


Lemma bind_eta {A B : Type} (m : Traced A) (k : A -> Traced B) :
  bind m k = (result (k (result m)), trace m ++ trace (k (result m))).
Proof. rewrite (traced_eta (bind m k)), result_bind, trace_bind. reflexivity. Qed.

(** ** The Micro QR fallback (C6) *)

(** C6. When the current result is a Micro QR code that is not valid and has
    a format error, the fallback calls the primitive exactly once, on the same
    image and with the formats reduced to the full-size QR code; it returns
    the retry when the retry detected a format and is valid or has text, and
    the current result otherwise.  A decode attempt whose read gives such a
    result is made of that read and of this one retry. *)
Theorem micro_retry_once (E : External) (image : Image) (opts : ReaderOptions) (current : Barcode) :
  format current = MicroQRCode ->
  isValid current = false ->
  errType (error current) = ErrFormat ->
  let retry := ReadBarcode E image (setFormats [QRCode] opts) in
  trace (retryAsQRCodeIfMicroInvalid E image opts current) = [EvRead image (setFormats [QRCode] opts)]
  /\ result (retryAsQRCodeIfMicroInvalid E image opts current) =
     (if acceptable retry then retry else current)
  /\ (current = ReadBarcode E image opts ->
      decodeOnce E image opts =
      (if acceptable retry then retry else current,
       [EvRead image opts; EvRead image (setFormats [QRCode] opts)])).
Proof.
  intros Hfmt Hvalid Herr retry.
  assert (Hretry : retryAsQRCodeIfMicroInvalid E image opts current =
                   (if acceptable retry then retry else current,
                    [EvRead image (setFormats [QRCode] opts)])).
  { unfold retryAsQRCodeIfMicroInvalid. rewrite Hfmt, Hvalid, Herr.
    cbn [BarcodeFormat_eqb ErrorType_eqb negb].
    rewrite bind_eta. unfold readBarcode. rewrite bind_eta.
    cbn [emit ret result trace fst snd app]. fold retry. unfold acceptable.
    destruct (detected retry && (isValid retry || negb (isEmpty (text retry)))); reflexivity. }
  rewrite Hretry. split; [reflexivity |]. split; [reflexivity |].
  intros Hcur. unfold decodeOnce. rewrite bind_eta.
  change (result (readBarcode E image opts)) with (ReadBarcode E image opts).
  rewrite <- Hcur, Hretry. reflexivity.
Qed.

Lemma micro_retry_once_witness :
  let E := withPrimitive confusedPrimitive in
  let image := mkImage [x00] 1 1 in
  let opts := generalOptions true in
  trace (retryAsQRCodeIfMicroInvalid E image opts microFormatError) = [EvRead image (setFormats [QRCode] opts)]
  /\ result (retryAsQRCodeIfMicroInvalid E image opts microFormatError) = validQR "hello"
  /\ decodeOnce E image opts =
     (validQR "hello", [EvRead image opts; EvRead image (setFormats [QRCode] opts)]).
Proof.
  cbn zeta.
  destruct (micro_retry_once (withPrimitive confusedPrimitive) (mkImage [x00] 1 1) (generalOptions true)
              microFormatError eq_refl eq_refl eq_refl) as (Ht & Hr & Hd).
  split; [exact Ht |]. split; [exact Hr |]. exact (Hd eq_refl).
Defined.

(** Outside that case the fallback makes no call and keeps the result. *)
Lemma micro_retry_not_needed (E : External) (image : Image) (opts : ReaderOptions) (current : Barcode) :
  format current <> MicroQRCode \/ isValid current = true \/ errType (error current) <> ErrFormat ->
  retryAsQRCodeIfMicroInvalid E image opts current = (current, []).
Proof.
  intros H. unfold retryAsQRCodeIfMicroInvalid.
  destruct (format current) eqn:Hf; cbn; try reflexivity.
  destruct (isValid current) eqn:Hv; cbn; try reflexivity.
  destruct (errType (error current)) eqn:He; cbn; try reflexivity.
  destruct H as [H | [H | H]]; congruence.
Qed.

(** ** Left and right margins (C8) *)

Lemma forBreak_countWhite_even (isWhite : Z -> bool) (idxs : list Z) (m : Z) :
  Z.even m = true -> Z.even (forBreak idxs (countWhite 2 isWhite) m) = true.
Proof.
  revert m. induction idxs as [|i rest IH]; intros m Hm; cbn; [assumption |].
  unfold countWhite at 1. destruct (isWhite i).
  - apply IH. rewrite Z.even_add, Hm. reflexivity.
  - assumption.
Qed.

Lemma min_even_or_bound (l w : Z) :
  Z.even l = true -> (Z.even (Z.min l w) = true \/ Z.min l w = w) /\ Z.min l w <= w.
Proof.
  intros Hl. split; [|lia].
  destruct (Z.min_spec l w) as [[_ ->] | [_ ->]]; [left; assumption | right; reflexivity].
Qed.

(** C8, as the code has it. Whatever the buffer and the band test, the left
    and the right margin are at most the buffer width, and each is even or
    equal to the width: the columns are counted two by two, and the count is
    then cut down to the width, which may be odd. *)
Theorem margins_left_right (E : External) (src : Gray) (width height : Z) :
  let m := measureWhiteMargins E src width height in
  ((Z.even (m_left m) = true \/ m_left m = width) /\ m_left m <= width) /\
  ((Z.even (m_right m) = true \/ m_right m = width) /\ m_right m <= width).
Proof.
  cbn. split; apply min_even_or_bound; apply forBreak_countWhite_even; reflexivity.
Qed.

(** C8 as stated fails: a single white sample has odd left and right margins. *)
Lemma margins_odd_counterexample :
  let m := measureWhiteMargins (withPrimitive (fun _ _ => emptyBarcode)) [xff] 1 1 in
  m_left m = 1 /\ m_right m = 1 /\ Z.even (m_left m) = false /\ Z.even (m_right m) = false.
Proof. vm_compute. repeat split; reflexivity. Qed.

(** ** Input validation (C9, C10) *)

Lemma checkInput_invalid (inp : JniInput) :
  invalidInput inp -> exists e, checkInput inp = inl e.
Proof.
  intros H. unfold checkInput.
  destruct (gray inp) as [data|] eqn:Hg; [|eauto].
  destruct (Z.leb_spec (width inp) 0); cbn; [eauto|].
  destruct (Z.leb_spec (height inp) 0); cbn; [eauto|].
  destruct (Z.ltb_spec (Z.of_nat (length data)) 0); cbn; [eauto|].
  destruct (Z.ltb_spec (Z.of_nat (length data)) (width inp * height inp)); cbn; [eauto|].
  destruct (elementsAvailable inp); cbn; [|eauto].
  destruct (Z.eqb_spec (right (requestedRoi inp)) (left (requestedRoi inp))); cbn; [eauto|].
  destruct (Z.eqb_spec (bottom (requestedRoi inp)) (top (requestedRoi inp))); cbn; [eauto|].
  exfalso. destruct H as [H | [H | [H | [(d & Hd & Hlt) | H]]]]; try congruence; try lia.
  - assert (d = data) by congruence. subst d. lia.
  - unfold clampedArea in H. nia.
Qed.

(** C9. On an invalid input the primary entry point returns no result, and
    its trace is empty: no crop, no decode attempt. *)
Theorem invalid_input_no_result (E : External) (inp : JniInput) :
  invalidInput inp -> decodeGray E inp = (None, []).
Proof.
  intros H. destruct (checkInput_invalid inp H) as [e He].
  unfold decodeGray. rewrite He. reflexivity.
Qed.

Lemma invalid_input_no_result_witness :
  clampedArea emptyRoiInput = 0 /\
  decodeGray (withPrimitive (fun _ _ => validQR "x")) emptyRoiInput = (None, []).
Proof.
  split; [reflexivity |].
  apply (invalid_input_no_result (withPrimitive (fun _ _ => validQR "x")) emptyRoiInput).
  right. right. right. right. reflexivity.
Defined.

Lemma inputErrorMarker_inj (e1 e2 : InputError) :
  inputErrorMarker e1 = inputErrorMarker e2 -> e1 = e2.
Proof. destruct e1, e2; cbn; intros H; try reflexivity; discriminate H. Qed.

Lemma checkInput_null (inp : JniInput) :
  gray inp = None -> checkInput inp = inl NullGray.
Proof. intros Hg. unfold checkInput. rewrite Hg. reflexivity. Qed.

Lemma checkInput_size (inp : JniInput) (data : Gray) :
  gray inp = Some data -> width inp <= 0 \/ height inp <= 0 -> checkInput inp = inl BadSize.
Proof.
  intros Hg Hsize. unfold checkInput. rewrite Hg.
  destruct (Z.leb_spec (width inp) 0); [reflexivity |].
  destruct (Z.leb_spec (height inp) 0); [reflexivity | lia].
Qed.

Lemma checkInput_len (inp : JniInput) (data : Gray) :
  gray inp = Some data -> 0 < width inp -> 0 < height inp ->
  Z.of_nat (length data) < width inp * height inp -> checkInput inp = inl BadLen.
Proof.
  intros Hg Hw Hh Hlen. unfold checkInput. rewrite Hg.
  destruct (Z.leb_spec (width inp) 0); [lia |].
  destruct (Z.leb_spec (height inp) 0); [lia |]. cbn [orb].
  destruct (Z.ltb_spec (Z.of_nat (length data)) 0); [reflexivity |].
  destruct (Z.ltb_spec (Z.of_nat (length data)) (width inp * height inp)); [reflexivity | lia].
Qed.

Lemma checkInput_sized (inp : JniInput) (data : Gray) :
  gray inp = Some data -> 0 < width inp -> 0 < height inp ->
  width inp * height inp <= Z.of_nat (length data) ->
  checkInput inp =
  if negb (elementsAvailable inp) then inl NoBytes
  else if (right (requestedRoi inp) =? left (requestedRoi inp))
          || (bottom (requestedRoi inp) =? top (requestedRoi inp))
       then inl EmptyRoi else inr data.
Proof.
  intros Hg Hw Hh Hlen. unfold checkInput. rewrite Hg.
  destruct (Z.leb_spec (width inp) 0); [lia |].
  destruct (Z.leb_spec (height inp) 0); [lia |]. cbn [orb].
  destruct (Z.ltb_spec (Z.of_nat (length data)) 0); [lia |].
  destruct (Z.ltb_spec (Z.of_nat (length data)) (width inp * height inp)); [lia |].
  reflexivity.
Qed.

Lemma checkInput_roi (inp : JniInput) (data : Gray) :
  gray inp = Some data -> 0 < width inp -> 0 < height inp ->
  width inp * height inp <= Z.of_nat (length data) ->
  elementsAvailable inp = true -> clampedArea inp = 0 -> checkInput inp = inl EmptyRoi.
Proof.
  intros Hg Hw Hh Hlen Hav Harea.
  rewrite (checkInput_sized inp data Hg Hw Hh Hlen), Hav. cbn [negb].
  unfold clampedArea in Harea.
  destruct (Z.eqb_spec (right (requestedRoi inp)) (left (requestedRoi inp))); [reflexivity |].
  destruct (Z.eqb_spec (bottom (requestedRoi inp)) (top (requestedRoi inp))); [reflexivity | nia].
Qed.

Lemma debug_marker (E : External) (inp : JniInput) (e : InputError) :
  checkInput inp = inl e -> decodeGrayDebug E inp = (Some (inputErrorMarker e), []).
Proof. intros He. unfold decodeGrayDebug. rewrite He. reflexivity. Qed.

(** C10. The diagnostic entry point always returns a string.  On an input
    that fails validation, where the primary entry point returns nothing, the
    string is the marker of the failed check, and the markers differ from one
    another: null-gray for a null buffer, bad-size for a non-positive size,
    bad-len for a short buffer, no-bytes when the samples cannot be obtained,
    empty-roi for an empty clamped region. *)
Theorem debug_always_answers (E : External) (inp : JniInput) :
  (exists line, result (decodeGrayDebug E inp) = Some line)
  /\ (forall e, checkInput inp = inl e ->
        result (decodeGray E inp) = None
        /\ decodeGrayDebug E inp = (Some (inputErrorMarker e), []))
  /\ (forall e1 e2, inputErrorMarker e1 = inputErrorMarker e2 -> e1 = e2)
  /\ (gray inp = None -> result (decodeGrayDebug E inp) = Some "null-gray"%string)
  /\ (forall data, gray inp = Some data ->
        (width inp <= 0 \/ height inp <= 0 -> result (decodeGrayDebug E inp) = Some "bad-size"%string)
        /\ (0 < width inp -> 0 < height inp ->
            Z.of_nat (length data) < width inp * height inp ->
            result (decodeGrayDebug E inp) = Some "bad-len"%string)
        /\ (0 < width inp -> 0 < height inp ->
            width inp * height inp <= Z.of_nat (length data) ->
            (elementsAvailable inp = false -> result (decodeGrayDebug E inp) = Some "no-bytes"%string)
            /\ (elementsAvailable inp = true -> clampedArea inp = 0 ->
                result (decodeGrayDebug E inp) = Some "empty-roi"%string))).
Proof.
  split; [|split; [|split; [|split]]].
  - destruct (checkInput inp) as [e | data] eqn:Hc.
    + rewrite (debug_marker E inp e Hc). eexists. reflexivity.
    + unfold decodeGrayDebug. rewrite Hc.
      do 5 rewrite result_bind. eexists. reflexivity.
  - intros e He. split; [|exact (debug_marker E inp e He)].
    unfold decodeGray. rewrite He. reflexivity.
  - apply inputErrorMarker_inj.
  - intros Hg. rewrite (debug_marker E inp NullGray (checkInput_null inp Hg)). reflexivity.
  - intros data Hg. split; [|split].
    + intros Hsize. rewrite (debug_marker E inp BadSize (checkInput_size inp data Hg Hsize)). reflexivity.
    + intros Hw Hh Hlen.
      rewrite (debug_marker E inp BadLen (checkInput_len inp data Hg Hw Hh Hlen)). reflexivity.
    + intros Hw Hh Hlen. split.
      * intros Hav. rewrite (debug_marker E inp NoBytes); [reflexivity |].
        rewrite (checkInput_sized inp data Hg Hw Hh Hlen), Hav. reflexivity.
      * intros Hav Harea.
        rewrite (debug_marker E inp EmptyRoi (checkInput_roi inp data Hg Hw Hh Hlen Hav Harea)).
        reflexivity.
Qed.

Lemma debug_always_answers_witness :
  result (decodeGray (withPrimitive (fun _ _ => validQR "x")) emptyRoiInput) = None
  /\ decodeGrayDebug (withPrimitive (fun _ _ => validQR "x")) emptyRoiInput = (Some "empty-roi"%string, []).
Proof.
  exact (proj1 (proj2 (debug_always_answers (withPrimitive (fun _ _ => validQR "x")) emptyRoiInput))
           EmptyRoi eq_refl).
Defined.

(** ** Order of the pad candidates (C4) *)

Lemma unique_cons (x y : Z) (l : list Z) :
  unique (x :: y :: l) = if x =? y then unique (y :: l) else x :: unique (y :: l).
Proof. reflexivity. Qed.

Section Ordering.
Variable before : Z -> Z -> bool.
Hypothesis before_asym : forall x y, before x y = true -> before y x = false.
Hypothesis before_total : forall x y, before x y = false -> before y x = false -> x = y.

Lemma weaklyOrdered_cons (x y : Z) (l : list Z) :
  weaklyOrdered before (x :: y :: l) = negb (before y x) && weaklyOrdered before (y :: l).
Proof. reflexivity. Qed.

Lemma strictlyOrdered_cons (x y : Z) (l : list Z) :
  strictlyOrdered before (x :: y :: l) = before x y && strictlyOrdered before (y :: l).
Proof. reflexivity. Qed.

Lemma insertSorted_head (x y : Z) (l : list Z) :
  exists z rest, insertSorted before x (y :: l) = z :: rest /\ (z = x \/ z = y).
Proof. cbn. destruct (before y x); eauto. Qed.

Lemma insertSorted_ordered (x : Z) (l : list Z) :
  weaklyOrdered before l = true -> weaklyOrdered before (insertSorted before x l) = true.
Proof.
  induction l as [|y l IH]; intros Hl; [reflexivity |].
  cbn [insertSorted]. destruct (before y x) eqn:Hyx.
  - destruct l as [|z l].
    + cbn. rewrite (before_asym _ _ Hyx). reflexivity.
    + rewrite weaklyOrdered_cons in Hl. apply andb_true_iff in Hl as [Hzy Hl].
      specialize (IH Hl).
      destruct (insertSorted_head x z l) as (u & rest & Heq & Hu).
      rewrite Heq in *. rewrite weaklyOrdered_cons, IH, andb_true_r.
      destruct Hu as [-> | ->]; [rewrite (before_asym _ _ Hyx); reflexivity | assumption].
  - rewrite weaklyOrdered_cons, Hyx. exact Hl.
Qed.

Lemma sortBy_ordered (l : list Z) : weaklyOrdered before (sortBy before l) = true.
Proof.
  induction l as [|x l IH]; [reflexivity |]. cbn. apply insertSorted_ordered, IH.
Qed.

Lemma unique_head (x : Z) (l : list Z) : exists rest, unique (x :: l) = x :: rest.
Proof.
  revert x. induction l as [|y l IH]; intros x; [eexists; reflexivity |].
  rewrite unique_cons. destruct (Z.eqb_spec x y) as [-> | _]; [apply IH | eexists; reflexivity].
Qed.

Lemma unique_ordered (l : list Z) :
  weaklyOrdered before l = true -> strictlyOrdered before (unique l) = true.
Proof.
  induction l as [|x l IH]; intros Hl; [reflexivity |].
  destruct l as [|y l]; [reflexivity |].
  rewrite weaklyOrdered_cons in Hl. apply andb_true_iff in Hl as [Hyx Hl].
  specialize (IH Hl). rewrite unique_cons.
  destruct (Z.eqb_spec x y) as [-> | Hne]; [exact IH |].
  destruct (unique_head y l) as [rest Heq]. rewrite Heq in *.
  rewrite strictlyOrdered_cons, IH, andb_true_r.
  destruct (before x y) eqn:Hxy; [reflexivity |].
  exfalso. apply Hne, before_total; [assumption |].
  apply negb_true_iff. assumption.
Qed.

Lemma sort_unique_ordered (l : list Z) :
  strictlyOrdered before (unique (sortBy before l)) = true.
Proof. apply unique_ordered, sortBy_ordered. Qed.

Lemma insertSorted_In (x : Z) (l : list Z) (z : Z) :
  In z (insertSorted before x l) <-> z = x \/ In z l.
Proof.
  induction l as [|y l IH]; cbn; [intuition auto |].
  destruct (before y x); cbn; rewrite ?IH; intuition auto.
Qed.

Lemma sortBy_In (l : list Z) (z : Z) : In z (sortBy before l) <-> In z l.
Proof.
  induction l as [|x l IH]; cbn; [reflexivity |].
  rewrite insertSorted_In, IH. intuition auto.
Qed.
End Ordering.

Lemma unique_In (l : list Z) (z : Z) : In z (unique l) <-> In z l.
Proof.
  induction l as [|x l IH]; [reflexivity |].
  destruct l as [|y l]; [reflexivity |].
  rewrite unique_cons. destruct (Z.eqb_spec x y) as [-> | Hne].
  - rewrite IH. cbn. intuition auto.
  - change (In z (x :: unique (y :: l))) with (x = z \/ In z (unique (y :: l))).
    rewrite IH. cbn. intuition auto.
Qed.

Lemma less_ordered (l : list Z) : strictlyOrdered less (unique (sortBy less l)) = true.
Proof.
  apply sort_unique_ordered; unfold less; intros x y; rewrite ?Z.ltb_lt, ?Z.ltb_ge; lia.
Qed.

Lemma greater_ordered (l : list Z) : strictlyOrdered greater (unique (sortBy greater l)) = true.
Proof.
  apply sort_unique_ordered; unfold greater; intros x y; rewrite ?Z.gtb_ltb, ?Z.ltb_lt, ?Z.ltb_ge; lia.
Qed.

(** C4. The pad list of the primary entry point is strictly descending when
    the four measured margins are zero and strictly ascending otherwise; the
    pad list of the diagnostic entry point is strictly ascending in both
    cases.  Strict order is sortedness without duplicates; each list holds
    exactly the candidates it was built from. *)
Theorem pads_sorted_deduplicated (th : bool) (rotated : Gray) (rotW rotH : Z) (m : Margins) :
  let primary := buildPlan th rotated rotW rotH m in
  let diagnostic := buildPlanDebug th rotated rotW rotH m in
  strictlyOrdered (if isZero m then greater else less) (pads primary) = true
  /\ strictlyOrdered less (pads diagnostic) = true
  /\ (exists padCap, forall z, In z (pads primary) <-> In z (planCandidates false th primary padCap))
  /\ (exists padCap, forall z, In z (pads diagnostic) <-> In z (planCandidates true th diagnostic padCap)).
Proof.
  cbn zeta. unfold buildPlan, buildPlanDebug, buildPlanFor, planCandidates. cbn [pads qzSuspect qzZero basePad].
  split; [|split; [|split]].
  - destruct (isZero m); [apply greater_ordered | apply less_ordered].
  - apply less_ordered.
  - eexists. intros z. rewrite unique_In, sortBy_In. reflexivity.
  - eexists. intros z. rewrite unique_In, sortBy_In. reflexivity.
Qed.

(** ** Attempts and their traces *)

Lemma attemptResults_app (t1 t2 : list Event) :
  attemptResults (t1 ++ t2) = attemptResults t1 ++ attemptResults t2.
Proof.
  induction t1 as [|e t1 IH]; [reflexivity |].
  destruct e; cbn; rewrite ?IH; reflexivity.
Qed.

Lemma keptResults_app (t1 t2 : list Event) :
  keptResults (t1 ++ t2) = keptResults t1 ++ keptResults t2.
Proof.
  induction t1 as [|e t1 IH]; [reflexivity |].
  destruct e; cbn; rewrite ?IH; reflexivity.
Qed.

Lemma decodeOnce_reads (E : External) (image : Image) (opts : ReaderOptions) :
  readsOf image (isPure opts) (trace (decodeOnce E image opts)).
Proof.
  unfold decodeOnce, readsOf. rewrite trace_bind. unfold readBarcode at 1. cbn [trace snd emit bind ret fst app].
  constructor; [eauto |].
  change (result (readBarcode E image opts)) with (ReadBarcode E image opts).
  set (b := ReadBarcode E image opts).
  unfold retryAsQRCodeIfMicroInvalid.
  destruct (negb (BarcodeFormat_eqb (format b) MicroQRCode)); [constructor |].
  destruct (isValid b); [constructor |].
  destruct (negb (ErrorType_eqb (errType (error b)) ErrFormat)); [constructor |].
  rewrite trace_bind. unfold readBarcode. cbn [trace snd emit bind ret fst app result].
  constructor; [eexists; split; reflexivity |].
  destruct (detected _ && _); constructor.
Qed.

Lemma reads_no_attempts (image : Image) (pure : bool) (t : list Event) :
  readsOf image pure t -> attemptResults t = [] /\ keptResults t = [].
Proof.
  induction 1 as [|e t (o & -> & _) _ IH]; [split; reflexivity | exact IH].
Qed.

Lemma attempt_eq (E : External) (image : Image) (opts : ReaderOptions)
    (pad : Z) (scale : Scale) (guard : bool) (s : Orch) :
  let b := result (decodeOnce E image opts) in
  let s' := settle b pad scale guard s in
  attempt E image opts pad scale guard s =
  (s', trace (decodeOnce E image opts) ++ [EvAttempt b (barcode s')]).
Proof.
  cbn zeta. unfold attempt. rewrite (traced_eta (bind _ _)).
  rewrite result_bind, trace_bind, result_bind, trace_bind. reflexivity.
Qed.



(** ** The best-invalid tracker (C5) *)

Lemma trackerAfter_app (held : option Barcode) (l1 l2 : list Barcode) :
  trackerAfter (trackerAfter held l1) l2 = trackerAfter held (l1 ++ l2).
Proof.
  destruct held as [b|]; [reflexivity |]. cbn.
  induction l1 as [|x l1 IH]; [reflexivity |].
  cbn. destruct (detectedInvalid x); [reflexivity | exact IH].
Qed.

Lemma tracks_ret {A : Type} (get : A -> Orch) (s0 : Orch) (a : A) :
  tracker (get a) = tracker s0 -> Tracks get s0 (ret a).
Proof. intros H. unfold Tracks. cbn. rewrite H. destruct (tracker s0); reflexivity. Qed.

Lemma tracks_bind {A B : Type} (getA : A -> Orch) (getB : B -> Orch) (s0 : Orch)
    (m : Traced A) (k : A -> Traced B) :
  Tracks getA s0 m -> (forall a, Tracks getB (getA a) (k a)) -> Tracks getB s0 (bind m k).
Proof.
  unfold Tracks. intros Hm Hk.
  rewrite result_bind, trace_bind, attemptResults_app, <- trackerAfter_app, <- Hm.
  apply Hk.
Qed.

Lemma tracker_settle (b : Barcode) (pad : Z) (scale : Scale) (guard : bool) (s : Orch) :
  tracker (settle b pad scale guard s) = trackerAfter (tracker s) [b].
Proof.
  destruct s as [bc bi hi pu bp su bs].
  unfold settle, recordInvalid, tracker, trackerAfter, detectedInvalid, setBarcode.
  cbn [barcode haveInvalid bestInvalid padUsed bestInvalidPad scaleUsed bestInvalidScale List.find].
  destruct hi, (detected b), (isValid b); cbn;
    destruct (hasFormatError b), guard; reflexivity.
Qed.

Lemma attempt_tracks (E : External) (image : Image) (opts : ReaderOptions)
    (pad : Z) (scale : Scale) (guard : bool) (s : Orch) :
  Tracks (fun s => s) s (attempt E image opts pad scale guard s).
Proof.
  unfold Tracks. rewrite attempt_eq. cbn [result trace fst snd].
  rewrite attemptResults_app.
  destruct (reads_no_attempts _ _ _ (decodeOnce_reads E image opts)) as [-> _].
  apply tracker_settle.
Qed.

Lemma escalate_tracks (E : External) (image : Image) (th : bool)
    (configure : ReaderOptions -> ReaderOptions) (pad : Z) (scale : Scale)
    (st : ReaderOptions * Orch) :
  Tracks snd (snd st) (escalate E image th configure pad scale st).
Proof.
  destruct st as [opts s]. unfold escalate.
  destruct (negb (detected (barcode s)) && th).
  - apply (tracks_bind (fun s => s)); [apply attempt_tracks |].
    intros a. apply tracks_ret. reflexivity.
  - apply tracks_ret. reflexivity.
Qed.

Lemma ladder_tracks (E : External) (image : Image) (th : bool) (pad : Z) (scale : Scale) (s : Orch) :
  Tracks (fun s => s) s (ladder E image th pad scale s).
Proof.
  unfold ladder.
  apply (tracks_bind (fun s => s)); [apply attempt_tracks |]. intros s1.
  apply (tracks_bind snd); [apply (escalate_tracks _ _ _ _ _ _ (_, _)) |]. intros st2.
  apply (tracks_bind snd); [apply escalate_tracks |]. intros st3.
  apply (tracks_bind snd); [apply escalate_tracks |]. intros st4.
  apply (tracks_bind snd); [apply escalate_tracks |]. intros st5.
  apply tracks_ret. reflexivity.
Qed.

Lemma scaleLoop_tracks (E : External) (th : bool) (padded : Image) (pad : Z)
    (scales : list Scale) (s : Orch) :
  Tracks snd s (scaleLoop E th padded pad scales s).
Proof.
  revert s. induction scales as [|scale rest IH]; intros s; cbn [scaleLoop].
  - apply tracks_ret. reflexivity.
  - apply (tracks_bind (fun s => s)); [apply ladder_tracks |]. intros s1.
    destruct (detected (barcode s1)); [apply tracks_ret; reflexivity | apply IH].
Qed.

Lemma padLoop_tracks (E : External) (th : bool) (plan : Plan) (padList : list Z) (s : Orch) :
  Tracks (fun s => s) s (padLoop E th plan padList s).
Proof.
  revert s. induction padList as [|pad rest IH]; intros s; cbn [padLoop].
  - apply tracks_ret. reflexivity.
  - apply (tracks_bind snd); [apply scaleLoop_tracks |]. intros r.
    destruct (fst r); [apply tracks_ret; reflexivity | apply IH].
Qed.

(** ** Results kept by the attempts *)

Lemma quiet_guarded {A : Type} (get : A -> Orch) (s0 : Orch) (m : Traced A) :
  Quiet get s0 m -> Guarded get s0 m.
Proof. intros H. unfold Guarded. destruct (detected (barcode s0)); [assumption | left; assumption]. Qed.

Lemma quiet_ret {A : Type} (get : A -> Orch) (s0 : Orch) (a : A) :
  barcode (get a) = barcode s0 -> Quiet get s0 (ret a).
Proof. intros H. split; [reflexivity | exact H]. Qed.

Lemma chain_bind {A B : Type} (getA : A -> Orch) (getB : B -> Orch) (m : Traced A) (k : A -> Traced B) :
  Chain getA m -> Guarded getB (getA (result m)) (k (result m)) -> Chain getB (bind m k).
Proof.
  intros (init & Hk & Hinit) Hcont.
  unfold Chain. rewrite trace_bind, keptResults_app, result_bind, Hk.
  unfold Guarded in Hcont.
  destruct (detected (barcode (getA (result m)))) eqn:Hd.
  - destruct Hcont as [-> ->]. exists init. rewrite app_nil_r. split; [reflexivity | assumption].
  - destruct Hcont as [[-> ->] | (init2 & -> & Hinit2)].
    + exists init. rewrite app_nil_r. split; [reflexivity | assumption].
    + exists (init ++ [barcode (getA (result m))] ++ init2). split.
      * rewrite <- !app_assoc. reflexivity.
      * apply Forall_app. split; [assumption |].
        apply Forall_app. split; [|assumption]. constructor; [exact Hd | constructor].
Qed.

Lemma quiet_bind {A B : Type} (getA : A -> Orch) (getB : B -> Orch) (s0 : Orch)
    (m : Traced A) (k : A -> Traced B) :
  Quiet getA s0 m ->
  (Quiet getB (getA (result m)) (k (result m)) -> Quiet getB s0 (bind m k))
  /\ (Chain getB (k (result m)) -> Chain getB (bind m k)).
Proof.
  intros [Hk Hb]. split.
  - intros [Hk2 Hb2]. split.
    + rewrite trace_bind, keptResults_app, Hk, Hk2. reflexivity.
    + rewrite result_bind, Hb2, Hb. reflexivity.
  - intros (init & Hk2 & Hinit). exists init.
    rewrite trace_bind, keptResults_app, Hk, result_bind. split; assumption.
Qed.

Lemma guarded_bind {A B : Type} (getA : A -> Orch) (getB : B -> Orch) (s0 : Orch)
    (m : Traced A) (k : A -> Traced B) :
  Guarded getA s0 m -> Guarded getB (getA (result m)) (k (result m)) -> Guarded getB s0 (bind m k).
Proof.
  intros Hm Hc. unfold Guarded in *.
  destruct (detected (barcode s0)) eqn:Hd.
  - destruct Hm as [Hk Hb].
    rewrite Hb, Hd in Hc. apply (quiet_bind getA getB s0 m k); [split; assumption | assumption].
  - destruct Hm as [Hq | Hch].
    + pose proof Hq as [Hk Hb].
      rewrite Hb, Hd in Hc. destruct (quiet_bind getA getB s0 m k Hq) as [H1 H2].
      destruct Hc as [Hc | Hc]; [left; apply H1, Hc | right; apply H2, Hc].
    + right. apply (chain_bind getA); [assumption |]. unfold Guarded. exact Hc.
Qed.

Lemma attempt_chain (E : External) (image : Image) (opts : ReaderOptions)
    (pad : Z) (scale : Scale) (guard : bool) (s : Orch) :
  Chain (fun s => s) (attempt E image opts pad scale guard s).
Proof.
  exists []. rewrite attempt_eq. cbn [result trace fst snd].
  rewrite keptResults_app.
  destruct (reads_no_attempts _ _ _ (decodeOnce_reads E image opts)) as [_ ->].
  split; [reflexivity | constructor].
Qed.

Lemma escalate_guarded (E : External) (image : Image) (th : bool)
    (configure : ReaderOptions -> ReaderOptions) (pad : Z) (scale : Scale)
    (st : ReaderOptions * Orch) :
  Guarded snd (snd st) (escalate E image th configure pad scale st).
Proof.
  destruct st as [opts s]. unfold escalate, Guarded. cbn [snd].
  destruct (detected (barcode s)) eqn:Hd; cbn [negb andb].
  - apply quiet_ret. reflexivity.
  - destruct th.
    + right. apply (chain_bind (fun s => s)); [apply attempt_chain |].
      apply quiet_guarded, quiet_ret. reflexivity.
    + left. apply quiet_ret. reflexivity.
Qed.

Lemma ladder_chain (E : External) (image : Image) (th : bool) (pad : Z) (scale : Scale) (s : Orch) :
  Chain (fun s => s) (ladder E image th pad scale s).
Proof.
  unfold ladder.
  apply (chain_bind (fun s => s)); [apply attempt_chain |].
  apply (guarded_bind snd); [apply (escalate_guarded _ _ _ _ _ _ (_, _)) |].
  apply (guarded_bind snd); [apply escalate_guarded |].
  apply (guarded_bind snd); [apply escalate_guarded |].
  apply (guarded_bind snd); [apply escalate_guarded |].
  apply quiet_guarded, quiet_ret. reflexivity.
Qed.

(** The scale loop reports [decoded] exactly when it leaves a detected result. *)
Lemma scaleLoop_decoded (E : External) (th : bool) (padded : Image) (pad : Z)
    (scales : list Scale) (s : Orch) :
  let r := result (scaleLoop E th padded pad scales s) in
  (fst r = true -> detected (barcode (snd r)) = true)
  /\ (fst r = false -> scales <> [] -> detected (barcode (snd r)) = false).
Proof.
  revert s. induction scales as [|scale rest IH]; intros s; cbn [scaleLoop].
  - cbn. split; [discriminate | congruence].
  - cbn zeta. rewrite result_bind.
    set (s1 := result (ladder E (scaledImage E padded scale) th pad scale s)).
    destruct (detected (barcode s1)) eqn:Hd.
    + cbn. split; [intros _; exact Hd | discriminate].
    + destruct (IH s1) as [IH1 IH2]. split; [exact IH1 |].
      intros Hf _. destruct rest as [|scale2 rest]; [exact Hd | apply IH2; [exact Hf | discriminate]].
Qed.

Lemma scaleLoop_chain (E : External) (th : bool) (padded : Image) (pad : Z)
    (scales : list Scale) (s : Orch) :
  Quiet snd s (scaleLoop E th padded pad scales s) \/ Chain snd (scaleLoop E th padded pad scales s).
Proof.
  revert s. induction scales as [|scale rest IH]; intros s; cbn [scaleLoop].
  - left. apply quiet_ret. reflexivity.
  - right. apply (chain_bind (fun s => s)); [apply ladder_chain |].
    set (s1 := result (ladder E (scaledImage E padded scale) th pad scale s)).
    unfold Guarded. destruct (detected (barcode s1)) eqn:Hd.
    + apply quiet_ret. reflexivity.
    + apply IH.
Qed.

Lemma chain_nonempty {A : Type} (get : A -> Orch) (m : Traced A) :
  Chain get m -> trace m <> [].
Proof.
  intros (init & Hk & _) Hnil. rewrite Hnil in Hk. cbn in Hk.
  destruct init; discriminate Hk.
Qed.

Lemma padLoop_chain (E : External) (th : bool) (plan : Plan) (padList : list Z) (s : Orch) :
  Quiet (fun s => s) s (padLoop E th plan padList s) \/ Chain (fun s => s) (padLoop E th plan padList s).
Proof.
  revert s. induction padList as [|pad rest IH]; intros s; cbn [padLoop].
  - left. apply quiet_ret. reflexivity.
  - set (padded := addWhiteBorder _ _ _ pad).
    set (scales := buildScales _ _ _ _ _).
    set (m := scaleLoop E th padded pad scales s).
    set (k := fun r : bool * Orch => if fst r then ret (snd r) else padLoop E th plan rest (snd r)).
    assert (Hk : forall r, Quiet (fun s => s) (snd r) (k r) \/ Chain (fun s => s) (k r)).
    { intros r. unfold k. destruct (fst r); [left; apply quiet_ret; reflexivity | apply IH]. }
    destruct (scaleLoop_chain E th padded pad scales s) as [Hq | Hc].
    + destruct (quiet_bind snd (fun s => s) s m k Hq) as [H1 H2].
      destruct (Hk (result m)) as [Hq2 | Hc2]; [left; apply H1, Hq2 | right; apply H2, Hc2].
    + right. apply (chain_bind snd); [exact Hc |].
      unfold Guarded. destruct (detected (barcode (snd (result m)))) eqn:Hd; [|apply Hk].
      unfold k. destruct (fst (result m)) eqn:Hf; [apply quiet_ret; reflexivity |].
      exfalso. destruct (scaleLoop_decoded E th padded pad scales s) as [_ Hflag].
      fold m in Hflag. rewrite Hflag in Hd; [discriminate | exact Hf |].
      intros Hnil. apply (chain_nonempty snd m Hc). unfold m. rewrite Hnil. reflexivity.
Qed.

Lemma tracker_promote (s : Orch) : tracker (promote s) = tracker s.
Proof. unfold promote, tracker. destruct (_ && _) eqn:H; [|reflexivity]. cbn. reflexivity. Qed.

(** C5. Over the padding, scale and escalation loops, started in any state:
    the tracker holds at most one result; a result it already holds is never
    replaced; an empty tracker takes the first attempt result, in evaluation
    order, that detected a format and is not valid.  The tracked result
    becomes the final one only when the loops end without a detected current
    result, and then no attempt has kept a detected result.  For a whole
    orchestration, which starts with an empty tracker, the tracker is the
    first detected invalid attempt result. *)
Theorem best_invalid_first_wins (E : External) (th : bool) (plan : Plan)
    (padList : list Z) (s0 : Orch) :
  let run := padLoop E th plan padList s0 in
  let final := result run in
  tracker final = trackerAfter (tracker s0) (attemptResults (trace run))
  /\ (promoted final = true ->
        barcode (promote final) = bestInvalid final
        /\ Forall undetected (keptResults (trace run)))
  /\ (promoted final = false -> promote final = final)
  /\ tracker (result (orchestrate E th plan)) =
     List.find detectedInvalid (attemptResults (trace (orchestrate E th plan))).
Proof.
  cbn zeta. split; [|split; [|split]].
  - apply padLoop_tracks.
  - intros Hp. unfold promoted in Hp. apply andb_true_iff in Hp as [Hd Hh].
    apply negb_true_iff in Hd. split.
    + unfold promote. rewrite Hd, Hh. reflexivity.
    + destruct (padLoop_chain E th plan padList s0) as [[-> _] | (init & -> & Hinit)]; [constructor |].
      apply Forall_app. split; [assumption |]. constructor; [exact Hd | constructor].
  - intros Hp. unfold promoted in Hp. unfold promote. rewrite Hp. reflexivity.
  - unfold orchestrate. rewrite result_bind, trace_bind. cbn [ret result trace fst snd].
    rewrite app_nil_r, tracker_promote.
    apply (padLoop_tracks E th plan (pads plan) initialOrch).
Qed.

(** ** Format errors in the escalation ladder (C1) *)





Lemma attempt_result (E : External) (image : Image) (opts : ReaderOptions)
    (pad : Z) (scale : Scale) (guard : bool) (s : Orch) :
  result (attempt E image opts pad scale guard s) =
  settle (result (decodeOnce E image opts)) pad scale guard s.
Proof. rewrite attempt_eq. reflexivity. Qed.








(** ** The synthetic fast path (C3) *)

Lemma fastResults_app (t1 t2 : list Event) :
  fastResults (t1 ++ t2) = fastResults t1 ++ fastResults t2.
Proof.
  induction t1 as [|e t1 IH]; [reflexivity |].
  destruct e; cbn; rewrite ?IH; reflexivity.
Qed.

Lemma tryPure_eq (E : External) (buf : Gray) (bufW bufH : Z) (th : bool) (bin : Binarizer) :
  let once := decodeOnce E (mkImage buf bufW bufH) (pureOptions th bin) in
  tryPure E buf bufW bufH th bin = (result once, trace once ++ [EvFastAttempt (result once)]).
Proof.
  cbn zeta. unfold tryPure. rewrite bind_eta. cbn beta. rewrite bind_eta. reflexivity.
Qed.

Lemma pure_reads_fast (image : Image) (t : list Event) :
  readsOf image true t -> Forall fastOnly t /\ fastResults t = [].
Proof.
  induction 1 as [|e t (o & -> & Ho) _ [IH1 IH2]]; [split; [constructor | reflexivity] |].
  split; [|exact IH2]. constructor; [|exact IH1].
  unfold fastOnly. cbn. rewrite Ho. reflexivity.
Qed.

Lemma tryPure_trace (E : External) (buf : Gray) (bufW bufH : Z) (th : bool) (bin : Binarizer) :
  Forall fastOnly (trace (tryPure E buf bufW bufH th bin))
  /\ fastResults (trace (tryPure E buf bufW bufH th bin)) = [result (tryPure E buf bufW bufH th bin)].
Proof.
  rewrite tryPure_eq. cbn [trace result fst snd].
  destruct (pure_reads_fast _ _ (decodeOnce_reads E (mkImage buf bufW bufH) (pureOptions th bin)))
    as [Hf Hr].
  split.
  - apply Forall_app. split; [exact Hf | constructor; [reflexivity | constructor]].
  - rewrite fastResults_app, Hr. reflexivity.
Qed.

(** A loop with early return whose iterations have a property of their
    traces, and return nothing when their attempts detect nothing. *)
Lemma forUntil_fast {A : Type} (xs : list A) (body : A -> Traced (option string)) :
  (forall x, Forall fastOnly (trace (body x))
             /\ (Forall undetected (fastResults (trace (body x))) -> result (body x) = None)) ->
  Forall fastOnly (trace (forUntil xs body))
  /\ (Forall undetected (fastResults (trace (forUntil xs body))) -> result (forUntil xs body) = None).
Proof.
  intros Hbody. induction xs as [|x xs [IH1 IH2]]; cbn [forUntil].
  - split; [constructor | reflexivity].
  - destruct (Hbody x) as [Hx1 Hx2]. rewrite bind_eta. cbn [trace result fst snd].
    destruct (result (body x)) as [out|] eqn:Hr.
    + cbn [ret trace result fst snd]. rewrite app_nil_r. split; [exact Hx1 |].
      intros Hall. specialize (Hx2 Hall). discriminate Hx2.
    + split; [apply Forall_app; split; assumption |].
      intros Hall. rewrite fastResults_app in Hall. apply Forall_app in Hall as [_ Hall].
      apply IH2, Hall.
Qed.

Lemma syntheticPath_fast (E : External) (th : bool) (rotated : Gray) (rotW rotH : Z) :
  let fast := syntheticPath E th rotated rotW rotH in
  Forall fastOnly (trace fast)
  /\ (Forall undetected (fastResults (trace fast)) -> result fast = None).
Proof.
  cbn zeta. unfold syntheticPath.
  apply forUntil_fast. intros pad. cbn zeta.
  apply forUntil_fast. intros buf.
  set (pw := imgW _). set (ph := imgH _).
  destruct (tryPure_trace E buf pw ph th FixedThreshold) as [Hf1 Hr1].
  destruct (tryPure_trace E buf pw ph th LocalAverage) as [Hf2 Hr2].
  rewrite bind_eta. cbn beta. rewrite bind_eta. cbn [trace result fst snd].
  set (b1 := result (tryPure E buf pw ph th FixedThreshold)) in *.
  destruct (detected b1) eqn:Hd1; cbn [negb].
  - cbn [ret result trace fst snd]. rewrite Hd1. cbn [ret result trace fst snd app].
    rewrite app_nil_r. split; [exact Hf1 |].
    rewrite Hr1. intros Hall. inversion Hall as [|? ? Hu _]. unfold undetected in Hu. congruence.
  - set (b2 := result (tryPure E buf pw ph th LocalAverage)) in *.
    destruct (detected b2) eqn:Hd2; cbn [ret result trace fst snd]; rewrite app_nil_r.
    + split; [apply Forall_app; split; assumption |].
      rewrite fastResults_app, Hr1, Hr2. intros Hall.
      inversion Hall as [|? ? _ Hall2]. inversion Hall2 as [|? ? Hu _].
      unfold undetected in Hu. congruence.
    + split; [apply Forall_app; split; assumption | reflexivity].
Qed.

Lemma in_generalPipeline (E : External) (th : bool) (roi : RectI) (rot cropW cropH : Z)
    (rotated : Image) :
  In EvMeasureMargins (trace (generalPipeline E th roi rot cropW cropH rotated)).
Proof. unfold generalPipeline. rewrite trace_bind. left. reflexivity. Qed.

Lemma decodeGray_checked (E : External) (inp : JniInput) (data : Gray) :
  checkInput inp = inr data ->
  let roi := requestedRoi inp in
  let cropped := cropGray data (width inp) (height inp) roi in
  let rotated := rotateGray (pixels cropped) (imgW cropped) (imgH cropped) (rotationDegrees inp) in
  let rest := decodeRotated E (tryHarder inp) roi (width inp) (height inp)
                (normRot (rotationDegrees inp)) cropped rotated in
  decodeGray E inp = (result rest, [EvCrop; EvRotate] ++ trace rest).
Proof.
  intros Hcheck. cbn zeta. unfold decodeGray. rewrite Hcheck.
  rewrite bind_eta. cbn beta zeta. rewrite bind_eta. reflexivity.
Qed.

Lemma decodeRotated_fast_failure (E : External) (th : bool) (roi : RectI) (w h rot : Z)
    (cropped rotated : Image) :
  takesFastPath roi w h rot rotated = true ->
  let fast := syntheticPath E th (pixels rotated) (imgW rotated) (imgH rotated) in
  Forall undetected (fastResults (trace fast)) ->
  let rest := if th then ret None
              else generalPipeline E th roi rot (imgW cropped) (imgH cropped) rotated in
  decodeRotated E th roi w h rot cropped rotated = (result rest, trace fast ++ trace rest)
  /\ Forall fastOnly (trace fast).
Proof.
  intros Hfast fast Hnone rest.
  destruct (syntheticPath_fast E th (pixels rotated) (imgW rotated) (imgH rotated)) as [Hfo Hres].
  fold fast in Hfo, Hres. specialize (Hres Hnone). split; [|exact Hfo].
  unfold decodeRotated. rewrite Hfast. fold fast. rewrite bind_eta, Hres. reflexivity.
Qed.

(** C3. On an input that passes validation and takes the synthetic fast path,
    when no fast-path attempt detects a format: with the effort flag set the
    call returns no result and its trace holds no stage of the general
    pipeline (no margin measurement, no plan, no general decode attempt, no
    call of the primitive outside the fast path); with the flag clear the
    call goes on with the general pipeline and returns what it returns. *)
Theorem fast_path_failure (E : External) (inp : JniInput) (data : Gray) :
  checkInput inp = inr data ->
  let roi := requestedRoi inp in
  let cropped := cropGray data (width inp) (height inp) roi in
  let rotated := rotateGray (pixels cropped) (imgW cropped) (imgH cropped) (rotationDegrees inp) in
  let rot := normRot (rotationDegrees inp) in
  takesFastPath roi (width inp) (height inp) rot rotated = true ->
  let fast := syntheticPath E (tryHarder inp) (pixels rotated) (imgW rotated) (imgH rotated) in
  Forall undetected (fastResults (trace fast)) ->
  (tryHarder inp = true ->
     result (decodeGray E inp) = None
     /\ Forall fastOnly (trace (decodeGray E inp)))
  /\ (tryHarder inp = false ->
     let general := generalPipeline E false roi rot (imgW cropped) (imgH cropped) rotated in
     decodeGray E inp = (result general, [EvCrop; EvRotate] ++ trace fast ++ trace general)
     /\ In EvMeasureMargins (trace (decodeGray E inp))).
Proof.
  intros Hcheck roi cropped rotated rot Hfast fast Hnone.
  pose proof (decodeGray_checked E inp data Hcheck) as Hdg. cbn zeta in Hdg.
  fold roi cropped rotated rot in Hdg.
  pose proof (decodeRotated_fast_failure E (tryHarder inp) roi (width inp) (height inp) rot
                cropped rotated Hfast Hnone) as [Hdr Hfo].
  cbn zeta in Hdr. fold fast in Hdr, Hfo.
  rewrite Hdr in Hdg. clear Hdr. rewrite result_pair, trace_pair in Hdg.
  clearbody fast. rewrite Hdg. clear Hdg.
  destruct (tryHarder inp); (split; intros Hth; [try discriminate Hth | try discriminate Hth]).
  - rewrite result_pair, trace_pair. split; [reflexivity |].
    constructor; [reflexivity |]. constructor; [reflexivity |].
    apply Forall_app. split; [exact Hfo | constructor].
  - intros general. subst general. split; [reflexivity |].
    rewrite trace_pair. apply in_or_app. right. apply in_or_app. right.
    apply (in_generalPipeline E false roi rot (imgW cropped) (imgH cropped) rotated).
Qed.

Lemma fast_path_failure_witness :
  let E := withPrimitive blindPrimitive in
  result (decodeGray E (whiteInput true)) = None
  /\ Forall fastOnly (trace (decodeGray E (whiteInput true))).
Proof.
  cbn zeta.
  refine (proj1 (fast_path_failure (withPrimitive blindPrimitive) (whiteInput true) whiteFrame _ _ _) _).
  - reflexivity.
  - vm_compute. reflexivity.
  - vm_compute. repeat constructor.
  - reflexivity.
Defined.

(** At low effort the same frame goes through the general pipeline. *)
Example fast_path_falls_through :
  let run := decodeGray (withPrimitive blindPrimitive) (whiteInput false) in
  result run = None
  /\ length (fastResults (trace run)) = 18%nat
  /\ length (attemptResults (trace run)) = 3%nat
  /\ In EvMeasureMargins (trace run).
Proof. vm_compute. repeat split; try reflexivity. right. right. right. tauto. Qed.

(** ** Pipes in the output (C2) *)


Lemma hasPipe_trimPipes (s : string) : hasPipe (trimPipes s) = false.
Proof.
  induction s as [|c s IH]; [reflexivity |].
  cbn. rewrite IH, orb_false_r.
  destruct (Ascii.eqb c pipe) eqn:Hc; [reflexivity | exact Hc].
Qed.







Lemma hexAt_not_pipe (n : N) : Ascii.eqb (hexAt n) pipe = false.
Proof.
  unfold hexAt. generalize (N.to_nat n). intros k.
  do 16 (destruct k as [|k]; [reflexivity |]). reflexivity.
Qed.

Lemma hasPipe_hexOf (bs : list byte) : hasPipe (hexOf bs) = false.
Proof.
  induction bs as [|b bs IH]; [reflexivity |].
  cbn [hexOf hasPipe]. rewrite !hexAt_not_pipe, IH. reflexivity.
Qed.






















Lemma forUntil_some {A R : Type} (xs : list A) (body : A -> Traced (option R)) (v : R) :
  result (forUntil xs body) = Some v -> exists x, result (body x) = Some v.
Proof.
  induction xs as [|x xs IH]; cbn [forUntil]; [discriminate |].
  rewrite result_bind. destruct (result (body x)) as [u|] eqn:Hx.
  - rewrite result_ret. intros H. exists x. congruence.
  - exact IH.
Qed.






(** ** The two entry points on one frame *)

(** On the light frame, with a primitive that reports a format error on every
    call, the diagnostic entry point resets the result of each attempt, tries
    its three binarizers on every pad and ends with the tracked result. *)
Example debug_line_sample :
  result (decodeGrayDebug (withPrimitive formatErrorPrimitive) (lightInput true)) =
  Some "f=QRCode v=0 e=Format error inv=0 mir=0 o=0 bin=fixed bmask=7 pad=0 lastpad=192 qz=2,2,2,2 pside=18,18,18,18 tqz=20 bpad=32 pads=0,10,16,32,64,96,128,192 roi=0,0,2,2 crop=2x2 rot=2x2 base=38x38 th=1"%string.
Proof. vm_compute. reflexivity. Qed.

Example debug_line_valid_sample :
  result (decodeGrayDebug (withPrimitive pipePrimitive) (lightInput false)) =
  Some "f=QRCode v=1 e=None inv=0 mir=0 o=0 bin=local bmask=1 pad=0 lastpad=0 qz=2,2,2,2 pside=12,12,12,12 tqz=14 bpad=32 pads=0,16,32 roi=0,0,2,2 crop=2x2 rot=2x2 base=26x26 th=0"%string.
Proof. vm_compute. reflexivity. Qed.

(** * Further properties of the code *)

(** * Further properties of the code *)

(** ** Rectangles *)

Lemma clamp_range (v lo hi : Z) : lo <= hi -> lo <= clamp v lo hi <= hi.
Proof. intros H. unfold clamp. destruct (Z.ltb_spec v lo), (Z.ltb_spec hi v); lia. Qed.

Lemma clamp_inside (v lo hi : Z) : lo <= v <= hi -> clamp v lo hi = v.
Proof. intros H. unfold clamp. destruct (Z.ltb_spec v lo), (Z.ltb_spec hi v); lia. Qed.

Lemma clampRect_inside (q : RectI) (width height : Z) :
  0 <= width -> 0 <= height -> insideFrame (clampRect q width height) width height.
Proof.
  intros Hw Hh. unfold insideFrame, clampRect.
  pose proof (clamp_range (left q) 0 width Hw). pose proof (clamp_range (right q) 0 width Hw).
  pose proof (clamp_range (top q) 0 height Hh). pose proof (clamp_range (bottom q) 0 height Hh).
  destruct (Z.ltb_spec (clamp (right q) 0 width) (clamp (left q) 0 width));
    destruct (Z.ltb_spec (clamp (bottom q) 0 height) (clamp (top q) 0 height)); cbn; lia.
Qed.

Lemma clampRect_fixed (q : RectI) (width height : Z) :
  insideFrame q width height -> clampRect q width height = q.
Proof.
  intros (Hl & Hr & Ht & Hb). unfold clampRect.
  rewrite !clamp_inside by lia.
  destruct (Z.ltb_spec (right q) (left q)); [lia |].
  destruct (Z.ltb_spec (bottom q) (top q)); [lia |]. destruct q. reflexivity.
Qed.

(** X1. In a frame of non-negative size, [clampRect] returns a rectangle with
    ordered edges inside the frame, whatever rectangle it is given (edges out
    of the frame, edges in the wrong order); it leaves such a rectangle as it
    is, so clamping twice is clamping once. *)
Theorem clampRect_normalizes (r : RectI) (width height : Z) :
  0 <= width -> 0 <= height ->
  insideFrame (clampRect r width height) width height
  /\ (insideFrame r width height -> clampRect r width height = r)
  /\ clampRect (clampRect r width height) width height = clampRect r width height.
Proof.
  intros Hw Hh.
  split; [apply clampRect_inside; assumption |]. split; [apply clampRect_fixed |].
  apply clampRect_fixed, clampRect_inside; assumption.
Qed.

Lemma clampRect_normalizes_witness :
  insideFrame (clampRect (mkRect 7 (-3) 1 99) 4 5) 4 5
  /\ clampRect (mkRect 1 2 3 4) 4 5 = mkRect 1 2 3 4
  /\ clampRect (clampRect (mkRect 7 (-3) 1 99) 4 5) 4 5 = clampRect (mkRect 7 (-3) 1 99) 4 5.
Proof.
  split; [apply (clampRect_normalizes (mkRect 7 (-3) 1 99) 4 5); lia |].
  split; [| apply (clampRect_normalizes (mkRect 7 (-3) 1 99) 4 5); lia].
  apply (clampRect_normalizes (mkRect 1 2 3 4) 4 5); unfold insideFrame; cbn; lia.
Defined.

Lemma min4_le (a b c d : Z) : min4 a b c d <= a /\ min4 a b c d <= b /\ min4 a b c d <= c /\ min4 a b c d <= d.
Proof. unfold min4. lia. Qed.

Lemma max4_ge (a b c d : Z) : a <= max4 a b c d /\ b <= max4 a b c d /\ c <= max4 a b c d /\ d <= max4 a b c d.
Proof. unfold max4. lia. Qed.

(** X2. The box [rectFromPosition] returns has ordered edges and holds the
    four corners of the position, each moved by the top-left corner of the
    offset rectangle. *)
Theorem rectFromPosition_bounds (pos : Position) (roiOffset : RectI) :
  let box := rectFromPosition pos roiOffset in
  left box <= right box /\ top box <= bottom box
  /\ Forall (fun p => left box <= left roiOffset + px p <= right box
                      /\ top box <= top roiOffset + py p <= bottom box) (corners pos).
Proof.
  cbn zeta. unfold rectFromPosition, corners. cbn [left right top bottom].
  pose proof (min4_le (px (topLeft pos)) (px (topRight pos)) (px (bottomLeft pos)) (px (bottomRight pos))).
  pose proof (max4_ge (px (topLeft pos)) (px (topRight pos)) (px (bottomLeft pos)) (px (bottomRight pos))).
  pose proof (min4_le (py (topLeft pos)) (py (topRight pos)) (py (bottomLeft pos)) (py (bottomRight pos))).
  pose proof (max4_ge (py (topLeft pos)) (py (topRight pos)) (py (bottomLeft pos)) (py (bottomRight pos))).
  split; [lia |]. split; [lia |].
  repeat constructor; lia.
Qed.

(** ** Rotation angles *)

Lemma normRot_mod (d : Z) : normRot d = d mod 360.
Proof.
  unfold normRot.
  pose proof (Z.rem_bound_abs d 360 ltac:(lia)) as Hb.
  pose proof (Z.quot_rem' d 360) as Hq.
  rewrite Z.rem_mod_nonneg by lia.
  replace (Z.rem d 360 + 360) with (d + (1 - Z.quot d 360) * 360) by lia.
  apply Z_mod_plus_full.
Qed.

(** X3. The rotation hint is reduced modulo 360 into [0, 360): hints that
    differ by a multiple of 360 rotate alike, negative hints included, and a
    buffer of [width * height] samples rotated by a hint that is not 90, 180
    or 270 modulo 360 comes back unchanged, with its dimensions. *)
Theorem rotateGray_angle (src : Gray) (width height d : Z) :
  normRot d = d mod 360
  /\ (forall k, rotateGray src width height (d + 360 * k) = rotateGray src width height d)
  /\ (Z.of_nat (length src) = width * height ->
      d mod 360 <> 90 -> d mod 360 <> 180 -> d mod 360 <> 270 ->
      rotateGray src width height d = mkImage src width height).
Proof.
  split; [apply normRot_mod |]. split.
  - intros k. unfold rotateGray. rewrite !normRot_mod.
    replace (d + 360 * k) with (d + k * 360) by lia. rewrite Z_mod_plus_full. reflexivity.
  - intros Hlen H90 H180 H270. unfold rotateGray. rewrite normRot_mod.
    assert (Hcopy : copyOf src (width * height) = src).
    { unfold copyOf. apply take_ge. lia. }
    rewrite Hcopy.
    destruct (Z.eqb_spec (d mod 360) 0); [reflexivity |].
    destruct (Z.eqb_spec (d mod 360) 180); [contradiction |].
    destruct (Z.eqb_spec (d mod 360) 90); [contradiction |].
    destruct (Z.eqb_spec (d mod 360) 270); [contradiction |]. reflexivity.
Qed.

Lemma rotateGray_angle_witness :
  rotateGray [x01; x02; x03; x04; x05; x06] 2 3 45 = mkImage [x01; x02; x03; x04; x05; x06] 2 3.
Proof.
  apply (proj2 (proj2 (rotateGray_angle [x01; x02; x03; x04; x05; x06] 2 3 45)));
    [reflexivity | discriminate ..].
Defined.

(** ** Rotation and the mapping of points back *)

Lemma rotateGray_cases (src : Gray) (w h d : Z) :
  rotateGray src w h d =
  if normRot d =? 0 then mkImage (copyOf src (w * h)) w h
  else if normRot d =? 180
  then mkImage (scatter src w h (fun x y => (h - 1 - y) * w + (w - 1 - x)) (zeros (w * h))) w h
  else if normRot d =? 90
  then mkImage (scatter src w h (fun x y => x * h + (h - 1 - y)) (zeros (h * w))) h w
  else if normRot d =? 270
  then mkImage (scatter src w h (fun x y => (w - 1 - x) * h + y) (zeros (h * w))) h w
  else mkImage (copyOf src (w * h)) w h.
Proof.
  unfold rotateGray.
  destruct (normRot d =? 0); [reflexivity |].
  destruct (normRot d =? 180); [reflexivity |].
  destruct (normRot d =? 90); [reflexivity |].
  destruct (normRot d =? 270); reflexivity.
Qed.

(** X4. Rotation and [mapPointFromRotToCrop] agree, for every hint: a point
    of the rotated buffer is mapped to a point of the original buffer, and the
    rotated sample at the one is the original sample at the other. *)
Theorem rotation_maps_back (X : Gray) (w h d xr yr : Z) :
  0 <= w -> 0 <= h -> Z.of_nat (length X) = w * h ->
  let R := rotateGray X w h d in
  0 <= xr < imgW R -> 0 <= yr < imgH R ->
  let c := mapPointFromRotToCrop (normRot d) w h xr yr in
  0 <= fst c < w /\ 0 <= snd c < h
  /\ load (pixels R) (yr * imgW R + xr) = load X (snd c * w + fst c).
Proof.
  intros Hw Hh Hlen. cbn zeta. rewrite rotateGray_cases. unfold mapPointFromRotToCrop.
  assert (Hcopy : copyOf X (w * h) = X) by (unfold copyOf; apply take_ge; lia).
  destruct (Z.eqb_spec (normRot d) 0) as [H0 | H0];
    destruct (Z.eqb_spec (normRot d) 180) as [H180 | H180];
    destruct (Z.eqb_spec (normRot d) 90) as [H90 | H90];
    destruct (Z.eqb_spec (normRot d) 270) as [H270 | H270];
    try (exfalso; lia); cbn [pixels imgW imgH fst snd]; intros Hx Hy.
  - rewrite Hcopy. repeat split; lia.
  - destruct (rot180_spec X w h Hw Hh) as [_ HA].
    specialize (HA (w - 1 - xr) (h - 1 - yr) ltac:(lia) ltac:(lia)).
    replace ((h - 1 - (h - 1 - yr)) * w + (w - 1 - (w - 1 - xr))) with (yr * w + xr) in HA by lia.
    repeat split; try lia. exact HA.
  - destruct (rot90_spec X w h Hw Hh) as [_ HA].
    specialize (HA yr (h - 1 - xr) ltac:(lia) ltac:(lia)).
    replace (yr * h + (h - 1 - (h - 1 - xr))) with (yr * h + xr) in HA by lia.
    repeat split; try lia. exact HA.
  - destruct (rot270_spec X w h Hw Hh) as [_ HA].
    specialize (HA (w - 1 - yr) xr ltac:(lia) ltac:(lia)).
    replace ((w - 1 - (w - 1 - yr)) * h + xr) with (yr * h + xr) in HA by lia.
    repeat split; try lia. exact HA.
  - rewrite Hcopy. repeat split; lia.
Qed.

Lemma rotation_maps_back_witness :
  let X := [x01; x02; x03; x04; x05; x06] in
  let R := rotateGray X 2 3 90 in
  let c := mapPointFromRotToCrop (normRot 90) 2 3 2 1 in
  0 <= fst c < 2 /\ 0 <= snd c < 3
  /\ load (pixels R) (1 * imgW R + 2) = load X (snd c * 2 + fst c).
Proof.
  apply (rotation_maps_back [x01; x02; x03; x04; x05; x06] 2 3 90 2 1);
    try lia; try reflexivity; rewrite rotateGray_90; cbn [imgW imgH]; lia.
Defined.

Lemma rotated_dims (X : Gray) (w h d : Z) :
  let R := rotateGray X w h d in
  imgW R = rotatedW (normRot d) w h /\ imgH R = rotatedH (normRot d) w h.
Proof.
  cbn zeta. rewrite rotateGray_cases. unfold rotatedW, rotatedH.
  destruct (Z.eqb_spec (normRot d) 0) as [E0 | H0];
    destruct (Z.eqb_spec (normRot d) 180) as [E180 | H180];
    destruct (Z.eqb_spec (normRot d) 90) as [E90 | H90];
    destruct (Z.eqb_spec (normRot d) 270) as [E270 | H270];
    try (exfalso; lia); split; reflexivity.
Qed.

(** X5. Quarter turns compose: on a buffer of [w * h] samples, two
    rotations by 90 degrees are a rotation by 180 degrees, and a rotation by
    270 degrees followed by one by 90 degrees gives the buffer back. *)
Theorem rotate_quarter_turns (X : Gray) (w h : Z) :
  0 <= w -> 0 <= h -> Z.of_nat (length X) = w * h ->
  (let r := rotateGray X w h 90 in
   rotateGray (pixels r) (imgW r) (imgH r) 90 = rotateGray X w h 180)
  /\ (let r := rotateGray X w h 270 in
      rotateGray (pixels r) (imgW r) (imgH r) 90 = mkImage X w h).
Proof.
  intros Hw Hh Hlen. split.
  - rewrite (rotateGray_90 X), rotateGray_180. cbn [pixels imgW imgH]. rewrite rotateGray_90.
    destruct (rot90_spec X w h Hw Hh) as [HlenA HA].
    set (A := scatter X w h _ (zeros (h * w))) in *.
    destruct (rot90_spec A h w Hh Hw) as [HlenB HB].
    set (B := scatter A h w _ _) in *.
    destruct (rot180_spec X w h Hw Hh) as [HlenC HC].
    set (C := scatter X w h _ (zeros (w * h))) in *.
    f_equal. apply gray_ext; [lia |].
    intros i Hi.
    destruct (grid_split w h i ltac:(lia) Hh) as (Hsplit & Hx & Hy).
    set (x := w - 1 - i `mod` w) in *. set (y := h - 1 - i `div` w) in *.
    specialize (HC x y ltac:(lia) ltac:(lia)).
    replace ((h - 1 - y) * w + (w - 1 - x)) with i in HC by lia.
    specialize (HB (h - 1 - y) x ltac:(lia) ltac:(lia)).
    replace ((h - 1 - y) * w + (w - 1 - x)) with i in HB by lia.
    rewrite HB, HC. apply HA; lia.
  - rewrite rotateGray_270. cbn [pixels imgW imgH]. rewrite rotateGray_90.
    destruct (rot270_spec X w h Hw Hh) as [HlenA HA].
    set (A := scatter X w h _ (zeros (h * w))) in *.
    destruct (rot90_spec A h w Hh Hw) as [HlenB HB].
    set (B := scatter A h w _ _) in *.
    f_equal. apply gray_ext; [lia |].
    intros i Hi.
    destruct (grid_split w h i ltac:(lia) Hh) as (Hsplit & Hx & Hy).
    set (x := i `mod` w) in *. set (y := i `div` w) in *.
    specialize (HB y (w - 1 - x) ltac:(lia) ltac:(lia)).
    replace (y * w + (w - 1 - (w - 1 - x))) with i in HB by lia.
    rewrite HB. rewrite HA by lia. f_equal. lia.
Qed.

Lemma rotate_quarter_turns_witness :
  let X := [x01; x02; x03; x04; x05; x06] in
  (let r := rotateGray X 2 3 90 in
   rotateGray (pixels r) (imgW r) (imgH r) 90 = rotateGray X 2 3 180)
  /\ (let r := rotateGray X 2 3 270 in
      rotateGray (pixels r) (imgW r) (imgH r) 90 = mkImage X 2 3).
Proof. apply (rotate_quarter_turns [x01; x02; x03; x04; x05; x06] 2 3); [lia | lia | reflexivity]. Defined.

(** ** Copies of rectangles: crop and borders *)

Lemma forZ_ext {St : Type} (n : Z) (f g : Z -> St -> St) (s : St) :
  (forall i t, 0 <= i < n -> f i t = g i t) -> forZ n f s = forZ n g s.
Proof.
  intros Hfg. unfold forZ.
  assert (Hin : forall i, i ∈ seqZ 0 n -> 0 <= i < n) by (intros i Hi; apply elem_of_seqZ in Hi; lia).
  revert s Hin. generalize (seqZ 0 n). intros l.
  induction l as [|i l IH]; intros s Hin; [reflexivity |].
  cbn. rewrite Hfg by (apply Hin; left). apply IH.
  intros j Hj. apply Hin. right. exact Hj.
Qed.

Lemma load_offset (src : Gray) (o k : Z) :
  0 <= o -> 0 <= k -> load (offset src o) k = load src (o + k).
Proof.
  intros Ho Hk. unfold load, offset.
  destruct (Z.leb_spec 0 k); [|lia]. destruct (Z.leb_spec 0 (o + k)); [|lia].
  rewrite lookup_total_drop. f_equal. lia.
Qed.

Lemma length_copyInto (dst : Gray) (at_ : Z) (from : Gray) (n : Z) :
  length (copyInto dst at_ from n) = length dst.
Proof. apply length_inserts. Qed.

Lemma load_copyInto_in (dst : Gray) (at_ : Z) (from : Gray) (n j : Z) :
  0 <= at_ -> at_ <= j < at_ + n -> n <= Z.of_nat (length from) -> j < Z.of_nat (length dst) ->
  load (copyInto dst at_ from n) j = load from (j - at_).
Proof.
  intros Hat Hj Hn Hlen. unfold load, copyInto.
  destruct (Z.leb_spec 0 j); [|lia]. destruct (Z.leb_spec 0 (j - at_)); [|lia].
  rewrite list_lookup_total_inserts by (rewrite ?length_take; lia).
  rewrite lookup_total_take_lt by lia. f_equal. lia.
Qed.

Lemma load_copyInto_out (dst : Gray) (at_ : Z) (from : Gray) (n j : Z) :
  0 <= at_ -> j < at_ \/ at_ + Z.max 0 n <= j ->
  load (copyInto dst at_ from n) j = load dst j.
Proof.
  intros Hat Hj. unfold load, copyInto.
  destruct (Z.leb_spec 0 j); [|reflexivity].
  destruct Hj as [Hj | Hj].
  - apply list_lookup_total_inserts_lt. lia.
  - apply list_lookup_total_inserts_ge. rewrite length_take. lia.
Qed.

(** The copy of a rectangle that fits in both buffers writes the samples of
    the source rectangle into the target rectangle and nothing else. *)
Lemma copyRect_spec (src : Gray) (srcStride srcX srcY n rows dstStride dstRows dstX dstY : Z)
    (dst0 : Gray) :
  0 <= n -> 0 <= rows ->
  0 <= srcStride -> 0 <= srcX -> 0 <= srcY ->
  (0 < rows -> (rows - 1 + srcY) * srcStride + srcX + n <= Z.of_nat (length src)) ->
  0 <= dstX -> dstX + n <= dstStride -> 0 <= dstY -> dstY + rows <= dstRows ->
  Z.of_nat (length dst0) = dstStride * dstRows ->
  copied src srcStride srcX srcY n dstStride dstRows dstX dstY dst0 rows
         (copyRect src srcStride srcX srcY n rows dstStride dstX dstY dst0).
Proof.
  intros Hn Hrows Hss Hsx Hsy Hsrc Hdx Hdxn Hdy Hdyr Hlen.
  unfold copyRect.
  apply (forZ_invariant (copied src srcStride srcX srcY n dstStride dstRows dstX dstY dst0));
    [assumption | |].
  - split; [reflexivity |]. intros X Y HX HY.
    destruct ((dstX <=? X) && (X <? dstX + n)); [|reflexivity]. cbn [andb].
    destruct (Z.leb_spec dstY Y); [|reflexivity]. cbn [andb].
    destruct (Z.ltb_spec Y (dstY + 0)); [lia | reflexivity].
  - intros y t Hy [Hlt Ht]. split; [rewrite length_copyInto; exact Hlt |].
    intros X Y HX HY. specialize (Ht X Y HX HY).
    assert (Hat : 0 <= (y + dstY) * dstStride + dstX) by nia.
    destruct (Z.eq_dec Y (y + dstY)) as [-> | HneY].
    + destruct (Z.leb_spec dstX X) as [HXl | HXl]; cbn [andb].
      * destruct (Z.ltb_spec X (dstX + n)) as [HXr | HXr]; cbn [andb].
        -- replace (dstY <=? y + dstY) with true by (symmetry; apply Z.leb_le; lia).
           replace (y + dstY <? dstY + (y + 1)) with true by (symmetry; apply Z.ltb_lt; lia).
           cbn [andb].
           rewrite load_copyInto_in; try lia.
           ++ rewrite load_offset by nia. f_equal. lia.
           ++ unfold offset. rewrite length_drop.
              assert ((y + srcY) * srcStride + srcX + n <= Z.of_nat (length src)) by nia. nia.
           ++ rewrite Hlt, Hlen. nia.
        -- rewrite load_copyInto_out by (try assumption; right; lia).
           rewrite Ht. destruct (Z.ltb_spec X (dstX + n)); [lia |]. reflexivity.
      * rewrite load_copyInto_out by (try assumption; left; lia).
        rewrite Ht. destruct (Z.leb_spec dstX X); [lia |]. reflexivity.
    + rewrite load_copyInto_out.
      * rewrite Ht.
        destruct ((dstX <=? X) && (X <? dstX + n)); [|reflexivity]. cbn [andb].
        destruct (Z.leb_spec dstY Y); [|reflexivity]. cbn [andb].
        destruct (Z.ltb_spec Y (dstY + y)), (Z.ltb_spec Y (dstY + (y + 1))); try lia; reflexivity.
      * assumption.
      * destruct (Z.lt_ge_cases Y (y + dstY)); [left; nia | right; nia].
Qed.

Lemma load_filled (n : Z) (v : byte) (j : Z) : 0 <= j < n -> load (filled n v) j = v.
Proof.
  intros Hj. unfold load, filled. destruct (Z.leb_spec 0 j); [|lia].
  apply lookup_total_replicate_2. lia.
Qed.

Lemma length_filled (n : Z) (v : byte) : Z.of_nat (length (filled n v)) = Z.max 0 n.
Proof. unfold filled. rewrite length_replicate. lia. Qed.

Lemma border_copyRect (src : Gray) (w h stride ox oy : Z) (dst : Gray) :
  forZ h (fun y dst => copyInto dst ((y + oy) * stride + ox) (offset src (y * w)) w) dst =
  copyRect src w 0 0 w h stride ox oy dst.
Proof.
  unfold copyRect. apply forZ_ext. intros y t Hy.
  replace ((y + 0) * w + 0) with (y * w) by lia. reflexivity.
Qed.

Lemma crop_copyRect (src : Gray) (width l t n rows : Z) (dst : Gray) :
  forZ rows (fun y dst => copyInto dst (y * n) (offset src ((t + y) * width + l)) n) dst =
  copyRect src width l t n rows n 0 0 dst.
Proof.
  unfold copyRect. apply forZ_ext. intros y d Hy.
  replace ((y + 0) * n + 0) with (y * n) by lia.
  replace ((y + t) * width + l) with ((t + y) * width + l) by lia. reflexivity.
Qed.

Lemma cropGray_grid (src : Gray) (width height : Z) (q : RectI) :
  0 <= width -> 0 <= height -> width * height <= Z.of_nat (length src) ->
  let cq := clampRect q width height in
  let Rq := cropGray src width height q in
  imgW Rq = right cq - left cq /\ imgH Rq = bottom cq - top cq
  /\ Z.of_nat (length (pixels Rq)) = imgW Rq * imgH Rq
  /\ (forall x y, 0 <= x < imgW Rq -> 0 <= y < imgH Rq ->
        load (pixels Rq) (y * imgW Rq + x) = load src ((top cq + y) * width + (left cq + x))).
Proof.
  intros Hw Hh Hlen cq Rq.
  destruct (clampRect_inside q width height Hw Hh) as (Hql & Hqr & Hqt & Hqb).
  fold cq in Hql, Hqr, Hqt, Hqb.
  set (n := right cq - left cq). set (rows := bottom cq - top cq).
  assert (HRq : Rq = mkImage (copyRect src width (left cq) (top cq) n rows n 0 0 (zeros (n * rows)))
                             n rows).
  { unfold Rq, cropGray. cbn zeta. fold cq.
    replace (Z.max 0 (right cq - left cq)) with n by (unfold n; lia).
    replace (Z.max 0 (bottom cq - top cq)) with rows by (unfold rows; lia).
    rewrite crop_copyRect. reflexivity. }
  rewrite HRq. cbn [imgW imgH pixels].
  assert (Hz : Z.of_nat (length (zeros (n * rows))) = n * rows).
  { rewrite length_zeros. unfold n, rows. nia. }
  destruct (copyRect_spec src width (left cq) (top cq) n rows n rows 0 0 (zeros (n * rows)))
    as [Hlc Hc]; try exact Hz; try (unfold n, rows; lia);
    try (intros Hpos; unfold n, rows in *; nia).
  split; [reflexivity |]. split; [reflexivity |]. split; [rewrite Hlc; exact Hz |].
  intros x y Hx Hy. rewrite (Hc x y Hx Hy).
  destruct (Z.leb_spec 0 x); [|lia]. destruct (Z.ltb_spec x (0 + n)); [|lia].
  destruct (Z.leb_spec 0 y); [|lia]. destruct (Z.ltb_spec y (0 + rows)); [|lia].
  cbn [andb]. f_equal. lia.
Qed.

Lemma border_grid (src : Gray) (width height padLeft padTop padRight padBottom : Z) :
  0 <= width -> 0 <= height -> width * height <= Z.of_nat (length src) ->
  let l := Z.max 0 padLeft in
  let t := Z.max 0 padTop in
  let R := addWhiteBorderPerSide src width height padLeft padTop padRight padBottom in
  imgW R = width + l + Z.max 0 padRight
  /\ imgH R = height + t + Z.max 0 padBottom
  /\ Z.of_nat (length (pixels R)) = imgW R * imgH R
  /\ forall X Y, 0 <= X < imgW R -> 0 <= Y < imgH R ->
       load (pixels R) (Y * imgW R + X) =
       if (l <=? X) && (X <? l + width) && (t <=? Y) && (Y <? t + height)
       then load src ((Y - t) * width + (X - l))
       else white.
Proof.
  intros Hw Hh Hlen l t R.
  set (outW := width + l + Z.max 0 padRight).
  set (outH := height + t + Z.max 0 padBottom).
  assert (HR : R = mkImage (copyRect src width 0 0 width height outW l t (filled (outW * outH) white))
                           outW outH).
  { unfold R, addWhiteBorderPerSide. cbn zeta. fold l t outW outH.
    rewrite border_copyRect. reflexivity. }
  rewrite HR. cbn [imgW imgH pixels].
  assert (Hfl : Z.of_nat (length (filled (outW * outH) white)) = outW * outH).
  { rewrite length_filled. unfold outW, outH. nia. }
  destruct (copyRect_spec src width 0 0 width height outW outH l t (filled (outW * outH) white))
    as [Hl Hc]; try lia; try (unfold outW, outH; lia); try (intros _; nia).
  split; [reflexivity |]. split; [reflexivity |]. split; [rewrite Hl; exact Hfl |].
  intros X Y HX HY. rewrite (Hc X Y HX HY).
  destruct ((l <=? X) && (X <? l + width) && (t <=? Y) && (Y <? t + height)).
  - f_equal. lia.
  - apply load_filled. nia.
Qed.

(** X6. [addWhiteBorderPerSide] on a buffer of [width * height] samples:
    negative pads count as 0; the result has the size of the source plus the
    pads, the source samples sit at offset (left pad, top pad), every other
    sample is white (255), and cropping the result at that offset gives the
    source back. *)
Theorem addWhiteBorderPerSide_spec (src : Gray) (width height padLeft padTop padRight padBottom : Z) :
  0 <= width -> 0 <= height -> Z.of_nat (length src) = width * height ->
  let l := Z.max 0 padLeft in
  let t := Z.max 0 padTop in
  let R := addWhiteBorderPerSide src width height padLeft padTop padRight padBottom in
  imgW R = width + l + Z.max 0 padRight
  /\ imgH R = height + t + Z.max 0 padBottom
  /\ Z.of_nat (length (pixels R)) = imgW R * imgH R
  /\ (forall X Y, 0 <= X < imgW R -> 0 <= Y < imgH R ->
        load (pixels R) (Y * imgW R + X) =
        if (l <=? X) && (X <? l + width) && (t <=? Y) && (Y <? t + height)
        then load src ((Y - t) * width + (X - l))
        else white)
  /\ cropGray (pixels R) (imgW R) (imgH R) (mkRect l t (l + width) (t + height)) = mkImage src width height.
Proof.
  intros Hw Hh Hlen l t R.
  destruct (border_grid src width height padLeft padTop padRight padBottom Hw Hh ltac:(lia))
    as (HW & HH & HL & HP).
  fold l t R in HW, HH, HL, HP.
  split; [exact HW |]. split; [exact HH |]. split; [exact HL |]. split; [exact HP |].
  set (q := mkRect l t (l + width) (t + height)).
  assert (Hq : clampRect q (imgW R) (imgH R) = q).
  { apply clampRect_fixed. unfold insideFrame, q. cbn [left top right bottom]. lia. }
  destruct (cropGray_grid (pixels R) (imgW R) (imgH R) q ltac:(lia) ltac:(lia) ltac:(lia))
    as (CW & CH & CL & CP).
  rewrite Hq in CW, CH, CP. unfold q in CW, CH, CP. cbn [left top right bottom] in CW, CH, CP.
  fold q in CW, CH, CP.
  destruct (cropGray (pixels R) (imgW R) (imgH R) q) as [cp cw ch]. cbn [pixels imgW imgH] in *.
  assert (Hcw : cw = width) by lia. assert (Hch : ch = height) by lia.
  clear CW CH. subst cw ch. f_equal.
  apply gray_ext; [lia |]. intros i Hi.
  destruct (grid_split width height i ltac:(lia) Hh) as (Hs & Hx & Hy).
  specialize (CP (i `mod` width) (i `div` width) Hx Hy).
  replace (i `div` width * width + i `mod` width) with i in CP by lia.
  rewrite CP, HP by lia.
  destruct (Z.leb_spec l (l + i `mod` width)); [| lia].
  destruct (Z.ltb_spec (l + i `mod` width) (l + width)); [| lia].
  destruct (Z.leb_spec t (t + i `div` width)); [| lia].
  destruct (Z.ltb_spec (t + i `div` width) (t + height)); [| lia].
  cbn [andb]. f_equal. lia.
Qed.

Lemma addWhiteBorderPerSide_spec_witness :
  let R := addWhiteBorderPerSide [x07; x09] 2 1 1 (-4) 0 1 in
  imgW R = 2 + 1 + 0 /\ imgH R = 1 + 0 + 1
  /\ Z.of_nat (length (pixels R)) = imgW R * imgH R
  /\ (forall X Y, 0 <= X < imgW R -> 0 <= Y < imgH R ->
        load (pixels R) (Y * imgW R + X) =
        if (1 <=? X) && (X <? 1 + 2) && (0 <=? Y) && (Y <? 0 + 1)
        then load [x07; x09] ((Y - 0) * 2 + (X - 1))
        else white)
  /\ cropGray (pixels R) (imgW R) (imgH R) (mkRect 1 0 (1 + 2) (0 + 1)) = mkImage [x07; x09] 2 1.
Proof. apply (addWhiteBorderPerSide_spec [x07; x09] 2 1 1 (-4) 0 1); cbn; lia. Defined.

(** X7. [addWhiteBorder] on a buffer of [width * height] samples is
    [addWhiteBorderPerSide] with the same pad on the four sides: the size grows
    by twice the pad, the source sits at offset (pad, pad) and the border is
    white; a pad that is zero or negative gives back the buffer. *)
Theorem addWhiteBorder_uniform (src : Gray) (width height pad : Z) :
  0 <= width -> 0 <= height -> Z.of_nat (length src) = width * height ->
  addWhiteBorder src width height pad = addWhiteBorderPerSide src width height pad pad pad pad
  /\ (pad <= 0 -> addWhiteBorder src width height pad = mkImage src width height)
  /\ (let R := addWhiteBorder src width height pad in
      let p := Z.max 0 pad in
      imgW R = width + 2 * p /\ imgH R = height + 2 * p
      /\ forall X Y, 0 <= X < imgW R -> 0 <= Y < imgH R ->
           load (pixels R) (Y * imgW R + X) =
           if (p <=? X) && (X <? p + width) && (p <=? Y) && (Y <? p + height)
           then load src ((Y - p) * width + (X - p))
           else white).
Proof.
  intros Hw Hh Hlen.
  destruct (border_grid src width height pad pad pad pad Hw Hh ltac:(lia))
    as (HW & HH & HL & HP).
  set (P := addWhiteBorderPerSide src width height pad pad pad pad) in *.
  assert (Hcopy : copyOf src (width * height) = src) by (unfold copyOf; apply take_ge; lia).
  assert (Heq : addWhiteBorder src width height pad = P).
  { unfold addWhiteBorder. destruct (Z.leb_spec pad 0) as [Hp | Hp].
    - rewrite Hcopy. destruct P as [pp pw ph]. cbn [imgW imgH pixels] in *.
      replace (Z.max 0 pad) with 0 in * by lia.
      assert (Hpw : pw = width) by lia. assert (Hph : ph = height) by lia.
      clear HW HH. subst pw ph. f_equal.
      apply gray_ext; [lia |]. intros i Hi.
      destruct (grid_split width height i ltac:(lia) Hh) as (Hs & Hx & Hy).
      specialize (HP (i `mod` width) (i `div` width) ltac:(lia) ltac:(lia)).
      replace (i `div` width * width + i `mod` width) with i in HP by lia.
      rewrite HP.
      destruct (Z.leb_spec 0 (i `mod` width)); [|lia].
      destruct (Z.ltb_spec (i `mod` width) (0 + width)); [|lia].
      destruct (Z.leb_spec 0 (i `div` width)); [|lia].
      destruct (Z.ltb_spec (i `div` width) (0 + height)); [|lia].
      cbn [andb]. f_equal. lia.
    - unfold P, addWhiteBorderPerSide. cbn zeta.
      replace (Z.max 0 pad) with pad by lia.
      replace (width + pad + pad) with (width + pad * 2) by lia.
      replace (height + pad + pad) with (height + pad * 2) by lia. reflexivity. }
  split; [exact Heq |]. split.
  - intros Hp. unfold addWhiteBorder. destruct (Z.leb_spec pad 0); [|lia]. rewrite Hcopy. reflexivity.
  - cbn zeta. rewrite Heq. split; [lia |]. split; [lia |]. exact HP.
Qed.

Lemma addWhiteBorder_uniform_witness :
  addWhiteBorder [x07] 1 1 1 = addWhiteBorderPerSide [x07] 1 1 1 1 1 1
  /\ (1 <= 0 -> addWhiteBorder [x07] 1 1 1 = mkImage [x07] 1 1)
  /\ (let R := addWhiteBorder [x07] 1 1 1 in
      let p := Z.max 0 1 in
      imgW R = 1 + 2 * p /\ imgH R = 1 + 2 * p
      /\ forall X Y, 0 <= X < imgW R -> 0 <= Y < imgH R ->
           load (pixels R) (Y * imgW R + X) =
           if (p <=? X) && (X <? p + 1) && (p <=? Y) && (Y <? p + 1)
           then load [x07] ((Y - p) * 1 + (X - p))
           else white).
Proof. apply (addWhiteBorder_uniform [x07] 1 1 1); cbn; lia. Defined.

(** X8. [cropGray] on a buffer holding [width * height] samples returns the
    samples of the clamped region, row by row: its size is the size of the
    clamped region and its sample at [(x, y)] is the source sample at
    [(left + x, top + y)].  The crop of the whole frame is the buffer itself,
    and a region is cropped as its clamped form is. *)
Theorem cropGray_spec (src : Gray) (width height : Z) (roi : RectI) :
  0 <= width -> 0 <= height -> width * height <= Z.of_nat (length src) ->
  let c := clampRect roi width height in
  let R := cropGray src width height roi in
  imgW R = right c - left c /\ imgH R = bottom c - top c
  /\ Z.of_nat (length (pixels R)) = imgW R * imgH R
  /\ (forall x y, 0 <= x < imgW R -> 0 <= y < imgH R ->
        load (pixels R) (y * imgW R + x) = load src ((top c + y) * width + (left c + x)))
  /\ cropGray src width height c = R
  /\ (Z.of_nat (length src) = width * height ->
      cropGray src width height (mkRect 0 0 width height) = mkImage src width height).
Proof.
  intros Hw Hh Hlen c R.
  pose proof (clampRect_fixed _ _ _ (clampRect_inside roi width height Hw Hh)) as Hidem.
  fold c in Hidem.
  destruct (cropGray_grid src width height roi Hw Hh Hlen) as (HW & HH & HL & HP).
  fold c R in HW, HH, HL, HP.
  assert (Hcr : cropGray src width height c = R).
  { unfold R, cropGray. rewrite Hidem. reflexivity. }
  split; [exact HW |]. split; [exact HH |]. split; [exact HL |]. split; [exact HP |].
  split; [exact Hcr |].
  intros Hfull.
  assert (Hf : clampRect (mkRect 0 0 width height) width height = mkRect 0 0 width height).
  { apply clampRect_fixed. repeat split; cbn; lia. }
  destruct (cropGray_grid src width height (mkRect 0 0 width height) Hw Hh Hlen) as (FW & FH & FL & FP).
  rewrite Hf in FW, FH, FP. cbn [left right top bottom] in FW, FH, FP.
  destruct (cropGray src width height (mkRect 0 0 width height)) as [pp pw ph].
  cbn [imgW imgH pixels] in *.
  assert (Hpw : pw = width) by lia. assert (Hph : ph = height) by lia.
  clear FW FH. subst pw ph. f_equal.
  apply gray_ext; [lia |]. intros i Hi.
  destruct (grid_split width height i ltac:(lia) Hh) as (Hs & Hx & Hy).
  specialize (FP (i `mod` width) (i `div` width) Hx Hy).
  replace (i `div` width * width + i `mod` width) with i in FP by lia.
  rewrite FP. f_equal. lia.
Qed.

Lemma cropGray_spec_witness :
  let src := [x01; x02; x03; x04; x05; x06] in
  let c := clampRect (mkRect 1 0 9 2) 3 2 in
  let R := cropGray src 3 2 (mkRect 1 0 9 2) in
  imgW R = right c - left c /\ imgH R = bottom c - top c
  /\ Z.of_nat (length (pixels R)) = imgW R * imgH R
  /\ (forall x y, 0 <= x < imgW R -> 0 <= y < imgH R ->
        load (pixels R) (y * imgW R + x) = load src ((top c + y) * 3 + (left c + x)))
  /\ cropGray src 3 2 c = R
  /\ (Z.of_nat (length src) = 3 * 2 -> cropGray src 3 2 (mkRect 0 0 3 2) = mkImage src 3 2).
Proof. apply (cropGray_spec [x01; x02; x03; x04; x05; x06] 3 2 (mkRect 1 0 9 2)); cbn; lia. Defined.

(** X9. [trimPipes] rewrites a string character by character: the length is
    kept, every pipe becomes a slash and every other character stays, so no
    pipe is left, a string without a pipe is returned as it is, and trimming
    twice is trimming once. *)
Theorem trimPipes_spec (s : string) :
  String.length (trimPipes s) = String.length s
  /\ (forall i, String.get i (trimPipes s) =
                option_map (fun c => if Ascii.eqb c pipe then slash else c) (String.get i s))
  /\ hasPipe (trimPipes s) = false
  /\ (trimPipes s = s <-> hasPipe s = false)
  /\ trimPipes (trimPipes s) = trimPipes s.
Proof.
  assert (Hfix : forall t, hasPipe t = false -> trimPipes t = t).
  { induction t as [|c t IH]; [reflexivity |]. cbn [hasPipe trimPipes]. intros H.
    apply orb_false_iff in H as [Hc Ht]. rewrite Hc, IH by exact Ht. reflexivity. }
  split; [| split; [| split; [| split]]].
  - induction s as [|c s IH]; [reflexivity |]. cbn [trimPipes String.length]. rewrite IH. reflexivity.
  - induction s as [|c s IH]; intros i; [reflexivity |].
    destruct i as [|i]; cbn [trimPipes String.get option_map]; [reflexivity | apply IH].
  - apply hasPipe_trimPipes.
  - split; [| apply Hfix]. intros H. rewrite <- H. apply hasPipe_trimPipes.
  - apply Hfix, hasPipe_trimPipes.
Qed.

Lemma unhex_hexAt (b : byte) :
  Byte.of_N (16 * unhexAt (hexAt (N.land (N.shiftr (Byte.to_N b) 4) 15))
             + unhexAt (hexAt (N.land (Byte.to_N b) 15))) = Some b.
Proof. destruct b; vm_compute; reflexivity. Qed.

Lemma unhex_hexOf (bs : list byte) : unhex (hexOf bs) = Some bs.
Proof.
  induction bs as [|b bs IH]; [reflexivity |].
  cbn [hexOf unhex]. rewrite unhex_hexAt, IH. reflexivity.
Qed.

Lemma length_hexOf (bs : list byte) : String.length (hexOf bs) = (2 * length bs)%nat.
Proof.
  induction bs as [|b bs IH]; [reflexivity |].
  cbn [hexOf String.length length]. rewrite IH. lia.
Qed.

(** X10. [hexPrefix] writes two hexadecimal digits for each of the first
    [min maxBytes size] bytes and nothing else: the length is twice that
    count, no pipe occurs, and the digits read back give exactly those
    bytes, so two byte strings with the same prefix text agree on the
    prefix. *)
Theorem hexPrefix_spec (bs : list byte) (maxBytes : nat) :
  String.length (hexPrefix bs maxBytes) = (2 * Nat.min maxBytes (length bs))%nat
  /\ hasPipe (hexPrefix bs maxBytes) = false
  /\ unhex (hexPrefix bs maxBytes) = Some (take maxBytes bs)
  /\ forall bs', hexPrefix bs' maxBytes = hexPrefix bs maxBytes -> take maxBytes bs' = take maxBytes bs.
Proof.
  assert (Htake : forall l : list byte, take (Nat.min maxBytes (length l)) l = take maxBytes l).
  { intros l. destruct (Nat.le_ge_cases maxBytes (length l)) as [H | H].
    - rewrite Nat.min_l by exact H. reflexivity.
    - rewrite Nat.min_r by exact H. rewrite !take_ge by lia. reflexivity. }
  unfold hexPrefix. split; [| split; [| split]].
  - rewrite length_hexOf, length_take. lia.
  - apply hasPipe_hexOf.
  - rewrite unhex_hexOf, Htake. reflexivity.
  - intros bs' H. apply (f_equal unhex) in H. rewrite !unhex_hexOf, !Htake in H. congruence.
Qed.

Lemma hexPrefix_spec_witness :
  String.length (hexPrefix [x0a; xff; x10] 2) = (2 * Nat.min 2 (length [x0a; xff; x10]))%nat
  /\ hasPipe (hexPrefix [x0a; xff; x10] 2) = false
  /\ unhex (hexPrefix [x0a; xff; x10] 2) = Some (take 2 [x0a; xff; x10])
  /\ forall bs', hexPrefix bs' 2 = hexPrefix [x0a; xff; x10] 2 -> take 2 bs' = take 2 [x0a; xff; x10].
Proof. apply (hexPrefix_spec [x0a; xff; x10] 2). Defined.

(** X11. [mapUnknownValue] on a frame of [width * height] samples returns a
    buffer of that size in which every sample equal to the unknown value is
    replaced by the target and every other sample is kept; if the target
    differs from the unknown value no sample of the result has the unknown
    value, and a buffer without the unknown value is returned as it is. *)
Theorem mapUnknownValue_spec (src : Gray) (width height : Z) (unknownValue mappedTo : byte) :
  0 <= width -> 0 <= height ->
  let out := mapUnknownValue src width height unknownValue mappedTo in
  Z.of_nat (length out) = width * height
  /\ (forall i, 0 <= i < width * height ->
        load out i = if Byte.eqb (load src i) unknownValue then mappedTo else load src i)
  /\ (mappedTo <> unknownValue -> forall i, 0 <= i < width * height -> load out i <> unknownValue)
  /\ (Z.of_nat (length src) = width * height ->
      (forall i, 0 <= i < width * height -> load src i <> unknownValue) -> out = src).
Proof.
  intros Hw Hh out.
  set (n := width * height). assert (Hn : 0 <= n) by (unfold n; nia).
  set (f := fun v : byte => if Byte.eqb v unknownValue then mappedTo else v).
  assert (Hinv : Z.of_nat (length out) = n /\
                 forall i, 0 <= i < n -> load out i = f (load src i)).
  { unfold out, mapUnknownValue. fold n. rewrite length_zeros. replace (Z.max 0 n) with n by lia.
    pose proof (forZ_invariant
      (fun k (t : Gray) => Z.of_nat (length t) = n /\ forall i, 0 <= i < k -> load t i = f (load src i))
      n (fun i t => store t i (f (load src i))) (zeros n) Hn) as Hloop.
    cbn beta in Hloop. destruct Hloop as [Hl Hc].
    - split; [rewrite length_zeros; lia | intros i Hi; lia].
    - intros i t Hi [Hl Hc]. split; [rewrite length_store; exact Hl |].
      intros j Hj. destruct (Z.eq_dec j i) as [-> | Hne].
      + apply load_store_eq. lia.
      + rewrite load_store_ne by lia. apply Hc. lia.
    - split; [exact Hl | exact Hc]. }
  destruct Hinv as [Hl Hc].
  split; [exact Hl |]. split; [exact Hc |]. split.
  - intros Hne i Hi. rewrite (Hc i Hi). unfold f.
    destruct (Byte.eqb (load src i) unknownValue) eqn:E; [exact Hne | apply Byte.eqb_false, E].
  - intros Hs Hclean. apply gray_ext; [lia |]. intros i Hi.
    rewrite (Hc i ltac:(lia)). unfold f.
    destruct (Byte.eqb (load src i) unknownValue) eqn:E; [| reflexivity].
    exfalso. apply (Hclean i ltac:(lia)). apply Byte.byte_dec_bl, E.
Qed.

Lemma mapUnknownValue_spec_witness :
  let out := mapUnknownValue [x7f; x00; xff; x7f] 2 2 x7f xff in
  Z.of_nat (length out) = 2 * 2
  /\ (forall i, 0 <= i < 2 * 2 ->
        load out i = if Byte.eqb (load [x7f; x00; xff; x7f] i) x7f then xff else load [x7f; x00; xff; x7f] i)
  /\ (xff <> x7f -> forall i, 0 <= i < 2 * 2 -> load out i <> x7f)
  /\ (Z.of_nat (length [x7f; x00; xff; x7f]) = 2 * 2 ->
      (forall i, 0 <= i < 2 * 2 -> load [x7f; x00; xff; x7f] i <> x7f) -> out = [x7f; x00; xff; x7f]).
Proof. apply (mapUnknownValue_spec [x7f; x00; xff; x7f] 2 2 x7f xff); lia. Defined.

(** ** The margin scans stop at the first stripe that is not white *)

Lemma forBreak_countWhite_run (step : Z) (isWhite : Z -> bool) (g : Z -> Z) (len : nat) :
  forall a m,
  exists k, 0 <= k <= Z.of_nat len
    /\ forBreak (g <$> seqZ a (Z.of_nat len)) (countWhite step isWhite) m = m + step * k
    /\ (forall j, a <= j < a + k -> isWhite (g j) = true)
    /\ (k < Z.of_nat len -> isWhite (g (a + k)) = false).
Proof.
  induction len as [|len IH]; intros a m.
  - exists 0. change (seqZ a (Z.of_nat 0)) with (@nil Z). cbn [fmap list_fmap forBreak].
    repeat split; try lia.
  - rewrite seqZ_cons by lia. cbn [fmap list_fmap forBreak].
    replace (Z.pred (Z.of_nat (S len))) with (Z.of_nat len) by lia.
    unfold countWhite at 1. destruct (isWhite (g a)) eqn:Ha.
    + destruct (IH (Z.succ a) (m + step)) as (k & Hk & Hr & Hw & Hn).
      exists (k + 1). split; [lia |]. split; [rewrite Hr; lia |]. split.
      * intros j Hj. destruct (Z.eq_dec j a) as [-> | Hne]; [exact Ha | apply Hw; lia].
      * intros Hlt. replace (a + (k + 1)) with (Z.succ a + k) by lia. apply Hn. lia.
    + exists 0. split; [lia |]. split; [lia |]. split; [intros j Hj; lia |].
      intros _. replace (a + 0) with a by lia. exact Ha.
Qed.

Lemma forBreak_up (step : Z) (isWhite : Z -> bool) (n : Z) :
  0 < step -> 0 <= n ->
  let steps := (n + step - 1) `div` step in
  exists k, 0 <= k <= steps
    /\ forBreak (stepsUp n step) (countWhite step isWhite) 0 = step * k
    /\ (forall j, 0 <= j < k -> isWhite (j * step) = true)
    /\ (k < steps -> isWhite (k * step) = false).
Proof.
  intros Hs Hn steps. assert (Hst : 0 <= steps) by (apply Z.div_pos; lia).
  destruct (forBreak_countWhite_run step isWhite (fun k => k * step) (Z.to_nat steps) 0 0)
    as (k & Hk & Hr & Hw & Hf).
  rewrite Z2Nat.id in * by lia.
  exists k. split; [lia |]. split; [exact Hr |]. split; [intros j Hj; apply Hw; lia |].
  intros Hlt. apply Hf. lia.
Qed.

Lemma forBreak_down (step : Z) (isWhite : Z -> bool) (start : Z) :
  0 < step -> -1 <= start ->
  let steps := start `div` step + 1 in
  exists k, 0 <= k <= steps
    /\ forBreak (stepsDown start step) (countWhite step isWhite) 0 = step * k
    /\ (forall j, 0 <= j < k -> isWhite (start - j * step) = true)
    /\ (k < steps -> isWhite (start - k * step) = false).
Proof.
  intros Hs Hn steps.
  assert (Hst : 0 <= steps).
  { unfold steps. pose proof (Z.div_le_mono (-1) start step Hs Hn) as Hd.
    assert (-1 <= (-1) `div` step); [| lia].
    apply Z.div_le_lower_bound; lia. }
  destruct (forBreak_countWhite_run step isWhite (fun k => start - k * step) (Z.to_nat steps) 0 0)
    as (k & Hk & Hr & Hw & Hf).
  rewrite Z2Nat.id in * by lia.
  exists k. split; [lia |]. split; [exact Hr |]. split; [intros j Hj; apply Hw; lia |].
  intros Hlt. apply Hf. lia.
Qed.

(** X12. The top and bottom margins of [measureWhiteMargins] count the rows
    that [isMostlyWhiteRow] accepts, from each edge to the first row it
    refuses: each lies between 0 and the height, every counted row is
    accepted, the row after the count is refused, and the two counts either
    both equal the height or do not meet. *)
Theorem margins_top_bottom (E : External) (src : Gray) (width height : Z) :
  0 <= height ->
  let m := measureWhiteMargins E src width height in
  let whiteRow y := isMostlyWhiteRow E (offset src (y * width)) width in
  0 <= m_top m <= height /\ 0 <= m_bottom m <= height
  /\ (forall y, 0 <= y < m_top m -> whiteRow y = true)
  /\ (m_top m < height -> whiteRow (m_top m) = false)
  /\ (forall y, height - m_bottom m <= y < height -> whiteRow y = true)
  /\ (m_bottom m < height -> whiteRow (height - 1 - m_bottom m) = false)
  /\ (m_top m = height /\ m_bottom m = height \/ m_top m + m_bottom m < height).
Proof.
  intros Hh m whiteRow.
  destruct (forBreak_up 1 whiteRow height ltac:(lia) Hh) as (kt & Hkt & Ht & Htw & Htf).
  destruct (forBreak_down 1 whiteRow (height - 1) ltac:(lia) ltac:(lia)) as (kb & Hkb & Hb & Hbw & Hbf).
  cbn zeta in Hkt, Hkb, Htf, Hbf.
  replace ((height + 1 - 1) `div` 1) with height in * by (rewrite Z.div_1_r; lia).
  replace ((height - 1) `div` 1 + 1) with height in * by (rewrite Z.div_1_r; lia).
  assert (Htop : m_top m = kt) by (unfold m, measureWhiteMargins; cbn [m_top]; fold whiteRow; lia).
  assert (Hbot : m_bottom m = kb) by (unfold m, measureWhiteMargins; cbn [m_bottom]; fold whiteRow; lia).
  rewrite Htop, Hbot.
  assert (Htw' : forall y, 0 <= y < kt -> whiteRow y = true).
  { intros y Hy. rewrite <- (Htw y Hy). f_equal. lia. }
  assert (Hbw' : forall y, height - kb <= y < height -> whiteRow y = true).
  { intros y Hy. rewrite <- (Hbw (height - 1 - y) ltac:(lia)). f_equal. lia. }
  assert (Htf' : kt < height -> whiteRow kt = false).
  { intros Hlt. rewrite <- (Htf Hlt). f_equal. lia. }
  assert (Hbf' : kb < height -> whiteRow (height - 1 - kb) = false).
  { intros Hlt. rewrite <- (Hbf Hlt). f_equal. lia. }
  repeat (split; [assumption || lia |]).
  destruct (Z.eq_dec kt height) as [Het | Hnt].
  - left. split; [exact Het |].
    destruct (Z.eq_dec kb height) as [Heb | Hnb]; [exact Heb | exfalso].
    specialize (Hbf' ltac:(lia)). rewrite Htw' in Hbf' by lia. discriminate.
  - right. specialize (Htf' ltac:(lia)).
    destruct (Z_lt_le_dec (kt + kb) height) as [Hlt | Hge]; [exact Hlt | exfalso].
    rewrite Hbw' in Htf' by lia. discriminate.
Qed.

(** X13. The left and right margins of [measureWhiteMargins] count, two by
    two, the columns that [isMostlyWhiteCol] accepts: each lies between 0 and
    the width, every visited column inside the count is accepted, and a
    margin smaller than the width ends at a refused column. *)
Theorem margins_left_right_columns (E : External) (src : Gray) (width height : Z) :
  0 <= width ->
  let m := measureWhiteMargins E src width height in
  let whiteCol x := isMostlyWhiteCol E src width height x in
  0 <= m_left m <= width /\ 0 <= m_right m <= width
  /\ (forall j, 0 <= 2 * j < m_left m -> whiteCol (2 * j) = true)
  /\ (m_left m < width -> whiteCol (m_left m) = false)
  /\ (forall j, 0 <= 2 * j < m_right m -> whiteCol (width - 1 - 2 * j) = true)
  /\ (m_right m < width -> whiteCol (width - 1 - m_right m) = false).
Proof.
  intros Hw m whiteCol.
  destruct (forBreak_up 2 whiteCol width ltac:(lia) Hw) as (kl & Hkl & Hl & Hlw & Hlf).
  destruct (forBreak_down 2 whiteCol (width - 1) ltac:(lia) ltac:(lia)) as (kr & Hkr & Hr & Hrw & Hrf).
  cbn zeta in Hkl, Hkr, Hlf, Hrf.
  assert (Hsl : (width + 2 - 1) `div` 2 = (width + 1) `div` 2) by (f_equal; lia).
  assert (Hsr : (width - 1) `div` 2 + 1 = (width + 1) `div` 2).
  { replace (width + 1) with (width - 1 + 1 * 2) by lia. rewrite Z.div_add by lia. lia. }
  rewrite Hsl in *. rewrite Hsr in *.
  pose proof (Z.div_mod (width + 1) 2 ltac:(lia)) as Hdm.
  pose proof (Z.mod_pos_bound (width + 1) 2 ltac:(lia)) as Hmb.
  assert (Hleft : m_left m = Z.min (2 * kl) width)
    by (unfold m, measureWhiteMargins; cbn [m_left]; fold whiteCol; rewrite Hl; reflexivity).
  assert (Hright : m_right m = Z.min (2 * kr) width)
    by (unfold m, measureWhiteMargins; cbn [m_right]; fold whiteCol; rewrite Hr; reflexivity).
  rewrite Hleft, Hright.
  split; [lia |]. split; [lia |]. split; [| split; [| split]].
  - intros j Hj. rewrite <- (Hlw j ltac:(lia)). f_equal. lia.
  - intros Hlt. replace (Z.min (2 * kl) width) with (kl * 2) by lia. apply Hlf. lia.
  - intros j Hj. rewrite <- (Hrw j ltac:(lia)). f_equal. lia.
  - intros Hlt. replace (Z.min (2 * kr) width) with (kr * 2) by lia. apply Hrf. lia.
Qed.

Lemma margins_top_bottom_witness :
  let E := withPrimitive (fun _ _ => emptyBarcode) in
  let m := measureWhiteMargins E [xff; x00] 1 2 in
  let whiteRow y := isMostlyWhiteRow E (offset [xff; x00] (y * 1)) 1 in
  0 <= m_top m <= 2 /\ 0 <= m_bottom m <= 2
  /\ (forall y, 0 <= y < m_top m -> whiteRow y = true)
  /\ (m_top m < 2 -> whiteRow (m_top m) = false)
  /\ (forall y, 2 - m_bottom m <= y < 2 -> whiteRow y = true)
  /\ (m_bottom m < 2 -> whiteRow (2 - 1 - m_bottom m) = false)
  /\ (m_top m = 2 /\ m_bottom m = 2 \/ m_top m + m_bottom m < 2).
Proof.
  apply (margins_top_bottom (withPrimitive (fun _ _ => emptyBarcode)) [xff; x00] 1 2). lia.
Defined.

Lemma margins_left_right_columns_witness :
  let E := withPrimitive (fun _ _ => emptyBarcode) in
  let m := measureWhiteMargins E [xff; xff; x00] 3 1 in
  let whiteCol x := isMostlyWhiteCol E [xff; xff; x00] 3 1 x in
  0 <= m_left m <= 3 /\ 0 <= m_right m <= 3
  /\ (forall j, 0 <= 2 * j < m_left m -> whiteCol (2 * j) = true)
  /\ (m_left m < 3 -> whiteCol (m_left m) = false)
  /\ (forall j, 0 <= 2 * j < m_right m -> whiteCol (3 - 1 - 2 * j) = true)
  /\ (m_right m < 3 -> whiteCol (3 - 1 - m_right m) = false).
Proof.
  apply (margins_left_right_columns (withPrimitive (fun _ _ => emptyBarcode)) [xff; xff; x00] 3 1). lia.
Defined.

(** ** The classifier counts canonical samples on a grid *)

Lemma In_stepsUp (n step x : Z) : 0 < step -> In x (stepsUp n step) -> 0 <= x < n.
Proof.
  intros Hs Hin. unfold stepsUp in Hin. apply list_elem_of_In in Hin.
  apply list_elem_of_fmap in Hin as (k & -> & Hk). apply elem_of_seqZ in Hk.
  pose proof (Z.div_mod (n + step - 1) step ltac:(lia)) as Hdm.
  pose proof (Z.mod_pos_bound (n + step - 1) step Hs) as Hmb. nia.
Qed.

Lemma length_stepsUp (n step : Z) :
  0 < step -> 0 < n -> (0 < length (stepsUp n step))%nat.
Proof.
  intros Hs Hn. unfold stepsUp. rewrite length_fmap, length_seqZ.
  assert (1 <= (n + step - 1) `div` step) by (apply Z.div_le_lower_bound; lia). lia.
Qed.

Lemma count_row (p : Z -> bool) (f : Z * Z -> Z -> Z * Z) (cols : list Z) :
  (forall n hits x, f (n, hits) x = (n + 1, if p x then hits + 1 else hits)) ->
  forall n hits, exists c,
    fold_left f cols (n, hits) = (n + Z.of_nat (length cols), hits + c)
    /\ ((forall x, In x cols -> p x = true) -> c = Z.of_nat (length cols))
    /\ ((forall x, In x cols -> p x = false) -> c = 0).
Proof.
  intros Hf. induction cols as [|x cols IH]; intros n hits.
  - exists 0. cbn. split; [f_equal; lia | split; reflexivity].
  - cbn [fold_left]. rewrite Hf.
    destruct (IH (n + 1) (if p x then hits + 1 else hits)) as (c & Hr & Ht & Hn).
    exists ((if p x then 1 else 0) + c). rewrite Hr. split; [| split].
    + cbn [length]. destruct (p x); f_equal; lia.
    + intros Hall. rewrite (Hall x (or_introl eq_refl)), Ht by (intros; apply Hall; right; assumption).
      cbn [length]. lia.
    + intros Hall. rewrite (Hall x (or_introl eq_refl)), Hn by (intros; apply Hall; right; assumption).
      reflexivity.
Qed.

Lemma count_grid (p : Z -> Z -> bool) (f : Z -> Z * Z -> Z -> Z * Z) (rows cols : list Z) :
  (forall y n hits x, f y (n, hits) x = (n + 1, if p y x then hits + 1 else hits)) ->
  forall n hits, exists c,
    fold_left (fun acc y => fold_left (f y) cols acc) rows (n, hits)
      = (n + Z.of_nat (length rows) * Z.of_nat (length cols), hits + c)
    /\ ((forall y x, In y rows -> In x cols -> p y x = true)
        -> c = Z.of_nat (length rows) * Z.of_nat (length cols))
    /\ ((forall y x, In y rows -> In x cols -> p y x = false) -> c = 0).
Proof.
  intros Hf. induction rows as [|y rows IH]; intros n hits.
  - exists 0. cbn. split; [f_equal; lia | split; reflexivity].
  - cbn [fold_left].
    destruct (count_row (p y) (f y) cols (Hf y) n hits) as (c1 & Hr1 & Ht1 & Hn1).
    rewrite Hr1.
    destruct (IH (n + Z.of_nat (length cols)) (hits + c1)) as (c2 & Hr2 & Ht2 & Hn2).
    exists (c1 + c2). rewrite Hr2. split; [| split].
    + cbn [length]. f_equal; lia.
    + intros Hall. rewrite Ht1, Ht2.
      * cbn [length]. lia.
      * intros y' x Hy Hx. apply Hall; [right |]; assumption.
      * intros x Hx. apply Hall; [left; reflexivity | assumption].
    + intros Hall. rewrite Hn1, Hn2.
      * reflexivity.
      * intros y' x Hy Hx. apply Hall; [right |]; assumption.
      * intros x Hx. apply Hall; [left; reflexivity | assumption].
Qed.

(** X14. [looksSyntheticQR] refuses a frame with a non-positive width or
    height; on a frame of [width * height] samples it accepts when every
    sample is one of 0, 127 and 255 and refuses when none is. *)
Theorem looksSyntheticQR_extremes (src : Gray) (width height : Z) :
  (width <= 0 \/ height <= 0 -> looksSyntheticQR src width height = false)
  /\ (0 < width -> 0 < height ->
      (forall i, 0 <= i < width * height -> isCanonical (sample src i) = true) ->
      looksSyntheticQR src width height = true)
  /\ (0 < width -> 0 < height ->
      (forall i, 0 <= i < width * height -> isCanonical (sample src i) = false) ->
      looksSyntheticQR src width height = false).
Proof.
  assert (Hgrid : 0 < width -> 0 < height -> exists N c,
    0 < N
    /\ looksSyntheticQR src width height = (0 <? N) && (985 * N <=? 1000 * c)
    /\ ((forall i, 0 <= i < width * height -> isCanonical (sample src i) = true) -> c = N)
    /\ ((forall i, 0 <= i < width * height -> isCanonical (sample src i) = false) -> c = 0)).
  { intros Hw Hh. unfold looksSyntheticQR.
    destruct (Z.leb_spec width 0); [lia |]. destruct (Z.leb_spec height 0); [lia |].
    cbn [orb]. cbn zeta.
    set (stepX := Z.max 1 (width ÷ 64)). set (stepY := Z.max 1 (height ÷ 64)).
    set (rows := stepsUp height stepY). set (cols := stepsUp width stepX).
    destruct (count_grid (fun y x => isCanonical (sample (offset src (y * width)) x))
      (fun y '(n, hits) x =>
         (n + 1, if isCanonical (sample (offset src (y * width)) x) then hits + 1 else hits))
      rows cols ltac:(reflexivity) 0 0) as (c & Hr & Ht & Hn).
    rewrite Hr.
    pose proof (length_stepsUp height stepY ltac:(lia) Hh) as Hlr.
    pose proof (length_stepsUp width stepX ltac:(lia) Hw) as Hlc.
    fold rows in Hlr. fold cols in Hlc.
    assert (Hidx : forall y x, In y rows -> In x cols ->
      sample (offset src (y * width)) x = sample src (y * width + x) /\ 0 <= y * width + x < width * height).
    { intros y x Hy Hx. apply In_stepsUp in Hy; [| lia]. apply In_stepsUp in Hx; [| lia].
      split; [| nia]. unfold sample. rewrite load_offset by nia. reflexivity. }
    exists (Z.of_nat (length rows) * Z.of_nat (length cols)), c.
    split; [nia |]. split; [f_equal; f_equal; lia |]. split.
    - intros Hall. rewrite Ht; [lia |]. intros y x Hy Hx.
      destruct (Hidx y x Hy Hx) as [-> Hi]. apply Hall, Hi.
    - intros Hall. apply Hn. intros y x Hy Hx.
      destruct (Hidx y x Hy Hx) as [-> Hi]. apply Hall, Hi. }
  split; [| split].
  - intros H. unfold looksSyntheticQR.
    destruct (Z.leb_spec width 0); [reflexivity |].
    destruct (Z.leb_spec height 0); [reflexivity | lia].
  - intros Hw Hh Hall. destruct (Hgrid Hw Hh) as (N & c & HN & -> & Ht & _).
    rewrite (Ht Hall). destruct (Z.ltb_spec 0 N); [| lia].
    destruct (Z.leb_spec (985 * N) (1000 * N)); [reflexivity | lia].
  - intros Hw Hh Hall. destruct (Hgrid Hw Hh) as (N & c & HN & -> & _ & Hn).
    rewrite (Hn Hall). destruct (Z.ltb_spec 0 N); [| lia].
    destruct (Z.leb_spec (985 * N) (1000 * 0)); [lia | reflexivity].
Qed.

Lemma looksSyntheticQR_extremes_witness :
  looksSyntheticQR [x00; x7f] 0 1 = false
  /\ looksSyntheticQR [x00; x7f] 2 1 = true
  /\ looksSyntheticQR [x01; xfe] 2 1 = false.
Proof.
  split; [apply (proj1 (looksSyntheticQR_extremes [x00; x7f] 0 1)); lia |].
  split.
  - apply (proj1 (proj2 (looksSyntheticQR_extremes [x00; x7f] 2 1))); try lia.
    intros i Hi. assert (Hc : i = 0 \/ i = 1) by lia. destruct Hc as [-> | ->]; reflexivity.
  - apply (proj2 (proj2 (looksSyntheticQR_extremes [x01; xfe] 2 1))); try lia.
    intros i Hi. assert (Hc : i = 0 \/ i = 1) by lia. destruct Hc as [-> | ->]; reflexivity.
Defined.

(** ** Bounds of the adaptive plan *)

Lemma targetQuietZone_range (th : bool) (zeroDivisor minDim : Z) (suspect zero : bool) :
  let t := targetQuietZone th zeroDivisor minDim suspect zero in
  (if th then 20 else 14) <= t <= (if th then 220 else 160).
Proof.
  cbn zeta. unfold targetQuietZone. cbn zeta.
  match goal with |- _ <= clamp ?v ?lo ?hi <= _ =>
    assert (Hr : lo <= clamp v lo hi <= hi) by (apply clamp_range; destruct th, zero, suspect; lia);
    assert (hi <= if th then 220 else 160) by (destruct th, zero, suspect; lia) end.
  lia.
Qed.

Lemma length_insertSorted (before : Z -> Z -> bool) (x : Z) (l : list Z) :
  length (insertSorted before x l) = S (length l).
Proof.
  induction l as [|y l IH]; [reflexivity |]. cbn [insertSorted].
  destruct (before y x); cbn [length]; rewrite ?IH; reflexivity.
Qed.

Lemma length_sortBy (before : Z -> Z -> bool) (l : list Z) : length (sortBy before l) = length l.
Proof.
  induction l as [|x l IH]; [reflexivity |].
  cbn [sortBy fold_right]. fold (sortBy before l). rewrite length_insertSorted, IH. reflexivity.
Qed.

Lemma length_unique (l : list Z) : (length (unique l) <= length l)%nat.
Proof.
  induction l as [|x l IH]; [reflexivity |].
  destruct l as [|y l]; [reflexivity |].
  rewrite unique_cons. destruct (x =? y); cbn [length] in *; lia.
Qed.

Lemma padCandidates_range (debug th suspect zero : bool) (basePad padCap : Z) (z : Z) :
  16 <= basePad <= 512 -> 192 <= padCap <= 512 ->
  In z (if debug then padCandidatesDebug th suspect zero basePad padCap
        else padCandidates th suspect zero basePad padCap) ->
  0 <= z <= 512.
Proof.
  intros Hb Hc Hin.
  assert (H2 : 0 <= clamp (basePad ÷ 2) 0 96 <= 96) by (apply clamp_range; lia).
  assert (H3 : 0 <= clamp (basePad ÷ 3) 0 64 <= 64) by (apply clamp_range; lia).
  assert (Hup : forall v lo hi, 0 <= lo <= v -> 0 <= hi <= 512 -> 0 <= clamp v lo hi <= 512).
  { intros v lo hi Hv Hhi. unfold clamp. destruct (Z.ltb_spec v lo), (Z.ltb_spec hi v); lia. }
  unfold padCandidates, padCandidatesDebug in Hin.
  destruct debug, th, zero, suspect; cbn [app In] in Hin;
    repeat (destruct Hin as [<- | Hin]; [first [lia | apply Hup; lia] |]); contradiction.
Qed.

Lemma padCandidates_length (debug th suspect zero : bool) (basePad padCap : Z) :
  (length (if debug then padCandidatesDebug th suspect zero basePad padCap
           else padCandidates th suspect zero basePad padCap) <= if th then 8 else 3)%nat.
Proof. destruct debug, th, zero, suspect; cbn; lia. Qed.

Lemma padCandidates_base (debug th suspect zero : bool) (basePad padCap : Z) :
  let l := if debug then padCandidatesDebug th suspect zero basePad padCap
           else padCandidates th suspect zero basePad padCap in
  In 0 l /\ In basePad l.
Proof. destruct debug, th, zero, suspect; cbn; auto 10. Qed.

Lemma plan_pads_range (debug th : bool) (rotated : Gray) (rotW rotH : Z) (margins : Margins) :
  let p := buildPlanFor debug th rotated rotW rotH margins in
  16 <= basePad p <= 512
  /\ In 0 (pads p) /\ In (basePad p) (pads p)
  /\ (forall z, In z (pads p) -> 0 <= z <= 512).
Proof.
  intros p. unfold p, buildPlanFor. cbn zeta. cbn [basePad pads].
  set (minDim := Z.max 1 (Z.min rotW rotH)).
  set (suspect := isSuspect margins). set (zero := isZero margins).
  set (tq := targetQuietZone th (if debug then 5 else if th then 4 else 5) minDim suspect zero).
  set (b := addWhiteBorderPerSide rotated rotW rotH (Z.max 0 (tq - m_left margins))
              (Z.max 0 (tq - m_top margins)) (Z.max 0 (tq - m_right margins))
              (Z.max 0 (tq - m_bottom margins))).
  set (padCap := if zero then 512 else if Z.max (imgW b) (imgH b) <=? 900 then 192 else 512).
  set (bp := clamp _ _ _).
  assert (Hcap : 192 <= padCap <= 512).
  { unfold padCap. destruct zero; [lia |]. destruct (Z.max (imgW b) (imgH b) <=? 900); lia. }
  assert (Hbp : 16 <= bp <= 512).
  { unfold bp. match goal with |- _ <= clamp ?v ?lo ?hi <= _ =>
      assert (Hr : lo <= clamp v lo hi <= hi) by (apply clamp_range; destruct debug, th, zero, suspect; lia);
      assert (16 <= lo) by (destruct debug, th, zero, suspect; lia);
      assert (hi <= 512) by (destruct debug, th, zero, suspect; lia) end. lia. }
  set (cands := if debug then padCandidatesDebug th suspect zero bp padCap
                else padCandidates th suspect zero bp padCap).
  assert (Hpads : forall z,
    In z (if debug then unique (sortBy less (padCandidatesDebug th suspect zero bp padCap))
          else unique (sortBy (if zero then greater else less) (padCandidates th suspect zero bp padCap)))
    <-> In z cands).
  { intros z. unfold cands. destruct debug; rewrite unique_In, sortBy_In; reflexivity. }
  split; [exact Hbp |].
  split; [apply Hpads, (padCandidates_base debug th suspect zero bp padCap) |].
  split; [apply Hpads, (padCandidates_base debug th suspect zero bp padCap) |].
  intros z Hz. apply Hpads in Hz.
  exact (padCandidates_range debug th suspect zero bp padCap z Hbp Hcap Hz).
Qed.

Lemma buildPlanFor_pads_length (debug th : bool) (rotated : Gray) (rotW rotH : Z) (margins : Margins) :
  (length (pads (buildPlanFor debug th rotated rotW rotH margins)) <= if th then 8 else 3)%nat.
Proof.
  unfold buildPlanFor. cbn zeta. cbn [pads].
  destruct debug.
  - etransitivity; [apply length_unique |]. rewrite length_sortBy.
    apply (padCandidates_length true).
  - etransitivity; [apply length_unique |]. rewrite length_sortBy.
    apply (padCandidates_length false).
Qed.

(** X15. Whatever the frame and the measured margins, the plan of both entry
    points stays within fixed bounds: the target quiet zone lies in
    [[14, 160]] at low effort and in [[20, 220]] at high effort, the four side
    pads are not negative, the base image is the frame grown by the side
    pads, the base pad lies in [[16, 512]], and the pad list holds 0 and the
    base pad, only values in [[0, 512]], and at most 3 entries at low effort
    and 8 at high effort. *)
Theorem plan_bounds (debug th : bool) (rotated : Gray) (rotW rotH : Z) (margins : Margins) :
  let p := buildPlanFor debug th rotated rotW rotH margins in
  (if th then 20 else 14) <= targetQz p <= (if th then 220 else 160)
  /\ 0 <= padL p /\ 0 <= padR p /\ 0 <= padT p /\ 0 <= padB p
  /\ imgW (base p) = rotW + padL p + padR p
  /\ imgH (base p) = rotH + padT p + padB p
  /\ 16 <= basePad p <= 512
  /\ In 0 (pads p) /\ In (basePad p) (pads p)
  /\ (forall z, In z (pads p) -> 0 <= z <= 512)
  /\ (length (pads p) <= if th then 8 else 3)%nat.
Proof.
  intros p.
  destruct (plan_pads_range debug th rotated rotW rotH margins) as (Hbp & H0 & Hb & Hr).
  fold p in Hbp, H0, Hb, Hr.
  assert (Htq : (if th then 20 else 14) <= targetQz p <= (if th then 220 else 160))
    by apply targetQuietZone_range.
  assert (Hsides : 0 <= padL p /\ 0 <= padR p /\ 0 <= padT p /\ 0 <= padB p).
  { unfold p, buildPlanFor. cbn zeta. cbn [padL padR padT padB]. lia. }
  assert (Hbase : imgW (base p) = rotW + padL p + padR p /\ imgH (base p) = rotH + padT p + padB p).
  { unfold p, buildPlanFor. cbn zeta. cbn [base padL padR padT padB].
    unfold addWhiteBorderPerSide. cbn zeta. cbn [imgW imgH]. lia. }
  split; [exact Htq |]. split; [apply Hsides |]. split; [apply Hsides |].
  split; [apply Hsides |]. split; [apply Hsides |].
  split; [apply Hbase |]. split; [apply Hbase |].
  split; [exact Hbp |]. split; [exact H0 |]. split; [exact Hb |]. split; [exact Hr |].
  apply buildPlanFor_pads_length.
Qed.

(** ** Counting the calls of the primitive *)

Lemma readCount_app (t1 t2 : list Event) : readCount (t1 ++ t2) = (readCount t1 + readCount t2)%nat.
Proof. unfold readCount. rewrite filter_app, length_app. reflexivity. Qed.

Lemma readOptions_app (t1 t2 : list Event) : readOptions (t1 ++ t2) = readOptions t1 ++ readOptions t2.
Proof.
  induction t1 as [|e t1 IH]; [reflexivity |].
  destruct e; cbn [app readOptions]; rewrite ?IH; reflexivity.
Qed.

Lemma readCount_cons (e : Event) (t : list Event) :
  readCount (e :: t) = ((if isRead e then 1 else 0) + readCount t)%nat.
Proof.
  unfold readCount. rewrite filter_cons.
  destruct (isRead e); case_decide; try congruence; reflexivity.
Qed.

Lemma Calls_nil (P : ReaderOptions -> Prop) (n : nat) : Calls P n [].
Proof. split; [unfold readCount; cbn; lia | constructor]. Qed.

Lemma Calls_mono (P : ReaderOptions -> Prop) (n n' : nat) (t : list Event) :
  (n <= n')%nat -> Calls P n t -> Calls P n' t.
Proof. intros Hle [Hc Hp]. split; [lia | exact Hp]. Qed.

Lemma Calls_app (P : ReaderOptions -> Prop) (n1 n2 : nat) (t1 t2 : list Event) :
  Calls P n1 t1 -> Calls P n2 t2 -> Calls P (n1 + n2) (t1 ++ t2).
Proof.
  intros [Hc1 Hp1] [Hc2 Hp2]. split.
  - rewrite readCount_app. lia.
  - rewrite readOptions_app. apply Forall_app. split; assumption.
Qed.

Lemma Calls_bind {A B : Type} (P : ReaderOptions -> Prop) (n1 n2 : nat) (m : Traced A) (k : A -> Traced B) :
  Calls P n1 (trace m) -> Calls P n2 (trace (k (result m))) -> Calls P (n1 + n2) (trace (bind m k)).
Proof. intros H1 H2. rewrite trace_bind. apply Calls_app; assumption. Qed.

Lemma Calls_event (P : ReaderOptions -> Prop) (e : Event) : isRead e = false -> Calls P 0 [e].
Proof.
  intros He. split.
  - rewrite readCount_cons, He. unfold readCount. cbn. lia.
  - destruct e; try discriminate; constructor.
Qed.

Lemma Calls_read (P : ReaderOptions -> Prop) (image : Image) (o : ReaderOptions) :
  P o -> Calls P 1 [EvRead image o].
Proof.
  intros Ho. split; [rewrite readCount_cons; unfold readCount; cbn; lia |].
  repeat constructor; exact Ho.
Qed.

Lemma readBarcode_calls (P : ReaderOptions -> Prop) (E : External) (image : Image) (o : ReaderOptions) :
  P o -> Calls P 1 (trace (readBarcode E image o)).
Proof. intros Ho. exact (Calls_read P image o Ho). Qed.

Lemma retry_calls (P : ReaderOptions -> Prop) (E : External) (image : Image) (opts : ReaderOptions)
    (current : Barcode) :
  P (setFormats [QRCode] opts) -> Calls P 1 (trace (retryAsQRCodeIfMicroInvalid E image opts current)).
Proof.
  intros Ho. unfold retryAsQRCodeIfMicroInvalid.
  destruct (negb (BarcodeFormat_eqb (format current) MicroQRCode)); [apply Calls_nil |].
  destruct (isValid current); [apply Calls_nil |].
  destruct (negb (ErrorType_eqb (errType (error current)) ErrFormat)); [apply Calls_nil |].
  change 1%nat with (1 + 0)%nat. apply Calls_bind; [apply readBarcode_calls, Ho |].
  destruct (detected _ && _); apply Calls_nil.
Qed.

Lemma decodeOnce_calls (P : ReaderOptions -> Prop) (E : External) (image : Image) (opts : ReaderOptions) :
  Stable P -> P opts -> Calls P 2 (trace (decodeOnce E image opts)).
Proof.
  intros Hs Ho. unfold decodeOnce. change 2%nat with (1 + 1)%nat.
  apply Calls_bind; [apply readBarcode_calls, Ho | apply retry_calls, Hs, Ho].
Qed.

Lemma attempt_calls (P : ReaderOptions -> Prop) (E : External) (image : Image) (opts : ReaderOptions)
    (pad : Z) (scale : Scale) (guard : bool) (s : Orch) :
  Stable P -> P opts -> Calls P 2 (trace (attempt E image opts pad scale guard s)).
Proof.
  intros Hs Ho. rewrite attempt_eq. cbn [trace snd].
  change 2%nat with (2 + 0)%nat. apply Calls_app; [apply decodeOnce_calls; assumption |].
  apply Calls_event. reflexivity.
Qed.

Lemma escalate_calls (P : ReaderOptions -> Prop) (E : External) (image : Image) (th : bool)
    (configure : ReaderOptions -> ReaderOptions) (pad : Z) (scale : Scale)
    (opts : ReaderOptions) (s : Orch) :
  Stable P -> P opts -> (th = true -> P (configure opts)) ->
  let r := escalate E image th configure pad scale (opts, s) in
  Calls P (if th then 2 else 0) (trace r) /\ P (fst (result r)).
Proof.
  intros Hs Ho Hc. cbn zeta. unfold escalate.
  destruct (negb (detected (barcode s)) && th) eqn:Hrun.
  - apply andb_true_iff in Hrun as [_ ->]. rewrite bind_eta. cbn [trace result fst snd ret].
    rewrite app_nil_r. split; [apply attempt_calls; auto | auto].
  - cbn [ret trace result fst snd]. split; [apply Calls_nil | exact Ho].
Qed.

Lemma ladder_calls (P : ReaderOptions -> Prop) (E : External) (image : Image) (th : bool)
    (pad : Z) (scale : Scale) (s : Orch) :
  Stable P -> P (generalOptions th) ->
  (th = true -> forall o, P o -> P (setBinarizer GlobalHistogram o)
                            /\ P (setBinarizer FixedThreshold o)
                            /\ P (setBinarizer LocalAverage (setTryRotate true o))
                            /\ P (setBinarizer FixedThreshold (setTryRotate true o))) ->
  Calls P (if th then 10 else 2) (trace (ladder E image th pad scale s)).
Proof.
  intros Hs Ho Hc. unfold ladder. cbn zeta.
  set (a := attempt E image (generalOptions th) pad scale (negb th) s).
  assert (Ha : Calls P 2 (trace a)) by (apply attempt_calls; assumption).
  rewrite trace_bind. fold a.
  set (e1 := escalate E image th (setBinarizer GlobalHistogram) pad scale (generalOptions th, result a)).
  destruct (escalate_calls P E image th (setBinarizer GlobalHistogram) pad scale
              (generalOptions th) (result a) Hs Ho) as [C1 P1].
  { intros Hth. apply (Hc Hth), Ho. }
  fold e1 in C1, P1. rewrite trace_bind.
  destruct (result e1) as [o1 s1] eqn:R1. cbn [fst] in P1.
  set (e2 := escalate E image th (setBinarizer FixedThreshold) pad scale (o1, s1)).
  destruct (escalate_calls P E image th (setBinarizer FixedThreshold) pad scale o1 s1 Hs P1) as [C2 P2].
  { intros Hth. apply (Hc Hth), P1. }
  fold e2 in C2, P2. rewrite trace_bind.
  destruct (result e2) as [o2 s2] eqn:R2. cbn [fst] in P2.
  set (e3 := escalate E image th (fun o => setBinarizer LocalAverage (setTryRotate true o)) pad scale (o2, s2)).
  destruct (escalate_calls P E image th (fun o => setBinarizer LocalAverage (setTryRotate true o))
              pad scale o2 s2 Hs P2) as [C3 P3].
  { intros Hth. apply (Hc Hth), P2. }
  fold e3 in C3, P3. rewrite trace_bind.
  destruct (result e3) as [o3 s3] eqn:R3. cbn [fst] in P3.
  set (e4 := escalate E image th (fun o => setBinarizer FixedThreshold (setTryRotate true o)) pad scale (o3, s3)).
  destruct (escalate_calls P E image th (fun o => setBinarizer FixedThreshold (setTryRotate true o))
              pad scale o3 s3 Hs P3) as [C4 _].
  { intros Hth. apply (Hc Hth), P3. }
  fold e4 in C4. rewrite trace_bind. cbn [ret trace snd]. rewrite app_nil_r.
  apply (Calls_mono P (2 + ((if th then 2 else 0) + ((if th then 2 else 0)
           + ((if th then 2 else 0) + (if th then 2 else 0)))))); [destruct th; lia |].
  repeat (apply Calls_app; [assumption |]). assumption.
Qed.

Lemma buildScales_cases (th suspect zero : bool) (paddedW paddedH : Z) :
  let s := buildScales th suspect zero paddedW paddedH in
  (th = false -> s = [100])
  /\ (forall z, In z s -> knownScale z)
  /\ (length s <= if th then 8 else 1)%nat.
Proof.
  cbn zeta. unfold buildScales, knownScale. cbn zeta.
  destruct (1100 <=? Z.max paddedW paddedH), (900 <=? Z.max paddedW paddedH);
    destruct th, zero, suspect; vm_compute; intuition (try discriminate; try lia).
Qed.

Lemma scaleLoop_calls (P : ReaderOptions -> Prop) (E : External) (th : bool) (padded : Image)
    (pad : Z) (scales : list Scale) (n : nat) :
  (forall image scale s, Calls P n (trace (ladder E image th pad scale s))) ->
  forall s, Calls P (n * length scales) (trace (scaleLoop E th padded pad scales s)).
Proof.
  intros Hl. induction scales as [|scale rest IH]; intros s; cbn [scaleLoop].
  - apply Calls_nil.
  - cbn [length]. replace (n * S (length rest))%nat with (n + n * length rest)%nat by lia.
    apply Calls_bind; [apply Hl |].
    destruct (detected _); [apply Calls_nil | apply IH].
Qed.

Lemma padLoop_calls (P : ReaderOptions -> Prop) (E : External) (th : bool) (plan : Plan)
    (padList : list Z) (n : nat) :
  (forall image pad scale s, Calls P n (trace (ladder E image th pad scale s))) ->
  forall s, Calls P (n * (if th then 8 else 1) * length padList) (trace (padLoop E th plan padList s)).
Proof.
  intros Hl. induction padList as [|pad rest IH]; intros s; cbn [padLoop].
  - apply Calls_nil.
  - cbn zeta. cbn [length].
    replace (n * (if th then 8 else 1) * S (length rest))%nat
      with (n * (if th then 8 else 1) + n * (if th then 8 else 1) * length rest)%nat by lia.
    apply Calls_bind.
    + eapply Calls_mono; [| apply (scaleLoop_calls P E th _ pad _ n); intros; apply Hl].
      apply Nat.mul_le_mono_l. apply buildScales_cases.
    + destruct (fst _); [apply Calls_nil | apply IH].
Qed.

Lemma stable_effort (th : bool) : Stable (effortOptions th).
Proof. intros o (Hq & H). split; [right; reflexivity | exact H]. Qed.

Lemma stable_diagnostic (th : bool) : Stable (diagnosticOptions th).
Proof. intros o (Hq & H). split; [right; reflexivity | exact H]. Qed.

Lemma effort_general (th : bool) : effortOptions th (generalOptions th).
Proof. unfold effortOptions, qrOnly. destruct th; cbn; intuition congruence. Qed.

Lemma effort_escalate (o : ReaderOptions) :
  effortOptions true o ->
  effortOptions true (setBinarizer GlobalHistogram o)
  /\ effortOptions true (setBinarizer FixedThreshold o)
  /\ effortOptions true (setBinarizer LocalAverage (setTryRotate true o))
  /\ effortOptions true (setBinarizer FixedThreshold (setTryRotate true o)).
Proof. intros (Hq & Hh & Hi & Hr & Hd). unfold effortOptions, qrOnly in *. cbn. intuition auto. Qed.

Lemma effort_pure (th : bool) (bin : Binarizer) : effortOptions th (pureOptions th bin).
Proof. unfold effortOptions, qrOnly. destruct th; cbn; intuition congruence. Qed.

Lemma general_ladder_calls (E : External) (th : bool) (image : Image) (pad : Z) (scale : Scale) (s : Orch) :
  Calls (effortOptions th) (if th then 10 else 2) (trace (ladder E image th pad scale s)).
Proof.
  apply ladder_calls; [apply stable_effort | apply effort_general |].
  intros -> o Ho. apply effort_escalate, Ho.
Qed.

Lemma generalPipeline_calls (E : External) (th : bool) (roi : RectI) (rot cropW cropH : Z)
    (rotated : Image) :
  Calls (effortOptions th) (if th then 640 else 6)
        (trace (generalPipeline E th roi rot cropW cropH rotated)).
Proof.
  unfold generalPipeline.
  apply (Calls_mono _ (0 + (0 + ((if th then 640 else 6) + 0)))); [lia |].
  apply Calls_bind; [apply Calls_event; reflexivity |].
  apply Calls_bind; [apply Calls_event; reflexivity |].
  apply Calls_bind.
  - unfold orchestrate. rewrite trace_bind. cbn [ret trace snd]. rewrite app_nil_r.
    set (plan := buildPlan th _ _ _ _).
    pose proof (buildPlanFor_pads_length false th (pixels rotated) (imgW rotated) (imgH rotated)
                  (measureWhiteMargins E (pixels rotated) (imgW rotated) (imgH rotated))) as Hlen.
    fold (buildPlan th) in Hlen. fold plan in Hlen.
    eapply Calls_mono;
      [| apply (padLoop_calls (effortOptions th) E th plan (pads plan) (if th then 10 else 2));
         intros; apply general_ladder_calls].
    destruct th; lia.
  - destruct (negb _); apply Calls_nil.
Qed.

Lemma forUntil_calls {A R : Type} (P : ReaderOptions -> Prop) (n : nat) (xs : list A)
    (body : A -> Traced (option R)) :
  (forall x, Calls P n (trace (body x))) -> Calls P (n * length xs) (trace (forUntil xs body)).
Proof.
  intros Hb. induction xs as [|x xs IH]; cbn [forUntil].
  - apply Calls_nil.
  - cbn [length]. replace (n * S (length xs))%nat with (n + n * length xs)%nat by lia.
    apply Calls_bind; [apply Hb |].
    destruct (result (body x)); [apply Calls_nil | apply IH].
Qed.

Lemma tryPure_calls (E : External) (buf : Gray) (bufW bufH : Z) (th : bool) (bin : Binarizer) :
  Calls (effortOptions th) 2 (trace (tryPure E buf bufW bufH th bin)).
Proof.
  rewrite tryPure_eq. cbn [trace snd]. change 2%nat with (2 + 0)%nat.
  apply Calls_app; [| apply Calls_event; reflexivity].
  apply decodeOnce_calls; [apply stable_effort | apply effort_pure].
Qed.

Lemma syntheticPath_calls (E : External) (th : bool) (rotated : Gray) (rotW rotH : Z) :
  Calls (effortOptions th) 36 (trace (syntheticPath E th rotated rotW rotH)).
Proof.
  unfold syntheticPath. cbn zeta.
  apply (forUntil_calls (effortOptions th) 12 [0; 16; 32]). intros pad.
  match goal with |- Calls _ _ (trace (forUntil ?xs ?body)) =>
    apply (forUntil_calls (effortOptions th) 4 xs body) end.
  intros buf. change 4%nat with (2 + (2 + 0))%nat.
  apply Calls_bind; [apply tryPure_calls |].
  apply Calls_bind.
  - destruct (negb _); [apply tryPure_calls | apply Calls_nil].
  - destruct (detected _); apply Calls_nil.
Qed.

Lemma decodeRotated_calls (E : External) (th : bool) (roi : RectI) (w h rot : Z)
    (cropped rotated : Image) :
  Calls (effortOptions th) (if th then 640 else 42)
        (trace (decodeRotated E th roi w h rot cropped rotated)).
Proof.
  unfold decodeRotated. destruct (takesFastPath roi w h rot rotated).
  - apply (Calls_mono _ (36 + (if th then 0 else 6))); [destruct th; lia |].
    apply Calls_bind; [apply syntheticPath_calls |].
    destruct (result _); [apply Calls_nil |].
    destruct th; [apply Calls_nil | apply (generalPipeline_calls E false)].
  - eapply Calls_mono; [| apply generalPipeline_calls]. destruct th; lia.
Qed.

Lemma decodeGray_calls (E : External) (inp : JniInput) :
  Calls (effortOptions (tryHarder inp)) (if tryHarder inp then 640 else 42) (trace (decodeGray E inp)).
Proof.
  destruct (checkInput inp) as [e | data] eqn:Hc.
  - unfold decodeGray. rewrite Hc. apply Calls_nil.
  - rewrite (decodeGray_checked E inp data Hc). cbn [trace snd].
    apply (Calls_app _ 0 _ [EvCrop; EvRotate]); [| apply decodeRotated_calls].
    apply (Calls_app _ 0 0 [EvCrop] [EvRotate]); apply Calls_event; reflexivity.
Qed.

Lemma diagnostic_options (th : bool) : diagnosticOptions th (debugOptions th).
Proof. unfold diagnosticOptions, qrOnly. destruct th; cbn; intuition congruence. Qed.

Lemma diagnostic_binarizer (th : bool) (bin : Binarizer) (o : ReaderOptions) :
  diagnosticOptions th o -> diagnosticOptions th (setBinarizer bin o).
Proof. intros H. exact H. Qed.

Lemma debugAttempt_calls (E : External) (image : Image) (opts : ReaderOptions) (pad : Z)
    (name : string) (bit : Z) (d : DebugState) (th : bool) :
  diagnosticOptions th opts ->
  Calls (diagnosticOptions th) 2 (trace (debugAttempt E image opts pad name bit d)).
Proof.
  intros Ho. unfold debugAttempt. rewrite trace_bind. cbn [ret trace snd]. rewrite app_nil_r.
  apply attempt_calls; [apply stable_diagnostic | exact Ho].
Qed.

Lemma debugEscalate_calls (E : External) (image : Image) (th : bool) (bin : Binarizer) (pad : Z)
    (name : string) (bit : Z) (opts : ReaderOptions) (d : DebugState) :
  diagnosticOptions th opts ->
  let r := debugEscalate E image th bin pad name bit (opts, d) in
  Calls (diagnosticOptions th) (if th then 2 else 0) (trace r) /\ diagnosticOptions th (fst (result r)).
Proof.
  intros Ho. cbn zeta. unfold debugEscalate.
  destruct (negb (detected (barcode (orch d))) && th) eqn:Hrun.
  - apply andb_true_iff in Hrun as [_ ->]. rewrite bind_eta. cbn [trace result fst snd ret].
    rewrite app_nil_r. split; [| apply diagnostic_binarizer, Ho].
    apply debugAttempt_calls, diagnostic_binarizer, Ho.
  - cbn [ret trace result fst snd]. split; [apply Calls_nil | exact Ho].
Qed.

Lemma debugPadLoop_calls (E : External) (th : bool) (plan : Plan) (padList : list Z) :
  forall d, Calls (diagnosticOptions th) ((if th then 6 else 2) * length padList)
                  (trace (debugPadLoop E th plan padList d)).
Proof.
  induction padList as [|pad rest IH]; intros d; cbn [debugPadLoop].
  - apply Calls_nil.
  - cbn zeta. cbn [length].
    set (image := addWhiteBorder _ _ _ pad).
    set (d0 := mkDebug (orch d) (binUsed d) pad (binMask d)).
    apply (Calls_mono _ (2 + ((if th then 2 else 0) + ((if th then 2 else 0)
             + (if th then 6 else 2) * length rest)))); [destruct th; lia |].
    apply Calls_bind; [apply debugAttempt_calls, diagnostic_options |].
    set (d1 := result (debugAttempt E image (debugOptions th) pad "local" 1 d0)).
    destruct (debugEscalate_calls E image th GlobalHistogram pad "global" 2 (debugOptions th) d1
                (diagnostic_options th)) as [C1 P1].
    apply Calls_bind; [exact C1 |].
    destruct (result (debugEscalate E image th GlobalHistogram pad "global" 2 (debugOptions th, d1)))
      as [o1 s1]. cbn [fst] in P1.
    destruct (debugEscalate_calls E image th FixedThreshold pad "fixed" 4 o1 s1 P1) as [C2 _].
    apply Calls_bind; [exact C2 |].
    destruct (detected _); [apply Calls_nil | apply IH].
Qed.

Lemma decodeGrayDebug_calls (E : External) (inp : JniInput) :
  Calls (diagnosticOptions (tryHarder inp)) (if tryHarder inp then 48 else 6)
        (trace (decodeGrayDebug E inp)).
Proof.
  unfold decodeGrayDebug. destruct (checkInput inp) as [e | data]; [apply Calls_nil |].
  cbn zeta.
  apply (Calls_mono _ (0 + (0 + (0 + (0 + ((if tryHarder inp then 48 else 6) + 0)))))); [lia |].
  do 4 (apply Calls_bind; [apply Calls_event; reflexivity |]).
  apply Calls_bind; [| apply Calls_nil].
  match goal with |- Calls _ _ (trace (debugPadLoop E ?th ?plan ?l ?d)) =>
    eapply Calls_mono; [| apply (debugPadLoop_calls E th plan l d)] end.
  match goal with |- context [pads (buildPlanDebug ?th ?r ?w ?h ?m)] =>
    pose proof (buildPlanFor_pads_length true th r w h m) as Hlen;
    fold (buildPlanDebug th) in Hlen end.
  destruct (tryHarder inp); lia.
Qed.

(** X16. The scale list tried for one padded buffer is the single scale 100
    at low effort; at high effort it holds 100, only the scales 50, 66, 75,
    100, 125, 150, 200 and 250, each once, in descending order when the four
    margins are zero and in ascending order otherwise. *)
Theorem scales_bounds (th suspect zero : bool) (paddedW paddedH : Z) :
  let s := buildScales th suspect zero paddedW paddedH in
  (th = false -> s = [100])
  /\ In 100 s
  /\ (forall z, In z s -> In z [50; 66; 75; 100; 125; 150; 200; 250])
  /\ strictlyOrdered (if zero then greater else less) s = true
  /\ (length s <= if th then 8 else 1)%nat.
Proof.
  cbn zeta. unfold buildScales. cbn zeta.
  destruct (Z.leb_spec 1100 (Z.max paddedW paddedH)) as [H11 | H11];
    destruct (Z.leb_spec 900 (Z.max paddedW paddedH)) as [H9 | H9]; try (exfalso; lia);
    destruct th, zero, suspect; vm_compute; intuition (try discriminate; try lia).
Qed.

Lemma scales_bounds_witness :
  let s := buildScales false true true 1200 1000 in
  (false = false -> s = [100])
  /\ In 100 s
  /\ (forall z, In z s -> In z [50; 66; 75; 100; 125; 150; 200; 250])
  /\ strictlyOrdered greater s = true
  /\ (length s <= 1)%nat.
Proof. apply (scales_bounds false true true 1200 1000). Defined.

(** X17. Budget of the entry points.  Whatever the frame and whatever the
    primitive answers, one call of the primary entry point calls the
    primitive at most 42 times at low effort and at most 640 times at high
    effort, and one call of the diagnostic entry point at most 6 and 48
    times. *)
Theorem decode_call_budget (E : External) (inp : JniInput) :
  (readCount (trace (decodeGray E inp)) <= if tryHarder inp then 640 else 42)%nat
  /\ (readCount (trace (decodeGrayDebug E inp)) <= if tryHarder inp then 48 else 6)%nat.
Proof. split; [apply decodeGray_calls | apply decodeGrayDebug_calls]. Qed.

(** X18. Every call of the primitive asks for QR codes only (both variants,
    or the full-size variant in the Micro QR fallback).  In the primary entry
    point its try-harder and try-invert options equal the effort flag, and
    try-rotate and try-downscale are never set at low effort.  In the
    diagnostic entry point try-harder and try-downscale equal the effort flag,
    try-invert and return-errors are always set and try-rotate never is. *)
Theorem decode_read_options (E : External) (inp : JniInput) :
  Forall (effortOptions (tryHarder inp)) (readOptions (trace (decodeGray E inp)))
  /\ Forall (diagnosticOptions (tryHarder inp)) (readOptions (trace (decodeGrayDebug E inp))).
Proof. split; [apply decodeGray_calls | apply decodeGrayDebug_calls]. Qed.

(** ** Frames of an accepted input *)

Lemma rotateGray_size (X : Gray) (w h d : Z) :
  0 <= w -> 0 <= h -> Z.of_nat (length X) = w * h ->
  let R := rotateGray X w h d in
  Z.of_nat (length (pixels R)) = w * h /\ imgW R * imgH R = w * h.
Proof.
  intros Hw Hh Hlen. cbn zeta. rewrite rotateGray_cases.
  assert (Hcopy : copyOf X (w * h) = X) by (unfold copyOf; apply take_ge; lia).
  destruct (normRot d =? 0); [rewrite Hcopy; cbn; lia |].
  destruct (normRot d =? 180); [cbn [pixels imgW imgH]; split; [apply rot180_spec; lia | lia] |].
  destruct (normRot d =? 90); [cbn [pixels imgW imgH]; split; [apply rot90_spec; lia | lia] |].
  destruct (normRot d =? 270); [cbn [pixels imgW imgH]; split; [apply rot270_spec; lia | lia] |].
  rewrite Hcopy; cbn; lia.
Qed.

Lemma checkInput_accepts (inp : JniInput) (data : Gray) :
  checkInput inp = inr data ->
  gray inp = Some data /\ elementsAvailable inp = true
  /\ 0 < width inp /\ 0 < height inp /\ width inp * height inp <= Z.of_nat (length data)
  /\ right (requestedRoi inp) <> left (requestedRoi inp)
  /\ bottom (requestedRoi inp) <> top (requestedRoi inp).
Proof.
  unfold checkInput. destruct (gray inp) as [g|]; [| discriminate].
  destruct (Z.leb_spec (width inp) 0); [discriminate |].
  destruct (Z.leb_spec (height inp) 0); [discriminate |]. cbn [orb].
  destruct (Z.ltb_spec (Z.of_nat (length g)) 0); [discriminate |].
  destruct (Z.ltb_spec (Z.of_nat (length g)) (width inp * height inp)); [discriminate |]. cbn [orb].
  destruct (elementsAvailable inp); [| discriminate]. cbn [negb].
  destruct (Z.eqb_spec (right (requestedRoi inp)) (left (requestedRoi inp))); [discriminate |].
  destruct (Z.eqb_spec (bottom (requestedRoi inp)) (top (requestedRoi inp))); [discriminate |]. cbn [orb].
  intros [= ->]. repeat split; assumption.
Qed.

Lemma accepted_sizes (inp : JniInput) (data : Gray) :
  checkInput inp = inr data ->
  let roi := requestedRoi inp in
  let cropped := croppedFrame inp data in
  let rotated := rotatedFrame inp data in
  insideFrame roi (width inp) (height inp)
  /\ imgW cropped = right roi - left roi /\ imgH cropped = bottom roi - top roi
  /\ wellSized cropped /\ wellSized rotated
  /\ imgW rotated = rotatedW (normRot (rotationDegrees inp)) (imgW cropped) (imgH cropped)
  /\ imgH rotated = rotatedH (normRot (rotationDegrees inp)) (imgW cropped) (imgH cropped).
Proof.
  intros Hc. destruct (checkInput_accepts inp data Hc) as (_ & _ & Hw & Hh & Hlen & Hx & Hy).
  cbn zeta.
  pose proof (clampRect_inside (mkRect (roiLeft inp) (roiTop inp) (roiRight inp) (roiBottom inp))
                (width inp) (height inp) ltac:(lia) ltac:(lia)) as Hin.
  fold (requestedRoi inp) in Hin.
  destruct (cropGray_grid data (width inp) (height inp) (requestedRoi inp) ltac:(lia) ltac:(lia) Hlen)
    as (HW & HH & HL & _).
  rewrite (clampRect_fixed _ _ _ Hin) in HW, HH.
  fold (croppedFrame inp data) in HW, HH, HL.
  destruct Hin as (Hl & Hr & Ht & Hb).
  assert (Hcw : wellSized (croppedFrame inp data)) by (unfold wellSized; lia).
  destruct Hcw as (Hcw & Hch & Hcl).
  destruct (rotateGray_size (pixels (croppedFrame inp data)) (imgW (croppedFrame inp data))
              (imgH (croppedFrame inp data)) (rotationDegrees inp) ltac:(lia) ltac:(lia) Hcl)
    as (Hrl & Hrd).
  fold (rotatedFrame inp data) in Hrl, Hrd.
  destruct (rotated_dims (pixels (croppedFrame inp data)) (imgW (croppedFrame inp data))
              (imgH (croppedFrame inp data)) (rotationDegrees inp)) as (Ha & Hb').
  fold (rotatedFrame inp data) in Ha, Hb'.
  split; [unfold insideFrame; lia |].
  assert (Hrw : wellSized (rotatedFrame inp data)).
  { unfold wellSized, rotatedW, rotatedH in *.
    destruct ((normRot (rotationDegrees inp) =? 90) || (normRot (rotationDegrees inp) =? 270)); lia. }
  unfold wellSized in *. repeat split; lia.
Qed.

(** X19. On every input that passes the checks of the entry points, the
    buffer holds at least [width * height] samples, the region of interest
    lies inside the frame and has a positive width and height, the cropped
    buffer has the size of the region, the rotated buffer has the dimensions
    the angle gives, and both hold exactly the samples of their dimensions. *)
Theorem accepted_frames (inp : JniInput) (data : Gray) :
  checkInput inp = inr data ->
  let roi := requestedRoi inp in
  let cropped := croppedFrame inp data in
  let rotated := rotatedFrame inp data in
  gray inp = Some data /\ width inp * height inp <= Z.of_nat (length data)
  /\ insideFrame roi (width inp) (height inp)
  /\ imgW cropped = right roi - left roi /\ imgH cropped = bottom roi - top roi
  /\ wellSized cropped /\ wellSized rotated
  /\ imgW rotated = rotatedW (normRot (rotationDegrees inp)) (imgW cropped) (imgH cropped)
  /\ imgH rotated = rotatedH (normRot (rotationDegrees inp)) (imgW cropped) (imgH cropped).
Proof.
  intros Hc. cbn zeta.
  destruct (checkInput_accepts inp data Hc) as (Hg & _ & _ & _ & Hlen & _).
  split; [exact Hg |]. split; [exact Hlen |]. apply accepted_sizes, Hc.
Qed.

Lemma accepted_frames_witness :
  let inp := mkInput (Some [x01; x02; x03; x04; x05; x06]) true 3 2 90 1 0 9 2 false in
  let data := [x01; x02; x03; x04; x05; x06] in
  let roi := requestedRoi inp in
  let cropped := croppedFrame inp data in
  let rotated := rotatedFrame inp data in
  gray inp = Some data /\ width inp * height inp <= Z.of_nat (length data)
  /\ insideFrame roi (width inp) (height inp)
  /\ imgW cropped = right roi - left roi /\ imgH cropped = bottom roi - top roi
  /\ wellSized cropped /\ wellSized rotated
  /\ imgW rotated = rotatedW (normRot (rotationDegrees inp)) (imgW cropped) (imgH cropped)
  /\ imgH rotated = rotatedH (normRot (rotationDegrees inp)) (imgW cropped) (imgH cropped).
Proof.
  apply (accepted_frames (mkInput (Some [x01; x02; x03; x04; x05; x06]) true 3 2 90 1 0 9 2 false)
           [x01; x02; x03; x04; x05; x06]).
  reflexivity.
Defined.

(** ** The fallback and the detection of a symbol *)

(** X20. The Micro QR fallback never changes whether a symbol was detected:
    its result is the current result or the result of the retry, it detected
    a symbol exactly when the current result did, and a valid current result
    is returned as it is; so a decode attempt detects a symbol exactly when
    its first call of the primitive does. *)
Theorem fallback_keeps_detection (E : External) (image : Image) (opts : ReaderOptions) (current : Barcode) :
  let r := result (retryAsQRCodeIfMicroInvalid E image opts current) in
  (r = current \/ r = ReadBarcode E image (setFormats [QRCode] opts))
  /\ detected r = detected current
  /\ (isValid current = true -> r = current)
  /\ detected (result (decodeOnce E image opts)) = detected (ReadBarcode E image opts).
Proof.
  assert (Hall : forall c,
    let r := result (retryAsQRCodeIfMicroInvalid E image opts c) in
    (r = c \/ r = ReadBarcode E image (setFormats [QRCode] opts))
    /\ detected r = detected c /\ (isValid c = true -> r = c)).
  { intros c. cbn zeta. unfold retryAsQRCodeIfMicroInvalid.
    destruct (format c) eqn:Hf; cbn [BarcodeFormat_eqb negb]; try (cbn; auto).
    destruct (isValid c) eqn:Hv; [cbn; auto |].
    destruct (negb (ErrorType_eqb (errType (error c)) ErrFormat)); [cbn; auto |].
    rewrite result_bind. cbn beta.
    change (result (readBarcode E image (setFormats [QRCode] opts)))
      with (ReadBarcode E image (setFormats [QRCode] opts)).
    set (retry := ReadBarcode E image (setFormats [QRCode] opts)).
    rewrite ?result_pair.
    destruct (detected retry) eqn:Hd; cbn [andb].
    - destruct (isValid retry || negb (isEmpty (text retry))); rewrite result_ret.
      + split; [right; reflexivity |]. split; [| discriminate].
        rewrite Hd. unfold detected. rewrite Hf. reflexivity.
      + split; [left; reflexivity |]. split; [reflexivity | discriminate].
    - rewrite result_ret. split; [left; reflexivity |]. split; [reflexivity | discriminate]. }
  cbn zeta. destruct (Hall current) as (H1 & H2 & H3).
  split; [exact H1 |]. split; [exact H2 |]. split; [exact H3 |].
  unfold decodeOnce. rewrite result_bind.
  change (result (readBarcode E image opts)) with (ReadBarcode E image opts).
  apply Hall.
Qed.

Lemma fallback_keeps_detection_witness :
  let E := withPrimitive confusedPrimitive in
  let image := mkImage [x00] 1 1 in
  let r := result (retryAsQRCodeIfMicroInvalid E image (generalOptions true) (validQR "ok")) in
  (r = validQR "ok" \/ r = ReadBarcode E image (setFormats [QRCode] (generalOptions true)))
  /\ detected r = detected (validQR "ok")
  /\ (isValid (validQR "ok") = true -> r = validQR "ok")
  /\ detected (result (decodeOnce E image (generalOptions true)))
     = detected (ReadBarcode E image (generalOptions true)).
Proof.
  apply (fallback_keeps_detection (withPrimitive confusedPrimitive) (mkImage [x00] 1 1)
           (generalOptions true) (validQR "ok")).
Defined.

(** ** The binarizer mask of the diagnostic entry point *)

Lemma debugAttempt_result (E : External) (image : Image) (opts : ReaderOptions) (pad : Z)
    (name : string) (bit : Z) (d : DebugState) :
  result (debugAttempt E image opts pad name bit d) =
  mkDebug (result (attempt E image opts pad 100 true (orch d))) name (lastPadTried d)
          (Z.lor (binMask d) bit).
Proof. unfold debugAttempt. rewrite result_bind. reflexivity. Qed.

Lemma debugEscalate_result (E : External) (image : Image) (th : bool) (bin : Binarizer) (pad : Z)
    (name : string) (bit : Z) (opts : ReaderOptions) (d : DebugState) :
  result (debugEscalate E image th bin pad name bit (opts, d)) =
  if negb (detected (barcode (orch d))) && th
  then (setBinarizer bin opts, result (debugAttempt E image (setBinarizer bin opts) pad name bit d))
  else (opts, d).
Proof.
  unfold debugEscalate. destruct (negb (detected (barcode (orch d))) && th); [| reflexivity].
  rewrite result_bind. reflexivity.
Qed.

Lemma debugPadLoop_step (E : External) (th : bool) (plan : Plan) (pad : Z) (rest : list Z)
    (d : DebugState) :
  exists d1 : DebugState,
    lastPadTried d1 = pad
    /\ (binMask d1 = Z.lor (binMask d) 1 /\ binUsed d1 = "local"%string
        \/ th = true /\ binMask d1 = Z.lor (Z.lor (binMask d) 1) 2
        \/ th = true /\ binMask d1 = Z.lor (Z.lor (Z.lor (binMask d) 1) 2) 4)
    /\ result (debugPadLoop E th plan (pad :: rest) d) =
       if detected (barcode (orch d1))
       then mkDebug (setUsed pad (scaleUsed (orch d1)) (orch d1)) (binUsed d1) (lastPadTried d1) (binMask d1)
       else result (debugPadLoop E th plan rest d1).
Proof.
  cbn [debugPadLoop]. cbn zeta.
  set (image := addWhiteBorder _ _ _ pad).
  set (d0 := mkDebug (orch d) (binUsed d) pad (binMask d)).
  rewrite result_bind. cbn beta.
  pose proof (debugAttempt_result E image (debugOptions th) pad "local" 1 d0) as Ha.
  set (da := result (debugAttempt E image (debugOptions th) pad "local" 1 d0)) in *.
  rewrite result_bind. cbn beta.
  pose proof (debugEscalate_result E image th GlobalHistogram pad "global" 2 (debugOptions th) da) as Hg.
  destruct (result (debugEscalate E image th GlobalHistogram pad "global" 2 (debugOptions th, da)))
    as [og dg].
  rewrite result_bind. cbn beta.
  pose proof (debugEscalate_result E image th FixedThreshold pad "fixed" 4 og dg) as Hf.
  destruct (result (debugEscalate E image th FixedThreshold pad "fixed" 4 (og, dg))) as [of_ df].
  cbn [snd]. exists df.
  assert (Hda : lastPadTried da = pad /\ binMask da = Z.lor (binMask d) 1 /\ binUsed da = "local"%string)
    by (rewrite Ha; repeat split; reflexivity).
  destruct Hda as (Hl & Hm & Hu).
  assert (Hcases : lastPadTried df = pad
    /\ (binMask df = Z.lor (binMask d) 1 /\ binUsed df = "local"%string
        \/ th = true /\ binMask df = Z.lor (Z.lor (binMask d) 1) 2
        \/ th = true /\ binMask df = Z.lor (Z.lor (Z.lor (binMask d) 1) 2) 4)).
  { destruct (negb (detected (barcode (orch da))) && th) eqn:Rg.
    - apply andb_true_iff in Rg as [_ ->].
      injection Hg as -> ->. rewrite debugAttempt_result in Hf.
      destruct (negb (detected (barcode (orch _))) && true) in Hf.
      + injection Hf as _ ->. rewrite ?debugAttempt_result. cbn [lastPadTried binMask].
        split; [exact Hl |]. right. right. rewrite ?Hm. split; reflexivity.
      + injection Hf as _ ->. rewrite ?debugAttempt_result. cbn [lastPadTried binMask].
        split; [exact Hl |]. right. left. rewrite ?Hm. split; reflexivity.
    - injection Hg as -> ->. rewrite Rg in Hf. injection Hf as _ ->.
      split; [exact Hl |]. left. split; assumption. }
  destruct Hcases as [H1 H2]. split; [exact H1 |]. split; [exact H2 |].
  destruct (detected (barcode (orch df))); [rewrite result_ret |]; reflexivity.
Qed.

(** X21. The diagnostic loop over a non-empty pad list, started with an
    empty binarizer mask, ends with the mask 1, 3 or 7 (a binarizer is tried
    only after the ones before it) and with the last pad tried taken from the
    list; at low effort the mask is 1 and the binarizer is the local one; and
    when a symbol is detected the pad reported as used is the last pad
    tried. *)
Theorem debug_mask (E : External) (th : bool) (plan : Plan) (padList : list Z) (d0 : DebugState) :
  binMask d0 = 0 -> padList <> [] ->
  let d := result (debugPadLoop E th plan padList d0) in
  In (binMask d) [1; 3; 7]
  /\ In (lastPadTried d) padList
  /\ (th = false -> binMask d = 1 /\ binUsed d = "local"%string)
  /\ (detected (barcode (orch d)) = true -> padUsed (orch d) = lastPadTried d).
Proof.
  intros Hm0 Hne. cbn zeta.
  assert (Hgen : forall l d, l <> [] -> In (binMask d) [0; 1; 3; 7] ->
    let r := result (debugPadLoop E th plan l d) in
    In (binMask r) [1; 3; 7] /\ In (lastPadTried r) l
    /\ (th = false -> In (binMask d) [0; 1] -> binMask r = 1 /\ binUsed r = "local"%string)
    /\ (detected (barcode (orch r)) = true -> padUsed (orch r) = lastPadTried r)).
  { induction l as [|pad rest IH]; intros d Hl Hin; [contradiction |]. cbn zeta.
    destruct (debugPadLoop_step E th plan pad rest d) as (d1 & Hlast & Hmask & ->).
    assert (Hm1 : In (binMask d1) [1; 3; 7]).
    { cbn [In] in Hin. destruct Hin as [H | [H | [H | [H | []]]]]; rewrite <- H in Hmask;
        destruct Hmask as [[Hk _] | [[_ Hk] | [_ Hk]]]; rewrite Hk; cbn; auto. }
    assert (Hlow : th = false -> In (binMask d) [0; 1] -> binMask d1 = 1 /\ binUsed d1 = "local"%string).
    { intros Hth Hd. destruct Hmask as [[Hk Hu] | [[Ht _] | [Ht _]]]; try congruence.
      split; [| exact Hu]. rewrite Hk. destruct Hd as [H | [H | []]]; rewrite <- H; reflexivity. }
    destruct (detected (barcode (orch d1))) eqn:Hdet.
    - cbn [binMask lastPadTried binUsed orch]. split; [exact Hm1 |].
      split; [left; symmetry; exact Hlast |]. split; [exact Hlow |].
      intros _. unfold setUsed. cbn [padUsed]. symmetry. exact Hlast.
    - destruct rest as [|pad' rest'].
      + cbn [debugPadLoop]. rewrite result_ret. split; [exact Hm1 |].
        split; [left; symmetry; exact Hlast |]. split; [exact Hlow |].
        intros Hd. congruence.
      + destruct (IH d1 ltac:(discriminate)) as (I1 & I2 & I3 & I4).
        { cbn [In] in *. intuition auto. }
        split; [exact I1 |]. split; [right; exact I2 |]. split; [| exact I4].
        intros Hth Hd. apply I3; [exact Hth |]. destruct (Hlow Hth Hd) as [-> _]. cbn; auto. }
  destruct (Hgen padList d0 Hne) as (G1 & G2 & G3 & G4); [rewrite Hm0; cbn; auto |].
  split; [exact G1 |]. split; [exact G2 |]. split; [| exact G4].
  intros Hth. apply G3; [exact Hth | rewrite Hm0; cbn; auto].
Qed.

Lemma debug_mask_witness :
  let E := withPrimitive blindPrimitive in
  let plan := buildPlanDebug false lightFrame 2 2 (mkMargins 2 2 2 2) in
  let d := result (debugPadLoop E false plan [0] (mkDebug initialOrch "local" (-1) 0)) in
  In (binMask d) [1; 3; 7]
  /\ In (lastPadTried d) [0]
  /\ (false = false -> binMask d = 1 /\ binUsed d = "local"%string)
  /\ (detected (barcode (orch d)) = true -> padUsed (orch d) = lastPadTried d).
Proof.
  apply (debug_mask (withPrimitive blindPrimitive) false
           (buildPlanDebug false lightFrame 2 2 (mkMargins 2 2 2 2)) [0]
           (mkDebug initialOrch "local" (-1) 0)); [reflexivity | discriminate].
Defined.

(** ** Coordinates mapped back to the frame *)

Lemma mapRect_inside (rot cropW cropH : Z) (r : RectI) :
  0 <= cropW -> 0 <= cropH -> insideFrame (mapRectFromRotToCrop rot cropW cropH r) cropW cropH.
Proof.
  intros Hw Hh. unfold mapRectFromRotToCrop. cbn zeta.
  destruct (fold_left _ _ _) as [[[a b] c] d]. apply clampRect_inside; assumption.
Qed.

Lemma mapRect_corners (rot cropW cropH : Z) (r : RectI) :
  let p1 := mapPointFromRotToCrop rot cropW cropH (left r) (top r) in
  let p2 := mapPointFromRotToCrop rot cropW cropH (right r) (top r) in
  let p3 := mapPointFromRotToCrop rot cropW cropH (right r) (bottom r) in
  let p4 := mapPointFromRotToCrop rot cropW cropH (left r) (bottom r) in
  mapRectFromRotToCrop rot cropW cropH r =
  clampRect (mkRect (Z.min (Z.min (Z.min (Z.min INT_MAX (fst p1)) (fst p2)) (fst p3)) (fst p4))
                    (Z.min (Z.min (Z.min (Z.min INT_MAX (snd p1)) (snd p2)) (snd p3)) (snd p4))
                    (Z.max (Z.max (Z.max (Z.max INT_MIN (fst p1)) (fst p2)) (fst p3)) (fst p4))
                    (Z.max (Z.max (Z.max (Z.max INT_MIN (snd p1)) (snd p2)) (snd p3)) (snd p4)))
            cropW cropH.
Proof.
  cbn zeta. unfold mapRectFromRotToCrop. cbn zeta. cbn [zip zip_with fold_left].
  destruct (mapPointFromRotToCrop rot cropW cropH (left r) (top r)) as [x1 y1].
  destruct (mapPointFromRotToCrop rot cropW cropH (right r) (top r)) as [x2 y2].
  destruct (mapPointFromRotToCrop rot cropW cropH (right r) (bottom r)) as [x3 y3].
  destruct (mapPointFromRotToCrop rot cropW cropH (left r) (bottom r)) as [x4 y4].
  reflexivity.
Qed.

(** X22. [mapRectFromRotToCrop] undoes the rotation on rectangles.  For a
    rectangle with ordered edges inside the rotated frame of a crop of
    [cropW x cropH] samples, the result is the rectangle turned back: its
    edges are those the point mapping gives, nothing is clamped, and its
    width and height are those of the rectangle, exchanged for a quarter
    turn. *)
Theorem mapRect_turns_back (rot cropW cropH : Z) (r : RectI) :
  0 <= left r <= right r -> right r < rotatedW rot cropW cropH ->
  0 <= top r <= bottom r -> bottom r < rotatedH rot cropW cropH ->
  cropW <= INT_MAX -> cropH <= INT_MAX ->
  let c := mapRectFromRotToCrop rot cropW cropH r in
  c = (if rot =? 90 then mkRect (top r) (cropH - 1 - right r) (bottom r) (cropH - 1 - left r)
       else if rot =? 270 then mkRect (cropW - 1 - bottom r) (left r) (cropW - 1 - top r) (right r)
       else if rot =? 180
            then mkRect (cropW - 1 - right r) (cropH - 1 - bottom r) (cropW - 1 - left r) (cropH - 1 - top r)
       else r)
  /\ insideFrame c cropW cropH
  /\ right c - left c = (if (rot =? 90) || (rot =? 270) then bottom r - top r else right r - left r)
  /\ bottom c - top c = (if (rot =? 90) || (rot =? 270) then right r - left r else bottom r - top r).
Proof.
  intros Hx Hr Hy Hb HW HH. cbn zeta.
  assert (Heq : mapRectFromRotToCrop rot cropW cropH r =
    (if rot =? 90 then mkRect (top r) (cropH - 1 - right r) (bottom r) (cropH - 1 - left r)
     else if rot =? 270 then mkRect (cropW - 1 - bottom r) (left r) (cropW - 1 - top r) (right r)
     else if rot =? 180
          then mkRect (cropW - 1 - right r) (cropH - 1 - bottom r) (cropW - 1 - left r) (cropH - 1 - top r)
     else r)).
  { rewrite mapRect_corners. cbn zeta.
    assert (Hmin : INT_MIN < 0) by reflexivity.
    generalize dependent INT_MAX. generalize dependent INT_MIN. intros lo Hlo hi HW HH.
    unfold mapPointFromRotToCrop, rotatedW, rotatedH in *.
    destruct r as [rl rt rr rb]. cbn [left top right bottom] in *.
    destruct (Z.eqb_spec rot 90) as [E90 | N90]; [| destruct (Z.eqb_spec rot 270) as [E270 | N270];
      [| destruct (Z.eqb_spec rot 180) as [E180 | N180]]];
      cbn [orb fst snd] in *;
      match goal with |- clampRect ?box _ _ = ?target =>
        assert (Hbox : box = target) by (f_equal; lia); rewrite Hbox
      end;
      apply clampRect_fixed; unfold insideFrame; cbn [left top right bottom]; lia. }
  rewrite Heq. unfold rotatedW, rotatedH, insideFrame in *.
  destruct (Z.eqb_spec rot 90) as [E90 | N90]; [| destruct (Z.eqb_spec rot 270) as [E270 | N270];
    [| destruct (Z.eqb_spec rot 180) as [E180 | N180]]];
    cbn [orb left top right bottom] in *; (split; [reflexivity |]); lia.
Qed.

Lemma mapRect_turns_back_witness :
  let r := mkRect 1 0 2 0 in
  let c := mapRectFromRotToCrop 90 2 3 r in
  c = mkRect 0 0 0 1
  /\ insideFrame c 2 3
  /\ right c - left c = bottom r - top r
  /\ bottom c - top c = right r - left r.
Proof.
  apply (mapRect_turns_back 90 2 3 (mkRect 1 0 2 0)); cbn; unfold INT_MAX; lia.
Defined.

Lemma formatOutput_parts (E : External) (th : bool) (roi : RectI) (rot cropW cropH rotW rotH : Z)
    (plan : Plan) (s : Orch) :
  let corner := cornerInFull E roi rot cropW cropH rotW rotH plan s in
  let pos := position (barcode s) in
  formatOutput E th roi rot cropW cropH rotW rotH plan s =
  outputText E th (barcode s) +s+ bar +s+
  formatRect (boxInFull E roi rot cropW cropH rotW rotH plan s) +s+ bar +s+
  formatQuad (fst (corner (topLeft pos))) (snd (corner (topLeft pos)))
             (fst (corner (topRight pos))) (snd (corner (topRight pos)))
             (fst (corner (bottomRight pos))) (snd (corner (bottomRight pos)))
             (fst (corner (bottomLeft pos))) (snd (corner (bottomLeft pos))).
Proof. reflexivity. Qed.

Lemma formatOutput_inside (E : External) (th : bool) (roi : RectI) (rot cropW cropH : Z)
    (plan : Plan) (s : Orch) :
  0 < cropW -> 0 < cropH -> right roi = left roi + cropW -> bottom roi = top roi + cropH ->
  locates roi (formatOutput E th roi rot cropW cropH (rotatedW rot cropW cropH)
                 (rotatedH rot cropW cropH) plan s).
Proof.
  intros Hw Hh Hr Hb. rewrite formatOutput_parts. cbn zeta.
  set (corner := cornerInFull E roi rot cropW cropH (rotatedW rot cropW cropH)
                   (rotatedH rot cropW cropH) plan s).
  assert (Hc : forall p, insideRoi roi (corner p)).
  { intros p. unfold corner, insideRoi, cornerInFull, cornerInRot. cbn zeta. cbn [fst snd].
    set (x := clamp _ 0 (Z.max 0 (rotatedW rot cropW cropH - 1))).
    set (y := clamp _ 0 (Z.max 0 (rotatedH rot cropW cropH - 1))).
    assert (Hx : 0 <= x <= Z.max 0 (rotatedW rot cropW cropH - 1)) by (apply clamp_range; lia).
    assert (Hy : 0 <= y <= Z.max 0 (rotatedH rot cropW cropH - 1)) by (apply clamp_range; lia).
    unfold mapPointFromRotToCrop, rotatedW, rotatedH in *.
    destruct (Z.eqb_spec rot 90) as [E90 | N90]; [| destruct (Z.eqb_spec rot 270) as [E270 | N270];
      [| destruct (Z.eqb_spec rot 180) as [E180 | N180]]];
      cbn [orb fst snd] in *; lia. }
  destruct (mapRect_inside rot cropW cropH
              (boxInRot E (rotatedW rot cropW cropH) (rotatedH rot cropW cropH) plan s)
              ltac:(lia) ltac:(lia)) as (H1 & H2 & H3 & H4).
  eexists _, _, _, _, _, _, _, _, _, _. split; [reflexivity |].
  unfold boxInFull. cbn zeta. cbn [left top right bottom].
  repeat (split; [lia |]).
  do 4 (constructor;
    [match goal with |- insideRoi _ (fst (corner ?p), snd (corner ?p)) =>
       rewrite <- (surjective_pairing (corner p)); apply Hc end |]).
  constructor.
Qed.

Lemma syntheticOutput_inside (E : External) (b : Barcode) (pad rotW rotH : Z) :
  0 < rotW -> 0 < rotH ->
  locates (mkRect 0 0 rotW rotH) (syntheticOutput E b pad rotW rotH).
Proof.
  intros Hw Hh. unfold syntheticOutput. cbn zeta.
  assert (Hx : forall v, 0 <= clamp (v - pad) 0 (Z.max 0 (rotW - 1)) < rotW).
  { intros v. pose proof (clamp_range (v - pad) 0 (Z.max 0 (rotW - 1)) ltac:(lia)). lia. }
  assert (Hy : forall v, 0 <= clamp (v - pad) 0 (Z.max 0 (rotH - 1)) < rotH).
  { intros v. pose proof (clamp_range (v - pad) 0 (Z.max 0 (rotH - 1)) ltac:(lia)). lia. }
  set (cx := fun v => clamp (v - pad) 0 (Z.max 0 (rotW - 1))) in *.
  set (cy := fun v => clamp (v - pad) 0 (Z.max 0 (rotH - 1))) in *.
  set (pos := position b).
  eexists _, _, _, _, _, _, _, _, _, _. split; [reflexivity |].
  cbn [left top right bottom].
  pose proof (Hx (px (topLeft pos))). pose proof (Hx (px (topRight pos))).
  pose proof (Hx (px (bottomRight pos))). pose proof (Hx (px (bottomLeft pos))).
  pose proof (Hy (py (topLeft pos))). pose proof (Hy (py (topRight pos))).
  pose proof (Hy (py (bottomRight pos))). pose proof (Hy (py (bottomLeft pos))).
  unfold min4, max4.
  repeat (split; [lia |]).
  do 4 (constructor; [unfold insideRoi; cbn [fst snd left top right bottom]; lia |]).
  constructor.
Qed.

Lemma generalPipeline_some (E : External) (th : bool) (roi : RectI) (rot cropW cropH : Z)
    (rotated : Image) (out : string) :
  result (generalPipeline E th roi rot cropW cropH rotated) = Some out ->
  exists plan s, out = formatOutput E th roi rot cropW cropH (imgW rotated) (imgH rotated) plan s.
Proof.
  unfold generalPipeline. do 3 rewrite result_bind. cbn zeta.
  set (plan := buildPlan th _ _ _ _).
  set (s := result (orchestrate E th plan)).
  destruct (detected (barcode s)); cbn [negb]; [| discriminate].
  rewrite result_ret. intros [= <-]. exists plan, s. reflexivity.
Qed.

Lemma syntheticPath_some (E : External) (th : bool) (rotated : Gray) (rotW rotH : Z) (out : string) :
  result (syntheticPath E th rotated rotW rotH) = Some out ->
  exists b pad, out = syntheticOutput E b pad rotW rotH.
Proof.
  unfold syntheticPath. cbn zeta. intros H.
  apply forUntil_some in H as [pad H]. apply forUntil_some in H as [buf H].
  revert H. set (pw := imgW _). set (ph := imgH _).
  do 2 rewrite result_bind.
  set (b1 := result (tryPure E buf pw ph th FixedThreshold)).
  set (b2 := result (tryPure E buf pw ph th LocalAverage)).
  destruct (detected b1) eqn:Hd1; cbn [negb].
  - rewrite result_ret, Hd1, result_ret. intros [= <-]. eauto.
  - fold b2. destruct (detected b2); rewrite result_ret; [| discriminate].
    intros [= <-]. eauto.
Qed.

(** X23. The coordinates the primary entry point returns lie in the region
    of interest.  Every returned string is a text field, a box and four
    corners; the box has ordered edges between the edges of the clamped
    region, and every corner is a sample position of the region, on the fast
    path and on the general path, whatever the primitive reported and
    whatever rotation, pad and scale were used. *)
Theorem decoded_inside_roi (E : External) (inp : JniInput) (out : string) :
  result (decodeGray E inp) = Some out -> locates (requestedRoi inp) out.
Proof.
  intros H. destruct (checkInput inp) as [e | data] eqn:Hc.
  - unfold decodeGray in H. rewrite Hc in H. discriminate.
  - rewrite (decodeGray_checked E inp data Hc) in H. cbn zeta in H. rewrite result_pair in H.
    destruct (accepted_sizes inp data Hc) as (Hin & HW & HH & (Hcw & Hch & _) & (Hrw & Hrh & _) & HrW & HrH).
    fold (croppedFrame inp data) in H. fold (rotatedFrame inp data) in H.
    set (roi := requestedRoi inp) in *. set (cropped := croppedFrame inp data) in *.
    set (rotated := rotatedFrame inp data) in *. set (rot := normRot (rotationDegrees inp)) in *.
    assert (Hgen : forall o, result (generalPipeline E (tryHarder inp) roi rot (imgW cropped)
                                       (imgH cropped) rotated) = Some o -> locates roi o).
    { intros o Ho. apply generalPipeline_some in Ho as (plan & s & ->).
      rewrite HrW, HrH. apply formatOutput_inside; lia. }
    unfold decodeRotated in H.
    destruct (takesFastPath roi (width inp) (height inp) rot rotated) eqn:Hfast; [| apply Hgen, H].
    rewrite result_bind in H.
    destruct (result (syntheticPath E (tryHarder inp) (pixels rotated) (imgW rotated) (imgH rotated)))
      as [o |] eqn:Hs.
    + rewrite result_ret in H. injection H as <-.
      apply syntheticPath_some in Hs as (b & pad & ->).
      unfold takesFastPath in Hfast. cbn zeta in Hfast.
      repeat (apply andb_true_iff in Hfast as [Hfast ?]).
      apply Z.eqb_eq in Hfast.
      repeat match goal with Hq : (_ =? _) = true |- _ => apply Z.eqb_eq in Hq end.
      assert (Hroi : roi = mkRect 0 0 (imgW rotated) (imgH rotated)).
      { unfold rotatedW, rotatedH in HrW, HrH.
        replace ((rot =? 90) || (rot =? 270)) with false in * by (subst rot; match goal with Hq : normRot _ = 0 |- _ => rewrite Hq end; reflexivity).
        destruct roi as [rl rt rr rb]. cbn [left top right bottom] in *. f_equal; lia. }
      rewrite Hroi. apply syntheticOutput_inside; lia.
    + destruct (tryHarder inp); [rewrite result_ret in H; discriminate | apply Hgen, H].
Qed.

Lemma decoded_inside_roi_witness :
  locates (requestedRoi (lightInput false)) "a|b|0,0,0,0|0,0,0,0,0,0,0,0".
Proof.
  apply (decoded_inside_roi (withPrimitive pipePrimitive) (lightInput false)).
  vm_compute. reflexivity.
Defined.

(** ** The pad and the scale recorded with a result *)

Section Records.
Variables (padOk scaleOk : Z -> Prop).

Lemma records_settle (b : Barcode) (pad : Z) (scale : Scale) (guard : bool) (s : Orch) :
  padOk pad -> scaleOk scale -> recordsFrom padOk scaleOk s ->
  recordsFrom padOk scaleOk (settle b pad scale guard s).
Proof.
  intros Hp Hs (H1 & H2 & H3 & H4). destruct s as [bc bi hi pu bp su bs].
  unfold settle, recordInvalid, setBarcode, recordsFrom in *.
  cbn [barcode haveInvalid bestInvalid padUsed bestInvalidPad scaleUsed bestInvalidScale] in *.
  destruct (detected b && negb (isValid b) && negb hi);
    cbn [barcode haveInvalid bestInvalid padUsed bestInvalidPad scaleUsed bestInvalidScale];
    destruct (hasFormatError b && guard);
    cbn [barcode haveInvalid bestInvalid padUsed bestInvalidPad scaleUsed bestInvalidScale];
    repeat split; assumption.
Qed.

Lemma records_attempt (E : External) (image : Image) (opts : ReaderOptions)
    (pad : Z) (scale : Scale) (guard : bool) (s : Orch) :
  padOk pad -> scaleOk scale -> recordsFrom padOk scaleOk s ->
  recordsFrom padOk scaleOk (result (attempt E image opts pad scale guard s)).
Proof. intros Hp Hs H. rewrite attempt_result. apply records_settle; assumption. Qed.

Lemma records_escalate (E : External) (image : Image) (th : bool)
    (configure : ReaderOptions -> ReaderOptions) (pad : Z) (scale : Scale)
    (st : ReaderOptions * Orch) :
  padOk pad -> scaleOk scale -> recordsFrom padOk scaleOk (snd st) ->
  recordsFrom padOk scaleOk (snd (result (escalate E image th configure pad scale st))).
Proof.
  destruct st as [opts s]. intros Hp Hs H. unfold escalate.
  destruct (negb (detected (barcode s)) && th); [| exact H].
  rewrite result_bind. apply records_attempt; assumption.
Qed.

Lemma records_ladder (E : External) (image : Image) (th : bool) (pad : Z) (scale : Scale) (s : Orch) :
  padOk pad -> scaleOk scale -> recordsFrom padOk scaleOk s ->
  recordsFrom padOk scaleOk (result (ladder E image th pad scale s)).
Proof.
  intros Hp Hs H. unfold ladder. do 5 rewrite result_bind. unfold ret at 1. rewrite result_pair.
  do 3 (apply records_escalate; [assumption | assumption |]).
  apply (records_escalate E image th _ pad scale (_, _)); [assumption | assumption |].
  apply records_attempt; assumption.
Qed.

Lemma records_scaleLoop (E : External) (th : bool) (padded : Image) (pad : Z)
    (scales : list Scale) (s : Orch) :
  padOk pad -> Forall scaleOk scales -> recordsFrom padOk scaleOk s ->
  recordsFrom padOk scaleOk (snd (result (scaleLoop E th padded pad scales s))).
Proof.
  intros Hp Hs. revert s. induction Hs as [|scale rest Hscale Hrest IH]; intros s H; cbn [scaleLoop];
    [exact H |].
  rewrite result_bind.
  pose proof (records_ladder E (scaledImage E padded scale) th pad scale s Hp Hscale H) as Hl.
  set (s1 := result (ladder E (scaledImage E padded scale) th pad scale s)) in *.
  destruct (detected (barcode s1)); [| apply IH, Hl].
  destruct Hl as (H1 & H2 & H3 & H4). rewrite result_ret. cbn [snd]. unfold setUsed, recordsFrom.
  cbn [padUsed bestInvalidPad scaleUsed bestInvalidScale]. repeat split; assumption.
Qed.

Lemma records_padLoop (E : External) (th : bool) (plan : Plan) (padList : list Z) (s : Orch) :
  Forall padOk padList -> (forall z, knownScale z -> scaleOk z) -> recordsFrom padOk scaleOk s ->
  recordsFrom padOk scaleOk (result (padLoop E th plan padList s)).
Proof.
  intros Hp Hk. revert s. induction Hp as [|pad rest Hpad Hrest IH]; intros s H; cbn [padLoop];
    [exact H |].
  cbn zeta. rewrite result_bind.
  set (r := result (scaleLoop E th _ pad _ s)).
  assert (Hr : recordsFrom padOk scaleOk (snd r)).
  { apply records_scaleLoop; [exact Hpad | | exact H].
    apply Forall_forall. intros z Hz. apply Hk. apply list_elem_of_In in Hz.
    exact (proj1 (proj2 (buildScales_cases th _ _ _ _)) z Hz). }
  destruct (fst r); [exact Hr | apply IH, Hr].
Qed.

Lemma records_promote (s : Orch) : recordsFrom padOk scaleOk s -> recordsFrom padOk scaleOk (promote s).
Proof.
  intros (H1 & H2 & H3 & H4). unfold promote.
  destruct (negb (detected (barcode s)) && haveInvalid s); [| repeat split; assumption].
  unfold recordsFrom. cbn [padUsed bestInvalidPad scaleUsed bestInvalidScale]. repeat split; assumption.
Qed.
End Records.

(** X24. The pad and the scale the orchestrator reports with its final
    result, which the output is mapped back with, are a pad of the plan and
    one of the eight scales: the pad lies in [[0, 512]], the scale is
    positive, and at low effort the scale is 100. *)
Theorem used_pad_and_scale (E : External) (th : bool) (rotated : Gray) (rotW rotH : Z) (margins : Margins) :
  let plan := buildPlan th rotated rotW rotH margins in
  let s := result (orchestrate E th plan) in
  In (padUsed s) (pads plan) /\ 0 <= padUsed s <= 512
  /\ knownScale (scaleUsed s) /\ 0 < scaleUsed s
  /\ (th = false -> scaleUsed s = 100).
Proof.
  cbn zeta. set (plan := buildPlan th rotated rotW rotH margins).
  assert (Hpads : In 0 (pads plan) /\ forall z, In z (pads plan) -> 0 <= z <= 512).
  { destruct (plan_pads_range false th rotated rotW rotH margins) as (_ & H0 & _ & Hr).
    split; [exact H0 | exact Hr]. }
  destruct Hpads as [H0 Hrange].
  assert (Hgen : recordsFrom (fun z => In z (pads plan)) knownScale (result (orchestrate E th plan))).
  { unfold orchestrate. rewrite result_bind, result_ret.
    apply records_promote. apply records_padLoop; [| auto |].
    - apply Forall_forall. intros z Hz. apply list_elem_of_In, Hz.
    - unfold recordsFrom, initialOrch, knownScale. cbn. auto 10. }
  destruct Hgen as (Hp & _ & Hs & _).
  split; [exact Hp |]. split; [apply Hrange, Hp |]. split; [exact Hs |].
  split.
  - unfold knownScale in Hs. cbn [In] in Hs. intuition lia.
  - intros ->. clear Hs Hp.
    assert (Hlow : recordsFrom (fun _ => True) (fun z => z = 100) (result (orchestrate E false plan))).
    { unfold orchestrate. rewrite result_bind, result_ret.
      apply records_promote.
      assert (Hloop : forall l s, recordsFrom (fun _ => True) (fun z => z = 100) s ->
        recordsFrom (fun _ => True) (fun z => z = 100) (result (padLoop E false plan l s))).
      { induction l as [|pad rest IH]; intros s H; cbn [padLoop]; [exact H |].
        cbn zeta. rewrite result_bind.
        rewrite (proj1 (buildScales_cases false _ _ _ _) eq_refl).
        set (r := result (scaleLoop E false _ pad [100] s)).
        assert (Hr : recordsFrom (fun _ => True) (fun z => z = 100) (snd r)).
        { apply records_scaleLoop; [exact I | repeat constructor | exact H]. }
        destruct (fst r); [exact Hr | apply IH, Hr]. }
      apply Hloop. unfold recordsFrom, initialOrch. cbn. repeat split. }
    apply Hlow.
Qed.

(** ** The text field *)









(** ** Reading the coordinates back *)

Lemma to_string_inj (a b : Z) : to_string a = to_string b -> a = b.
Proof.
  unfold to_string. intros H.
  assert (Hn : forall z, Z.to_int z <> Decimal.Pos Decimal.Nil /\ Z.to_int z <> Decimal.Neg Decimal.Nil).
  { intros [|p|p]; cbn [Z.to_int]; split; try discriminate;
      intros [= Hp]; exact (DecimalPos.Unsigned.to_uint_nonnil p Hp). }
  apply DecimalZ.to_int_inj.
  assert (Some (Z.to_int a) = Some (Z.to_int b)) as [= ->]; [| reflexivity].
  rewrite <- (NilZero.isi (Z.to_int a)), <- (NilZero.isi (Z.to_int b)) by apply Hn.
  rewrite H. reflexivity.
Qed.

Lemma hasComma_uint (d : Decimal.uint) : hasComma (NilEmpty.string_of_uint d) = false.
Proof. induction d; cbn; [reflexivity | assumption ..]. Qed.

Lemma hasComma_to_string (z : Z) : hasComma (to_string z) = false.
Proof.
  unfold to_string, NilZero.string_of_int.
  assert (Hu : forall d, hasComma (NilZero.string_of_uint d) = false).
  { intros d. destruct d; [reflexivity | exact (hasComma_uint _) ..]. }
  destruct (Z.to_int z) as [d | d]; [apply Hu |].
  change (hasComma (String "-" (NilZero.string_of_uint d)) = false).
  cbn [hasComma]. rewrite Hu. reflexivity.
Qed.

Lemma comma_split (a a' b b' : string) :
  hasComma a = false -> hasComma a' = false ->
  a +s+ comma +s+ b = a' +s+ comma +s+ b' -> a = a' /\ b = b'.
Proof.
  revert a'. induction a as [|c a IH]; intros [|c' a'] Ha Ha' H; cbn in *.
  - injection H as H. split; [reflexivity | exact H].
  - injection H as Hc _. rewrite <- Hc in Ha'. discriminate.
  - injection H as Hc _. rewrite Hc in Ha. discriminate.
  - injection H as Hc H. apply orb_false_iff in Ha as [_ Ha]. apply orb_false_iff in Ha' as [_ Ha'].
    destruct (IH a' Ha Ha' H) as [-> ->]. subst c'. split; reflexivity.
Qed.

Lemma number_split (x x' : Z) (b b' : string) :
  to_string x +s+ comma +s+ b = to_string x' +s+ comma +s+ b' -> x = x' /\ b = b'.
Proof.
  intros H. destruct (comma_split _ _ _ _ (hasComma_to_string x) (hasComma_to_string x') H) as [Hx Hb].
  split; [apply to_string_inj, Hx | exact Hb].
Qed.

(** X26. The box and the corner fields can be read back: [formatRect] and
    [formatQuad] write decimal numbers separated by commas, no number holds a
    comma, and two rectangles, or two lists of eight coordinates, with the
    same text are equal. *)
Theorem coordinates_read_back (r r' : RectI) (x0 y0 x1 y1 x2 y2 x3 y3 x0' y0' x1' y1' x2' y2' x3' y3' : Z) :
  (formatRect r = formatRect r' -> r = r')
  /\ (formatQuad x0 y0 x1 y1 x2 y2 x3 y3 = formatQuad x0' y0' x1' y1' x2' y2' x3' y3' ->
      [x0; y0; x1; y1; x2; y2; x3; y3] = [x0'; y0'; x1'; y1'; x2'; y2'; x3'; y3']).
Proof.
  split.
  - unfold formatRect. intros H.
    apply number_split in H as [Hl H]. apply number_split in H as [Ht H].
    apply number_split in H as [Hr H]. apply to_string_inj in H.
    destruct r, r'. cbn in *. congruence.
  - unfold formatQuad. intros H.
    do 7 (apply number_split in H as [? H]). apply to_string_inj in H. congruence.
Qed.

Lemma coordinates_read_back_witness :
  formatRect (mkRect (-1) 0 12 7) = "-1,0,12,7"%string
  /\ (formatRect (mkRect (-1) 0 12 7) = formatRect (mkRect (-1) 0 12 7) ->
      mkRect (-1) 0 12 7 = mkRect (-1) 0 12 7).
Proof.
  split; [reflexivity |].
  apply (coordinates_read_back (mkRect (-1) 0 12 7) (mkRect (-1) 0 12 7) 0 0 0 0 0 0 0 0 0 0 0 0 0 0 0 0).
Defined.

(** ** The two plans *)

(** X27. The two entry points build the same plan unless the four margins
    are zero or the effort flag is set on a suspect quiet zone: outside those
    cases the diagnostic entry point tries the pads of the primary one, in the
    same order. *)
Theorem plans_agree (th : bool) (rotated : Gray) (rotW rotH : Z) (m : Margins) :
  isZero m = false -> th = false \/ isSuspect m = false ->
  buildPlanDebug th rotated rotW rotH m = buildPlan th rotated rotW rotH m.
Proof.
  intros Hz Hs. unfold buildPlanDebug, buildPlan, buildPlanFor, targetQuietZone,
    padCandidates, padCandidatesDebug. cbn zeta. rewrite Hz.
  destruct Hs as [-> | ->]; [reflexivity |]. destruct th; reflexivity.
Qed.

Lemma plans_agree_witness :
  buildPlanDebug true lightFrame 2 2 (mkMargins 4 4 4 4) = buildPlan true lightFrame 2 2 (mkMargins 4 4 4 4).
Proof.
  apply (plans_agree true lightFrame 2 2 (mkMargins 4 4 4 4)); [reflexivity | right; reflexivity].
Defined.

(** ** Margins of a dark frame *)

Lemma stats_sum (f : Z -> Z) (bound : Z) (idxs : list Z) :
  (forall x, In x idxs -> f x <= bound) ->
  forall s, sum (fold_left (fun s x => addSample (f x) s) idxs s) <= sum s + bound * Z.of_nat (length idxs).
Proof.
  induction idxs as [|x idxs IH]; intros Hb s; cbn [fold_left length]; [lia |].
  specialize (IH (fun y Hy => Hb y (or_intror Hy)) (addSample (f x) s)).
  pose proof (Hb x (or_introl eq_refl)).
  change (sum (addSample (f x) s)) with (sum s + f x) in IH. lia.
Qed.

Lemma whiteBands_dark (E : External) (n : Z) (s : Stats) :
  sum s <= 184 * Z.max 1 n -> whiteBands E n s = false.
Proof.
  intros Hs. unfold whiteBands. cbn zeta.
  destruct (Z.leb_spec (205 * Z.max 1 n) (sum s)); [lia |].
  destruct (Z.leb_spec (195 * Z.max 1 n) (sum s)); [lia |].
  destruct (Z.leb_spec (185 * Z.max 1 n) (sum s)); [lia |]. reflexivity.
Qed.

Lemma length_stepsUp_2 (n : Z) : 0 <= n -> Z.of_nat (length (stepsUp n 2)) = (n + 1) ÷ 2.
Proof.
  intros Hn. unfold stepsUp. rewrite length_fmap, length_seqZ.
  rewrite Z.quot_div_nonneg by lia.
  assert (0 <= (n + 2 - 1) `div` 2) by (apply Z.div_pos; lia).
  replace (n + 2 - 1) with (n + 1) in * by lia. lia.
Qed.

Lemma dark_row (E : External) (src : Gray) (width height y : Z) :
  0 < width -> 0 <= y < height ->
  (forall i, 0 <= i < width * height -> sample src i < 185) ->
  isMostlyWhiteRow E (offset src (y * width)) width = false.
Proof.
  intros Hw Hy Hd. unfold isMostlyWhiteRow. cbn zeta. apply whiteBands_dark.
  pose proof (stats_sum (sample (offset src (y * width))) 184 (stepsUp width 2)) as Hsum.
  rewrite length_stepsUp_2 in Hsum by lia.
  assert (1 <= (width + 1) ÷ 2) by (rewrite Z.quot_div_nonneg by lia; apply Z.div_le_lower_bound; lia).
  specialize (Hsum ltac:(intros x Hx; apply In_stepsUp in Hx; [| lia];
                         unfold sample; rewrite load_offset by nia;
                         pose proof (Hd (y * width + x) ltac:(nia)) as Hv; unfold sample in Hv; lia)
                   (mkStats 0 0 0)).
  cbn [sum] in Hsum. lia.
Qed.

Lemma dark_col (E : External) (src : Gray) (width height x : Z) :
  0 < height -> 0 <= x < width ->
  (forall i, 0 <= i < width * height -> sample src i < 185) ->
  isMostlyWhiteCol E src width height x = false.
Proof.
  intros Hh Hx Hd. unfold isMostlyWhiteCol. cbn zeta. apply whiteBands_dark.
  pose proof (stats_sum (fun y => sample src (y * width + x)) 184 (stepsUp height 2)) as Hsum.
  rewrite length_stepsUp_2 in Hsum by lia.
  assert (1 <= (height + 1) ÷ 2) by (rewrite Z.quot_div_nonneg by lia; apply Z.div_le_lower_bound; lia).
  specialize (Hsum ltac:(intros y Hy; apply In_stepsUp in Hy; [| lia];
                         pose proof (Hd (y * width + x) ltac:(nia)) as Hv; lia)
                   (mkStats 0 0 0)).
  cbn [sum] in Hsum. lia.
Qed.

(** X28. A frame without a light sample has no margin.  When every sample
    of a frame of positive size is below 185, no row and no column passes the
    band test, whatever the standard deviation is found to be: the four
    margins are zero and the plan is built for a zero quiet zone. *)
Theorem dark_frame_margins (E : External) (src : Gray) (width height : Z) (th : bool) :
  0 < width -> 0 < height ->
  (forall i, 0 <= i < width * height -> sample src i < 185) ->
  let m := measureWhiteMargins E src width height in
  m = mkMargins 0 0 0 0
  /\ qzZero (buildPlan th src width height m) = true
  /\ qzSuspect (buildPlan th src width height m) = true.
Proof.
  intros Hw Hh Hd. cbn zeta.
  assert (Hm : measureWhiteMargins E src width height = mkMargins 0 0 0 0).
  { unfold measureWhiteMargins. cbn zeta.
    set (whiteRow := fun y => isMostlyWhiteRow E (offset src (y * width)) width).
    set (whiteCol := fun x => isMostlyWhiteCol E src width height x).
    destruct (forBreak_up 1 whiteRow height ltac:(lia) ltac:(lia)) as (kt & Hkt & -> & Htw & _).
    destruct (forBreak_down 1 whiteRow (height - 1) ltac:(lia) ltac:(lia)) as (kb & Hkb & -> & Hbw & _).
    destruct (forBreak_up 2 whiteCol width ltac:(lia) ltac:(lia)) as (kl & Hkl & -> & Hlw & _).
    destruct (forBreak_down 2 whiteCol (width - 1) ltac:(lia) ltac:(lia)) as (kr & Hkr & -> & Hrw & _).
    cbn zeta in Hkt, Hkb, Hkl, Hkr.
    assert (kt = 0).
    { destruct (Z.eq_dec kt 0) as [-> | Hne]; [reflexivity | exfalso].
      specialize (Htw 0 ltac:(lia)). unfold whiteRow in Htw.
      rewrite (dark_row E src width height (0 * 1)) in Htw by (try assumption; lia). discriminate. }
    assert (kb = 0).
    { destruct (Z.eq_dec kb 0) as [-> | Hne]; [reflexivity | exfalso].
      specialize (Hbw 0 ltac:(lia)). unfold whiteRow in Hbw.
      rewrite (dark_row E src width height (height - 1 - 0 * 1)) in Hbw by (try assumption; lia).
      discriminate. }
    assert (kl = 0).
    { destruct (Z.eq_dec kl 0) as [-> | Hne]; [reflexivity | exfalso].
      specialize (Hlw 0 ltac:(lia)). unfold whiteCol in Hlw.
      rewrite (dark_col E src width height (0 * 2)) in Hlw by (try assumption; lia). discriminate. }
    assert (kr = 0).
    { destruct (Z.eq_dec kr 0) as [-> | Hne]; [reflexivity | exfalso].
      specialize (Hrw 0 ltac:(lia)). unfold whiteCol in Hrw.
      rewrite (dark_col E src width height (width - 1 - 0 * 2)) in Hrw by (try assumption; lia).
      discriminate. }
    subst. f_equal; lia. }
  rewrite Hm. split; [reflexivity |]. split; reflexivity.
Qed.

Lemma dark_frame_margins_witness :
  let E := withPrimitive blindPrimitive in
  let m := measureWhiteMargins E [x00; x10; xb8; x7f] 2 2 in
  m = mkMargins 0 0 0 0
  /\ qzZero (buildPlan true [x00; x10; xb8; x7f] 2 2 m) = true
  /\ qzSuspect (buildPlan true [x00; x10; xb8; x7f] 2 2 m) = true.
Proof.
  apply (dark_frame_margins (withPrimitive blindPrimitive) [x00; x10; xb8; x7f] 2 2 true); try lia.
  intros i Hi. assert (Hc : i = 0 \/ i = 1 \/ i = 2 \/ i = 3) by lia.
  destruct Hc as [-> | [-> | [-> | ->]]]; vm_compute; reflexivity.
Defined.
